(** * EdgeCloudSim energy-aware offloading: the simulation engine

    A shallow embedding of the offloading engine of
    [scripts/energy_aware/python/quick_simulation.py] (the edge-server
    queue model, the five decision policies and the aggregation loop of
    [run_simulation]) and of the class-based policies of
    [scripts/energy_aware/python/energy_aware_simulation.py].

    Conventions of the embedding.
    - Python floats are exact rationals ([Q]); [float('inf')] is the
      extra point of [xQ].  Rounding, overflow and NaN are outside the
      model.
    - Python ints that are counts ([len], counters) are [nat]; the
      configured queue bound is an int and is kept as [Z].
    - An exception (ZeroDivisionError, ValueError of [min] over an empty
      range) is [None] in the [option] monad.
    - [random.random()] reads the next element of an explicit stream of
      draws that is threaded through the loop. *)

From Stdlib Require Import String QArith Qround Qminmax Lqa ZArith Lia Bool List.
Import ListNotations.
Local Open Scope Q_scope.

(** ** Numbers *)

Definition Qltb (x y : Q) : bool := negb (Qle_bool y x).

(** [max(a, b)] of Python keeps its first argument unless the second is
    strictly larger. *)
Definition py_max (a b : Q) : Q := if Qltb a b then b else a.

(** [min(a, b)] keeps its first argument unless the second is strictly
    smaller. *)
Definition py_min (a b : Q) : Q := if Qltb b a then b else a.

(** [sum(l)]: left fold from 0. *)
Definition py_sum (l : list Q) : Q := fold_left Qplus l 0.

(** Floats extended with [float('inf')]. *)
Inductive xQ : Type :=
| Fin (q : Q)
| PInf.

Definition xltb (x y : xQ) : bool :=
  match x, y with
  | Fin a, Fin b => Qltb a b
  | Fin _, PInf => true
  | PInf, _ => false
  end.

Definition is_inf (x : xQ) : bool :=
  match x with PInf => true | Fin _ => false end.

(** [x *= f] for a factor [f > 0]: infinity stays infinity. *)
Definition xscale (x : xQ) (f : Q) : xQ :=
  match x with Fin a => Fin (a * f) | PInf => PInf end.

(** ** The three execution locations *)

Inductive DeviceType : Type := MOBILE | EDGE | CLOUD.

Definition DeviceType_eqb (a b : DeviceType) : bool :=
  match a, b with
  | MOBILE, MOBILE | EDGE, EDGE | CLOUD, CLOUD => true
  | _, _ => false
  end.

(** A dict keyed by location, in insertion order. *)
Definition ddict (V : Type) : Type := list (DeviceType * V).

Fixpoint dict_get {V} (d : ddict V) (k : DeviceType) : option V :=
  match d with
  | [] => None
  | (k', v) :: r => if DeviceType_eqb k k' then Some v else dict_get r k
  end.

(** [d[k] = v] on an existing key keeps the key's position. *)
Fixpoint dict_set {V} (d : ddict V) (k : DeviceType) (v : V) : ddict V :=
  match d with
  | [] => [(k, v)]
  | (k', v') :: r =>
      if DeviceType_eqb k k' then (k', v) :: r else (k', v') :: dict_set r k v
  end.

(** [min(d, key=d.get)]: the first key, in insertion order, whose value is
    not beaten by a strictly smaller one. *)
Fixpoint min_from {V} (ltb : V -> V -> bool) (best : DeviceType * V)
  (rest : ddict V) : DeviceType :=
  match rest with
  | [] => fst best
  | kv :: r =>
      if ltb (snd kv) (snd best) then min_from ltb kv r
      else min_from ltb best r
  end.

Definition dict_min {V} (ltb : V -> V -> bool) (d : ddict V)
  : option DeviceType :=
  match d with
  | [] => None
  | kv :: r => Some (min_from ltb kv r)
  end.

(** Order on extended floats: [x] is not above [y]. *)
Definition xle (x y : xQ) : Prop := xltb y x = false.

(** The value a three-entry dict holds at a key. *)
Definition dict3_at {V} (a b c : V) (k : DeviceType) : V :=
  match k with MOBILE => a | EDGE => b | CLOUD => c end.

(** ** Edge server queue model (quick_simulation.py, class EdgeServer) *)

Record EdgeServer : Type := mkEdgeServer {
  server_id : nat;
  mips : Q;
  max_queue : Z;
  queued_processing_times : list Q;
  next_available : Q;
  total_busy_time : Q
}.

Definition EdgeServer_init (sid : nat) (m : Q) (mq : Z) : EdgeServer :=
  mkEdgeServer sid m mq [] 0 0.

Definition get_queue_length (s : EdgeServer) : nat :=
  length (queued_processing_times s).

Definition get_utilization (s : EdgeServer) (current_time : Q) : Q :=
  if Qle_bool current_time 0 then 0
  else py_min 100 ((total_busy_time s / current_time) * 100).

Definition estimate_wait_time (s : EdgeServer) (current_time : Q) : Q :=
  let wait := py_max 0 (next_available s - current_time) in
  wait + py_sum (queued_processing_times s).

Definition can_accept_task (s : EdgeServer) : bool :=
  (Z.of_nat (length (queued_processing_times s)) <? max_queue s)%Z.

(** [submit_task] returns the pair [(total_time, failed)] and the server
    after the call; [(None, True)] is the rejection signal. *)
Definition submit_task (s : EdgeServer) (current_time processing_time : Q)
  : (option Q * bool) * EdgeServer :=
  if negb (can_accept_task s) then ((None, true), s)
  else
    let wait_time :=
      fold_left Qplus (queued_processing_times s)
                (py_max 0 (next_available s - current_time)) in
    let total_time := wait_time + processing_time in
    ((Some total_time, false),
     mkEdgeServer (server_id s) (mips s) (max_queue s)
       (queued_processing_times s ++ [processing_time])
       (current_time + total_time)
       (total_busy_time s + processing_time)).

(** Second loop of [update]: consume [elapsed] from the head of the
    queue. *)
Fixpoint consume_elapsed (elapsed : Q) (q : list Q) : list Q :=
  match q with
  | [] => []
  | h :: r =>
      if Qltb 0 elapsed then
        if Qle_bool h elapsed then consume_elapsed (elapsed - h) r
        else (h - elapsed) :: r
      else q
  end.

(** First loop of [update]: [next_available] does not change while the
    loop pops, so a non-empty queue whose [next_available] has passed is
    emptied. *)
Fixpoint drop_finished (na current_time : Q) (q : list Q) : list Q :=
  match q with
  | [] => []
  | _ :: r => if Qle_bool na current_time then drop_finished na current_time r
              else q
  end.

Definition update (s : EdgeServer) (current_time : Q) : EdgeServer :=
  let q1 := drop_finished (next_available s) current_time
              (queued_processing_times s) in
  let elapsed :=
    current_time -
    (match q1 with
     | [] => current_time
     | _ :: _ => next_available s - py_sum q1
     end) in
  mkEdgeServer (server_id s) (mips s) (max_queue s)
    (consume_elapsed elapsed q1) (next_available s) (total_busy_time s).

(** The methods of the class as operations on a server. *)
Inductive server_op : Type :=
| OpQueueLength
| OpUtilization (now : Q)
| OpEstimateWait (now : Q)
| OpCanAccept
| OpSubmit (now processing_time : Q)
| OpUpdate (now : Q).

Definition run_op (s : EdgeServer) (o : server_op) : EdgeServer :=
  match o with
  | OpQueueLength => s
  | OpUtilization _ => s
  | OpEstimateWait _ => s
  | OpCanAccept => s
  | OpSubmit now pt => snd (submit_task s now pt)
  | OpUpdate now => update s now
  end.

Definition run_ops (s : EdgeServer) (ops : list server_op) : EdgeServer :=
  fold_left run_op ops s.

(** The queue bound as an invariant of a server. *)
Definition queue_bounded (s : EdgeServer) : Prop :=
  (Z.of_nat (get_queue_length s) <= max_queue s)%Z.

(** Queued durations stay non-negative when only non-negative processing
    times are submitted. *)
Definition nonneg_queue (s : EdgeServer) : Prop :=
  Forall (fun p => 0 <= p) (queued_processing_times s).

Definition op_nonneg (o : server_op) : Prop :=
  match o with
  | OpSubmit _ pt => 0 <= pt
  | _ => True
  end.

(** ** Configuration and workload records (quick_simulation.py) *)

Record SimConfig : Type := mkSimConfig {
  simulation_time : Q;
  warm_up_period : Q;
  mobile_power_idle : Q;
  mobile_power_active : Q;
  mobile_power_transmit : Q;
  mobile_mips : Q;
  edge_mips : Q;
  cloud_mips : Q;
  wlan_bandwidth : Q;
  wan_bandwidth : Q;
  wan_propagation_delay : Q;
  num_edge_servers : nat;
  max_edge_queue : Z;
  alpha : Q;
  beta : Q
}.

(** The defaults of the dataclass. *)
Definition SimConfig_default : SimConfig :=
  mkSimConfig 300.0 30.0 0.3 1.8 1.2 500.0 8000.0 20000.0 50.0 20.0 0.08
              5 15 0.6 0.4.

Record AppType : Type := mkAppType {
  name : string;
  usage_pct : Q;
  delay_sens : Q;
  max_delay : Q;
  interarrival : Q;
  upload_kb : Q;
  download_kb : Q;
  task_mi : Q
}.

Definition APPS : list AppType :=
  [ mkAppType "REALTIME_AR" 35 0.95 0.08 1.5 80 150 600;
    mkAppType "INTERACTIVE_GAMING" 25 0.75 0.25 2.5 40 100 1000;
    mkAppType "IMAGE_PROCESSING" 25 0.35 1.5 6 300 80 3000;
    mkAppType "DATA_SYNC" 15 0.15 5.0 12 800 150 800 ].

Inductive Policy : Type :=
| EADC | GREEDY_ENERGY | GREEDY_DEADLINE | RANDOM | EDGE_ONLY.

(** One entry of the event heap:
    [(t, d, app, task_len, data_size, deadline)]. *)
Record Event : Type := mkEvent {
  ev_t : Q;
  ev_device : nat;
  ev_app : AppType;
  ev_task_len : Q;
  ev_data_size : Q;
  ev_deadline : Q
}.

(** The [results] dict of [run_simulation]. *)
Record Results : Type := mkResults {
  service_times : list Q;
  energies : list Q;
  deadline_met : list nat;
  failed : nat;
  local : nat;
  edge : nat;
  cloud : nat;
  edge_rejected : nat
}.

Definition Results_init : Results := mkResults [] [] [] 0 0 0 0 0.

(** ** Errors and randomness *)

Definition obind {A B} (m : option A) (k : A -> option B) : option B :=
  match m with Some a => k a | None => None end.

Notation "x <- m ;; k" := (obind m (fun x => k))
  (at level 61, m at next level, right associativity).
Notation "' p <- m ;; k" := (obind m (fun p => k))
  (at level 61, p pattern, m at next level, right associativity).

(** [a / b] raises ZeroDivisionError on a zero divisor. *)
Definition py_div (a b : Q) : option Q :=
  if Qeq_bool b 0 then None else Some (a / b).

(** The generator behind [random.random()]: a stream of draws from
    [0, 1) and the number of draws already taken. *)
Record Rng : Type := mkRng {
  draws : nat -> Q;
  cursor : nat
}.

Definition random (g : Rng) : Q * Rng :=
  (draws g (cursor g), mkRng (draws g) (S (cursor g))).

(** [np.mean(l)] of a non-empty list. *)
Definition np_mean (l : list Q) : Q :=
  py_sum l / inject_Z (Z.of_nat (length l)).

(** ** Cost model (run_simulation, lines 178-194) *)

Record Estimates : Type := mkEstimates {
  local_time : Q;
  wlan_delay : Q;
  edge_processing : Q;
  edge_queue_delay : Q;
  edge_time : Q;
  wan_delay : Q;
  cloud_processing : Q;
  cloud_time : Q;
  local_energy : Q;
  edge_energy : Q;
  cloud_energy : Q
}.

Definition load_factor (num_devices : nat) : Q :=
  1.0 + (inject_Z (Z.of_nat num_devices) / 200) * 0.5.

(** [min(range(n), key=...)]: the first index whose key is not beaten by a
    strictly smaller one. *)
Fixpoint argmin_from (key : nat -> Q) (best : nat) (rest : list nat) : nat :=
  match rest with
  | [] => best
  | i :: r =>
      if Qltb (key i) (key best) then argmin_from key i r
      else argmin_from key best r
  end.

Definition min_range (n : nat) (key : nat -> Q) : option nat :=
  match seq 0 n with
  | [] => None
  | i :: r => Some (argmin_from key i r)
  end.

(** Key of the server search; the index always lies inside the list. *)
Definition wait_at (edge_servers : list EdgeServer) (t : Q) (i : nat) : Q :=
  match nth_error edge_servers i with
  | Some s => estimate_wait_time s t
  | None => 0
  end.

(** [edge_servers] is built with [cfg.num_edge_servers] entries and never
    resized, so [range(cfg.num_edge_servers)] is the range of its
    indices. *)
Definition best_server_idx (edge_servers : list EdgeServer) (t : Q)
  : option nat :=
  min_range (length edge_servers) (wait_at edge_servers t).

Definition estimate_costs (cfg : SimConfig) (num_devices : nat)
  (edge_servers : list EdgeServer) (ev : Event)
  : option (nat * Estimates) :=
  let t := ev_t ev in
  let task_len := ev_task_len ev in
  let data_size := ev_data_size ev in
  q <- py_div task_len (mobile_mips cfg) ;;
  let local_time := q * load_factor num_devices in
  wlan_delay <- py_div (data_size * 8) (wlan_bandwidth cfg * 1000) ;;
  edge_processing <- py_div task_len (edge_mips cfg) ;;
  idx <- best_server_idx edge_servers t ;;
  best <- nth_error edge_servers idx ;;
  let edge_queue_delay := estimate_wait_time best t in
  let edge_time := wlan_delay * 2 + edge_processing + edge_queue_delay in
  w <- py_div (data_size * 8) (wan_bandwidth cfg * 1000) ;;
  let wan_delay := w + wan_propagation_delay cfg in
  cloud_processing <- py_div task_len (cloud_mips cfg) ;;
  let cloud_time := wan_delay * 2 + cloud_processing in
  let local_energy := mobile_power_active cfg * local_time in
  let edge_energy :=
    mobile_power_transmit cfg * wlan_delay * 2
    + mobile_power_idle cfg * (edge_processing + edge_queue_delay) in
  let cloud_energy :=
    mobile_power_transmit cfg * wan_delay * 2
    + mobile_power_idle cfg * cloud_processing in
  Some (idx,
        mkEstimates local_time wlan_delay edge_processing edge_queue_delay
          edge_time wan_delay cloud_processing cloud_time
          local_energy edge_energy cloud_energy).

(** The divisors of the cost model are all non-zero. *)
Definition nonzero_capacities (cfg : SimConfig) : bool :=
  negb (Qeq_bool (mobile_mips cfg) 0)
  && negb (Qeq_bool (wlan_bandwidth cfg * 1000) 0)
  && negb (Qeq_bool (edge_mips cfg) 0)
  && negb (Qeq_bool (wan_bandwidth cfg * 1000) 0)
  && negb (Qeq_bool (cloud_mips cfg) 0).

(** ** Decision policies (run_simulation, lines 196-246) *)

Definition times_of (e : Estimates) : ddict Q :=
  [(MOBILE, local_time e); (EDGE, edge_time e); (CLOUD, cloud_time e)].

Definition energies_of (e : Estimates) : ddict Q :=
  [(MOBILE, local_energy e); (EDGE, edge_energy e); (CLOUD, cloud_energy e)].

(** The closure [calc_score] with the variables it captures. *)
Definition calc_score (adaptive_alpha adaptive_beta max_time max_energy : Q)
  (time energy : Q) (meets_deadline : bool) : xQ :=
  if negb meets_deadline then PInf
  else
    let time_norm := if Qltb 0 max_time then time / max_time else 0 in
    let energy_norm := if Qltb 0 max_energy then energy / max_energy else 0 in
    Fin (adaptive_alpha * time_norm + adaptive_beta * energy_norm).

Definition avg_utilization (edge_servers : list EdgeServer) (t : Q) : Q :=
  np_mean (map (fun s => get_utilization s t) edge_servers).

(** Estimated completion time and energy of a location. *)
Definition time_at (e : Estimates) (k : DeviceType) : Q :=
  match k with
  | MOBILE => local_time e
  | EDGE => edge_time e
  | CLOUD => cloud_time e
  end.

Definition energy_at (e : Estimates) (k : DeviceType) : Q :=
  match k with
  | MOBILE => local_energy e
  | EDGE => edge_energy e
  | CLOUD => cloud_energy e
  end.

(** Lines 215-219: the per-task weights and the two normalisers. *)
Definition adaptive_alpha (cfg : SimConfig) (app : AppType) : Q :=
  alpha cfg * (1 + delay_sens app * 0.5).

Definition adaptive_beta (cfg : SimConfig) (app : AppType) : Q :=
  beta cfg * (1 - delay_sens app * 0.3).

Definition eadc_max_time (e : Estimates) (deadline : Q) : Q :=
  py_max (py_max (py_max (local_time e) (edge_time e)) (cloud_time e))
         deadline.

Definition eadc_max_energy (e : Estimates) : Q :=
  py_max (py_max (local_energy e) (edge_energy e)) (cloud_energy e).

(** The [scores] dict of the EADC branch (lines 221-239). *)
Definition eadc_scores (cfg : SimConfig) (app : AppType) (deadline t : Q)
  (edge_servers : list EdgeServer) (best : EdgeServer) (e : Estimates)
  : ddict xQ :=
  let score :=
    calc_score (adaptive_alpha cfg app) (adaptive_beta cfg app)
               (eadc_max_time e deadline) (eadc_max_energy e) in
  let local_score :=
    score (local_time e) (local_energy e) (Qle_bool (local_time e) deadline) in
  let edge_score :=
    score (edge_time e) (edge_energy e) (Qle_bool (edge_time e) deadline) in
  let cloud_score :=
    score (cloud_time e) (cloud_energy e) (Qle_bool (cloud_time e) deadline) in
  let avg_util := avg_utilization edge_servers t in
  let edge_score :=
    if Qltb 70 avg_util then xscale edge_score (1 + (avg_util - 70) / 50)
    else edge_score in
  let edge_score :=
    if negb (can_accept_task best) then PInf else edge_score in
  [(MOBILE, local_score); (EDGE, edge_score); (CLOUD, cloud_score)].

(** The [times] dict of the fallback (lines 243-245). *)
Definition eadc_fallback_times (best : EdgeServer) (e : Estimates)
  : ddict xQ :=
  let times :=
    [(MOBILE, Fin (local_time e)); (EDGE, Fin (edge_time e));
     (CLOUD, Fin (cloud_time e))] in
  if negb (can_accept_task best) then dict_set times EDGE PInf else times.

Definition eadc_decide (cfg : SimConfig) (app : AppType) (deadline t : Q)
  (edge_servers : list EdgeServer) (best : EdgeServer) (e : Estimates)
  : option DeviceType :=
  let scores := eadc_scores cfg app deadline t edge_servers best e in
  decision <- dict_min xltb scores ;;
  sc <- dict_get scores decision ;;
  if is_inf sc then dict_min xltb (eadc_fallback_times best e)
  else Some decision.

Definition random_decide (g : Rng) : DeviceType * Rng :=
  let (r, g') := random g in
  (if Qltb r 0.33 then MOBILE else if Qltb r 0.66 then EDGE else CLOUD, g').

Definition greedy_energy_decide (e : Estimates) : option DeviceType :=
  dict_min Qltb (energies_of e).

Definition greedy_deadline_decide (e : Estimates) : option DeviceType :=
  dict_min Qltb (times_of e).

Definition edge_only_decide (best : EdgeServer) : DeviceType :=
  if can_accept_task best then EDGE else CLOUD.

(** The policy dispatch; only RANDOM takes a draw. *)
Definition decide (policy : Policy) (cfg : SimConfig) (ev : Event)
  (edge_servers : list EdgeServer) (best : EdgeServer) (e : Estimates)
  (g : Rng) : option (DeviceType * Rng) :=
  match policy with
  | RANDOM => Some (random_decide g)
  | GREEDY_ENERGY => d <- greedy_energy_decide e ;; Some (d, g)
  | GREEDY_DEADLINE => d <- greedy_deadline_decide e ;; Some (d, g)
  | EDGE_ONLY => Some (edge_only_decide best, g)
  | EADC =>
      d <- eadc_decide cfg (ev_app ev) (ev_deadline ev) (ev_t ev)
             edge_servers best e ;;
      Some (d, g)
  end.

(** ** Commit and outcome recording (run_simulation, lines 248-280) *)

Record SimState : Type := mkSimState {
  st_servers : list EdgeServer;
  st_results : Results;
  st_rng : Rng
}.

(** Which branch of the loop body an event went through. *)
Inductive Path : Type :=
| SkippedWarmUp
| RanLocal
| ReroutedToCloud
| AdmittedToEdge
| SubmitRejected
| RanCloud.

Record StepLog : Type := mkStepLog {
  decided : option DeviceType;
  path : Path
}.

Fixpoint list_set {A} (l : list A) (i : nat) (x : A) : list A :=
  match l, i with
  | [], _ => []
  | _ :: r, O => x :: r
  | y :: r, S j => y :: list_set r j x
  end.

(** [0.9 + random.random() * 0.2] *)
Definition jitter (g : Rng) : Q * Rng :=
  let (r, g') := random g in (0.9 + r * 0.2, g').

Definition incr_local (r : Results) : Results :=
  mkResults (service_times r) (energies r) (deadline_met r) (failed r)
    (S (local r)) (edge r) (cloud r) (edge_rejected r).

Definition incr_edge (r : Results) : Results :=
  mkResults (service_times r) (energies r) (deadline_met r) (failed r)
    (local r) (S (edge r)) (cloud r) (edge_rejected r).

Definition incr_cloud (r : Results) : Results :=
  mkResults (service_times r) (energies r) (deadline_met r) (failed r)
    (local r) (edge r) (S (cloud r)) (edge_rejected r).

Definition incr_edge_rejected (r : Results) : Results :=
  mkResults (service_times r) (energies r) (deadline_met r) (failed r)
    (local r) (edge r) (cloud r) (S (edge_rejected r)).

Definition incr_failed (r : Results) : Results :=
  mkResults (service_times r) (energies r) (deadline_met r) (S (failed r))
    (local r) (edge r) (cloud r) (edge_rejected r).

Definition record_completed (r : Results) (actual_time energy deadline : Q)
  : Results :=
  mkResults (service_times r ++ [actual_time]) (energies r ++ [energy])
    (deadline_met r ++ [if Qle_bool actual_time deadline then 1 else 0]%nat)
    (failed r) (local r) (edge r) (cloud r) (edge_rejected r).

(** Lines 274-280: the failure draw and the recording of the outcome. *)
Definition record_outcome (num_devices : nat) (deadline : Q)
  (actual_time energy : Q) (r : Results) (g : Rng) : Results * Rng :=
  let failure_prob :=
    0.005 + (inject_Z (Z.of_nat num_devices) / 1000) * 0.02 in
  let (x, g') := random g in
  if Qltb x failure_prob then (incr_failed r, g')
  else (record_completed r actual_time energy deadline, g').

(** Lines 248-280 for a decision already taken. *)
Definition commit (num_devices : nat) (ev : Event) (idx : nat)
  (e : Estimates) (decision : DeviceType) (st : SimState)
  : option (SimState * Path) :=
  let t := ev_t ev in
  let deadline := ev_deadline ev in
  let servers := st_servers st in
  let res := st_results st in
  let g := st_rng st in
  match decision with
  | MOBILE =>
      let (j1, g1) := jitter g in
      let actual_time := local_time e * j1 in
      let (j2, g2) := jitter g1 in
      let energy := local_energy e * j2 in
      let (res', g3) :=
        record_outcome num_devices deadline actual_time energy
          (incr_local res) g2 in
      Some (mkSimState servers res' g3, RanLocal)
  | EDGE =>
      best <- nth_error servers idx ;;
      if negb (can_accept_task best) then
        let (j1, g1) := jitter g in
        let actual_time := cloud_time e * j1 in
        let (j2, g2) := jitter g1 in
        let energy := cloud_energy e * j2 in
        let (res', g3) :=
          record_outcome num_devices deadline actual_time energy
            (incr_edge_rejected (incr_cloud res)) g2 in
        Some (mkSimState servers res' g3, ReroutedToCloud)
      else
        let '((svc_time, rejected), best') :=
          submit_task best t (edge_processing e) in
        let servers' := list_set servers idx best' in
        if rejected then
          Some (mkSimState servers' (incr_failed res) g, SubmitRejected)
        else
          svc <- svc_time ;;
          let (j1, g1) := jitter g in
          let actual_time := (wlan_delay e * 2 + svc) * j1 in
          let (j2, g2) := jitter g1 in
          let energy := edge_energy e * j2 in
          let (res', g3) :=
            record_outcome num_devices deadline actual_time energy
              (incr_edge res) g2 in
          Some (mkSimState servers' res' g3, AdmittedToEdge)
  | CLOUD =>
      let (j1, g1) := jitter g in
      let actual_time := cloud_time e * j1 in
      let (j2, g2) := jitter g1 in
      let energy := cloud_energy e * j2 in
      let (res', g3) :=
        record_outcome num_devices deadline actual_time energy
          (incr_cloud res) g2 in
      Some (mkSimState servers res' g3, RanCloud)
  end.

(** One iteration of [while events] (lines 170-280) for the popped
    event. *)
Definition process_event (policy : Policy) (num_devices : nat)
  (cfg : SimConfig) (st : SimState) (ev : Event)
  : option (SimState * StepLog) :=
  let t := ev_t ev in
  let servers := map (fun s => update s t) (st_servers st) in
  if Qltb t (warm_up_period cfg) then
    Some (mkSimState servers (st_results st) (st_rng st),
          mkStepLog None SkippedWarmUp)
  else
    '(idx, e) <- estimate_costs cfg num_devices servers ev ;;
    best <- nth_error servers idx ;;
    '(decision, g) <- decide policy cfg ev servers best e (st_rng st) ;;
    '(st', p) <- commit num_devices ev idx e decision
                   (mkSimState servers (st_results st) g) ;;
    Some (st', mkStepLog (Some decision) p).

(** The loop over the events in the order the heap pops them. *)
Fixpoint run_events (policy : Policy) (num_devices : nat) (cfg : SimConfig)
  (st : SimState) (events : list Event) : option SimState :=
  match events with
  | [] => Some st
  | ev :: rest =>
      '(st', _) <- process_event policy num_devices cfg st ev ;;
      run_events policy num_devices cfg st' rest
  end.

(** The record [run_simulation] returns. *)
Record RunResult : Type := mkRunResult {
  total_tasks : nat;
  failed_tasks : nat;
  avg_service_time : Q;
  avg_energy : Q;
  deadline_rate : Q;
  avg_edge_util : Q;
  rr_local : nat;
  rr_edge : nat;
  rr_cloud : nat;
  rr_edge_rejected : nat
}.

Definition mean_or_zero (l : list Q) : Q :=
  match l with [] => 0 | _ :: _ => np_mean l end.

Definition summarize (cfg : SimConfig) (st : SimState) : RunResult :=
  let r := st_results st in
  mkRunResult
    (length (service_times r) + failed r)
    (failed r)
    (mean_or_zero (service_times r))
    (mean_or_zero (energies r))
    (mean_or_zero (map (fun b => inject_Z (Z.of_nat b)) (deadline_met r)))
    (np_mean (map (fun s => get_utilization s (simulation_time cfg))
                  (st_servers st)))
    (local r) (edge r) (cloud r) (edge_rejected r).

Definition init_servers (cfg : SimConfig) : list EdgeServer :=
  map (fun i => EdgeServer_init i (edge_mips cfg) (max_edge_queue cfg))
      (seq 0 (num_edge_servers cfg)).

(** Fresh servers and an empty [results] dict. *)
Definition fresh_state (cfg : SimConfig) (g : Rng) : SimState :=
  mkSimState (init_servers cfg) Results_init g.

(** [run_simulation] from the event heap on: [events] is the generated
    workload in pop order and [g] the generator after it. *)
Definition run_simulation (policy : Policy) (num_devices : nat)
  (cfg : SimConfig) (events : list Event) (g : Rng) : option RunResult :=
  st <- run_events policy num_devices cfg (fresh_state cfg g) events ;;
  Some (summarize cfg st).

(** ** The class-based variant (energy_aware_simulation.py) *)

Module EnergyAware.

Record SimulationConfig : Type := mkSimulationConfig {
  simulation_time : Q;
  warm_up_period : Q;
  mobile_power_idle : Q;
  mobile_power_active : Q;
  mobile_power_transmit : Q;
  mobile_mips : Q;
  edge_mips : Q;
  cloud_mips : Q;
  wlan_bandwidth : Q;
  wan_bandwidth : Q;
  wan_propagation_delay : Q;
  num_edge_servers : nat;
  vms_per_edge_server : nat;
  alpha : Q;
  beta : Q
}.

Definition SimulationConfig_default : SimulationConfig :=
  mkSimulationConfig 1200.0 120.0 0.5 2.5 1.5 1000.0 10000.0 40000.0
                     100.0 50.0 0.1 5 2 0.5 0.5.

Record ApplicationType : Type := mkApplicationType {
  name : string;
  usage_percentage : Q;
  app_delay_sensitivity : Q;
  max_delay_requirement : Q;
  poisson_interarrival : Q;
  data_upload : Q;
  data_download : Q;
  app_task_length : Q
}.

Record Task : Type := mkTask {
  task_id : nat;
  mobile_device_id : nat;
  app_type : ApplicationType;
  creation_time : Q;
  task_length : Q;
  input_size : Q;
  output_size : Q;
  deadline : Q;
  delay_sensitivity : Q;
  offload_decision : option DeviceType;
  start_time : option Q;
  finish_time : option Q;
  service_time : option Q;
  energy_consumed : option Q;
  deadline_met : option bool;
  failed : bool
}.

Record EdgeServer : Type := mkEdgeServer {
  server_id : nat;
  current_utilization : Q;
  tasks_in_queue : nat
}.

Definition EdgeServer_init (i : nat) : EdgeServer := mkEdgeServer i 0.0 0.

(** *** OffloadingAlgorithm: the shared cost model *)

Definition calculate_local_energy (config : SimulationConfig)
  (task_length : Q) : option Q :=
  execution_time <- py_div task_length (mobile_mips config) ;;
  Some (mobile_power_active config * execution_time).

Definition calculate_offload_energy (config : SimulationConfig)
  (data_size task_length : Q) (is_cloud : bool) : option Q :=
  let bandwidth :=
    if is_cloud then wan_bandwidth config else wlan_bandwidth config in
  transmission_time <- py_div (data_size * 8) (bandwidth * 1000) ;;
  let processing_mips :=
    if is_cloud then cloud_mips config else edge_mips config in
  idle_time <- py_div task_length processing_mips ;;
  Some (mobile_power_transmit config * transmission_time
        + mobile_power_idle config * idle_time).

Definition estimate_local_time (config : SimulationConfig) (task : Task)
  : option Q :=
  py_div (task_length task) (mobile_mips config).

(** [np.mean] of the utilizations; the mean of no server is NaN, for
    which the model has no value. *)
Definition mean_utilization (edge_servers : list EdgeServer) : option Q :=
  match edge_servers with
  | [] => None
  | _ :: _ => Some (np_mean (map current_utilization edge_servers))
  end.

Definition estimate_edge_time (config : SimulationConfig) (task : Task)
  (edge_servers : list EdgeServer) : option Q :=
  let data_size := input_size task + output_size task in
  transmission_delay <-
    py_div (data_size * 8) (wlan_bandwidth config * 1000) ;;
  processing_time <- py_div (task_length task) (edge_mips config) ;;
  avg_utilization <- mean_utilization edge_servers ;;
  let queuing_delay := (avg_utilization / 100) * processing_time * 0.5 in
  Some (transmission_delay + processing_time + queuing_delay).

Definition estimate_cloud_time (config : SimulationConfig) (task : Task)
  : option Q :=
  let data_size := input_size task + output_size task in
  d <- py_div (data_size * 8) (wan_bandwidth config * 1000) ;;
  let transmission_delay := d + wan_propagation_delay config * 2 in
  processing_time <- py_div (task_length task) (cloud_mips config) ;;
  Some (transmission_delay + processing_time).

(** *** The five algorithms *)

Definition RandomAlgorithm_decide (g : Rng) : DeviceType * Rng :=
  let (r, g') := random g in
  (if Qltb r 0.33 then MOBILE else if Qltb r 0.66 then EDGE else CLOUD, g').

Definition GreedyEnergyAlgorithm_decide (config : SimulationConfig)
  (task : Task) : option DeviceType :=
  let data_size := input_size task + output_size task in
  local_energy <- calculate_local_energy config (task_length task) ;;
  edge_energy <-
    calculate_offload_energy config data_size (task_length task) false ;;
  cloud_energy <-
    calculate_offload_energy config (data_size * 1.5) (task_length task)
      true ;;
  dict_min Qltb
    [(MOBILE, local_energy); (EDGE, edge_energy); (CLOUD, cloud_energy)].

(** The selection of [GreedyDeadlineAlgorithm.decide] on its three
    estimates: the dict comprehension keeps the insertion order. *)
Definition greedy_deadline_select (times : ddict Q) (deadline : Q)
  : option DeviceType :=
  let deadline_options :=
    filter (fun kv => Qle_bool (snd kv) deadline) times in
  match deadline_options with
  | _ :: _ => dict_min Qltb deadline_options
  | [] => dict_min Qltb times
  end.

Definition GreedyDeadlineAlgorithm_decide (config : SimulationConfig)
  (task : Task) (edge_servers : list EdgeServer) : option DeviceType :=
  local_time <- estimate_local_time config task ;;
  edge_time <- estimate_edge_time config task edge_servers ;;
  cloud_time <- estimate_cloud_time config task ;;
  greedy_deadline_select
    [(MOBILE, local_time); (EDGE, edge_time); (CLOUD, cloud_time)]
    (deadline task).

Definition EdgeOnlyAlgorithm_decide (edge_servers : list EdgeServer)
  : option DeviceType :=
  avg_utilization <- mean_utilization edge_servers ;;
  Some (if Qltb 95 avg_utilization then CLOUD else EDGE).

(** The closure [calculate_score] of [EADCAlgorithm.decide]. *)
Definition calculate_score (config : SimulationConfig)
  (adaptive_alpha adaptive_beta deadline : Q)
  (time energy : Q) (meets_deadline : bool) : option xQ :=
  if negb meets_deadline then Some PInf
  else
    normalized_time <- py_div time deadline ;;
    let max_energy := mobile_power_active config * 10 in
    normalized_energy <- py_div energy max_energy ;;
    Some (Fin (adaptive_alpha * normalized_time
               + adaptive_beta * normalized_energy)).

(** The six estimates of [EADCAlgorithm.decide] (lines 273-283). *)
Record Costs : Type := mkCosts {
  c_local_time : Q;
  c_edge_time : Q;
  c_cloud_time : Q;
  c_local_energy : Q;
  c_edge_energy : Q;
  c_cloud_energy : Q
}.

Definition c_time_at (c : Costs) (k : DeviceType) : Q :=
  match k with
  | MOBILE => c_local_time c
  | EDGE => c_edge_time c
  | CLOUD => c_cloud_time c
  end.

Definition c_energy_at (c : Costs) (k : DeviceType) : Q :=
  match k with
  | MOBILE => c_local_energy c
  | EDGE => c_edge_energy c
  | CLOUD => c_cloud_energy c
  end.

Definition EADC_costs (config : SimulationConfig) (task : Task)
  (edge_servers : list EdgeServer) : option Costs :=
  let data_size := input_size task + output_size task in
  local_time <- estimate_local_time config task ;;
  edge_time <- estimate_edge_time config task edge_servers ;;
  cloud_time <- estimate_cloud_time config task ;;
  local_energy <- calculate_local_energy config (task_length task) ;;
  edge_energy <-
    calculate_offload_energy config data_size (task_length task) false ;;
  cloud_energy <-
    calculate_offload_energy config (data_size * 1.5) (task_length task)
      true ;;
  Some (mkCosts local_time edge_time cloud_time
          local_energy edge_energy cloud_energy).

(** The [scores] dict of [EADCAlgorithm.decide] (lines 285-317). *)
Definition EADC_scores (config : SimulationConfig) (task : Task)
  (edge_servers : list EdgeServer) (c : Costs) : option (ddict xQ) :=
  let deadline := deadline task in
  let local_meets_deadline := Qle_bool (c_local_time c) deadline in
  let edge_meets_deadline := Qle_bool (c_edge_time c) deadline in
  let cloud_meets_deadline := Qle_bool (c_cloud_time c) deadline in
  let adaptive_alpha := alpha config * (1 + delay_sensitivity task) in
  let adaptive_beta := beta config * (1 - delay_sensitivity task) in
  let score := calculate_score config adaptive_alpha adaptive_beta deadline in
  local_score <-
    score (c_local_time c) (c_local_energy c) local_meets_deadline ;;
  edge_score <-
    score (c_edge_time c) (c_edge_energy c) edge_meets_deadline ;;
  cloud_score <-
    score (c_cloud_time c) (c_cloud_energy c) cloud_meets_deadline ;;
  avg_utilization <- mean_utilization edge_servers ;;
  let edge_score :=
    if Qltb 85 avg_utilization
    then xscale edge_score (1 + (avg_utilization - 85) / 100)
    else edge_score in
  Some [(MOBILE, local_score); (EDGE, edge_score); (CLOUD, cloud_score)].

Definition EADCAlgorithm_decide (config : SimulationConfig) (task : Task)
  (edge_servers : list EdgeServer) : option DeviceType :=
  c <- EADC_costs config task edge_servers ;;
  scores <- EADC_scores config task edge_servers c ;;
  best_option <- dict_min xltb scores ;;
  sc <- dict_get scores best_option ;;
  if is_inf sc then
    dict_min Qltb
      [(MOBILE, c_local_time c); (EDGE, c_edge_time c);
       (CLOUD, c_cloud_time c)]
  else Some best_option.

(** The divisors met by [EADCAlgorithm.decide] are all non-zero. *)
Definition valid_inputs (config : SimulationConfig) (task : Task) : bool :=
  negb (Qeq_bool (mobile_mips config) 0)
  && negb (Qeq_bool (wlan_bandwidth config * 1000) 0)
  && negb (Qeq_bool (edge_mips config) 0)
  && negb (Qeq_bool (wan_bandwidth config * 1000) 0)
  && negb (Qeq_bool (cloud_mips config) 0)
  && negb (Qeq_bool (mobile_power_active config * 10) 0)
  && negb (Qeq_bool (deadline task) 0).

(** The score [calculate_score] gives a location, read off the code: the
    variant weighs with [1 + s] and [1 - s], normalises time by the
    deadline and energy by ten times the active power. *)
Definition variant_score (config : SimulationConfig) (task : Task)
  (c : Costs) (k : DeviceType) : xQ :=
  if Qle_bool (c_time_at c k) (deadline task) then
    Fin (alpha config * (1 + delay_sensitivity task)
           * (c_time_at c k / deadline task)
         + beta config * (1 - delay_sensitivity task)
           * (c_energy_at c k / (mobile_power_active config * 10)))
  else PInf.

Definition algorithm_decide (policy : Policy) (config : SimulationConfig)
  (task : Task) (edge_servers : list EdgeServer) (g : Rng)
  : option (DeviceType * Rng) :=
  match policy with
  | RANDOM => Some (RandomAlgorithm_decide g)
  | GREEDY_ENERGY =>
      d <- GreedyEnergyAlgorithm_decide config task ;; Some (d, g)
  | GREEDY_DEADLINE =>
      d <- GreedyDeadlineAlgorithm_decide config task edge_servers ;;
      Some (d, g)
  | EDGE_ONLY => d <- EdgeOnlyAlgorithm_decide edge_servers ;; Some (d, g)
  | EADC => d <- EADCAlgorithm_decide config task edge_servers ;; Some (d, g)
  end.

(** *** EnergyAwareSimulator *)

(** [random.randint(a, b)]: ValueError on an empty range; otherwise the
    next draw [r] of the generator picks [a + floor(r * (b - a + 1))]. *)
Definition randint (g : Rng) (a b : Z) : option (Z * Rng) :=
  if (b <? a)%Z then None
  else
    let (r, g') := random g in
    Some ((a + Qfloor (r * inject_Z (b - a + 1)))%Z, g').

Definition set_utilization (s : EdgeServer) (u : Q) : EdgeServer :=
  mkEdgeServer (server_id s) u (tasks_in_queue s).

(** [execute_task]: annotates the task and, for an edge execution, raises
    the utilization of one server drawn at random. *)
Definition execute_task (config : SimulationConfig) (task : Task)
  (decision : DeviceType) (edge_servers : list EdgeServer) (g : Rng)
  : option (Task * list EdgeServer * Rng) :=
  let data_size := input_size task + output_size task in
  '(service_time, energy, edge_servers, g) <-
    match decision with
    | MOBILE =>
        service_time <- estimate_local_time config task ;;
        energy <- calculate_local_energy config (task_length task) ;;
        Some (service_time, energy, edge_servers, g)
    | EDGE =>
        service_time <- estimate_edge_time config task edge_servers ;;
        energy <-
          calculate_offload_energy config data_size (task_length task)
            false ;;
        '(server_idx, g1) <-
          randint g 0 (Z.of_nat (length edge_servers) - 1) ;;
        s <- nth_error edge_servers (Z.to_nat server_idx) ;;
        let (r, g2) := random g1 in
        let s' :=
          set_utilization s (py_min 100 (current_utilization s + r * 5)) in
        Some (service_time, energy,
              list_set edge_servers (Z.to_nat server_idx) s', g2)
    | CLOUD =>
        service_time <- estimate_cloud_time config task ;;
        energy <-
          calculate_offload_energy config (data_size * 1.5)
            (task_length task) true ;;
        Some (service_time, energy, edge_servers, g)
    end ;;
  let (j1, g1) := jitter g in
  let service_time := service_time * j1 in
  let (j2, g2) := jitter g1 in
  let energy := energy * j2 in
  avg_util <- mean_utilization edge_servers ;;
  let failure_prob := 0.01 + (avg_util / 100) * 0.05 in
  let (x, g3) := random g2 in
  Some (mkTask (task_id task) (mobile_device_id task) (app_type task)
          (creation_time task) (task_length task) (input_size task)
          (output_size task) (deadline task) (delay_sensitivity task)
          (Some decision) (Some (creation_time task))
          (Some (creation_time task + service_time))
          (Some service_time) (Some energy)
          (Some (Qle_bool service_time (deadline task)))
          (if Qltb x failure_prob then true else failed task),
        edge_servers, g3).

(** The decay loop at the end of the body: one draw per server. *)
Fixpoint decay_utilization (edge_servers : list EdgeServer) (g : Rng)
  : list EdgeServer * Rng :=
  match edge_servers with
  | [] => ([], g)
  | s :: rest =>
      let (r, g1) := random g in
      let s' := set_utilization s (py_max 0 (current_utilization s - r * 2)) in
      let (rest', g2) := decay_utilization rest g1 in
      (s' :: rest', g2)
  end.

(** The body of [for task in tasks] (lines 452-465). *)
Definition process_task (policy : Policy) (config : SimulationConfig)
  (task : Task) (edge_servers : list EdgeServer) (g : Rng)
  : option (Task * list EdgeServer * Rng) :=
  if Qltb (creation_time task) (warm_up_period config) then
    Some (task, edge_servers, g)
  else
    '(decision, g1) <- algorithm_decide policy config task edge_servers g ;;
    '(task', servers1, g2) <-
      execute_task config task decision edge_servers g1 ;;
    let (servers2, g3) := decay_utilization servers1 g2 in
    Some (task', servers2, g3).

Fixpoint process_tasks (policy : Policy) (config : SimulationConfig)
  (tasks : list Task) (edge_servers : list EdgeServer) (g : Rng)
  : option (list Task * list EdgeServer * Rng) :=
  match tasks with
  | [] => Some ([], edge_servers, g)
  | task :: rest =>
      '(task', servers1, g1) <-
        process_task policy config task edge_servers g ;;
      '(rest', servers2, g2) <-
        process_tasks policy config rest servers1 g1 ;;
      Some (task' :: rest', servers2, g2)
  end.

(** The tasks the statistics are computed from (line 468). *)
Definition valid_tasks (config : SimulationConfig) (tasks : list Task)
  : list Task :=
  filter (fun t => negb (Qltb (creation_time t) (warm_up_period config))
                   && match offload_decision t with
                      | Some _ => true
                      | None => false
                      end) tasks.

End EnergyAware.

(** ** The adaptive scoring rule in the words of the specification *)

(** [score = alpha' (time / time_norm) + beta' (energy / energy_norm)] with
    [alpha' = alpha_base (1 + 0.5 s)], [beta' = beta_base (1 - 0.3 s)],
    [time_norm] the maximum of the three times and the deadline,
    [energy_norm] the maximum of the three energies; infinite when the
    time exceeds the deadline. *)
Definition spec_score (alpha_base beta_base s deadline : Q)
  (time energy : DeviceType -> Q) (k : DeviceType) : xQ :=
  let alpha' := alpha_base * (1 + 0.5 * s) in
  let beta' := beta_base * (1 - 0.3 * s) in
  let time_norm :=
    Qmax (Qmax (Qmax (time MOBILE) (time EDGE)) (time CLOUD)) deadline in
  let energy_norm :=
    Qmax (Qmax (energy MOBILE) (energy EDGE)) (energy CLOUD) in
  if Qle_bool (time k) deadline then
    Fin (alpha' * (time k / time_norm) + beta' * (energy k / energy_norm))
  else PInf.

(** The Edge score: inflated by [1 + (utilization - 70) / 50] above 70%
    utilization, infinite when the best server cannot accept the task. *)
Definition spec_edge_score (base : xQ) (utilization : Q) (accepts : bool)
  : xQ :=
  if accepts then
    if Qltb 70 utilization then xscale base (1 + (utilization - 70) / 50)
    else base
  else PInf.

(** Equality of scores up to the representation of the rational. *)
Definition xeq (x y : xQ) : Prop :=
  match x, y with
  | Fin a, Fin b => a == b
  | PInf, PInf => True
  | _, _ => False
  end.

(** ** Concrete scenarios *)

(** One edge server of capacity 1000 instructions per second and queue
    depth 1. *)
Definition scenario_server : EdgeServer := EdgeServer_init 0 1000 1.

(** Processing time of a 2000-instruction task on it. *)
Definition scenario_pt : Q := 2000 / mips scenario_server.

(** The server once that task has been submitted at t = 0. *)
Definition scenario_busy : EdgeServer :=
  snd (submit_task scenario_server 0 scenario_pt).

(** A server of depth 3 holding one 2-second task, and the outcome of
    submitting a 1-second task to it at t = 0. *)
Definition scenario_two_queued : EdgeServer :=
  Eval vm_compute in
    snd (submit_task (run_ops (EdgeServer_init 0 1000 3) [OpSubmit 0 2]) 0 1).

Definition scenario_second_total : Q :=
  Eval vm_compute in
    match fst (fst (submit_task
                      (run_ops (EdgeServer_init 0 1000 3) [OpSubmit 0 2])
                      0 1)) with
    | Some total => total
    | None => 0
    end.

(** A post-warm-up event of the first application class, the estimates
    the cost model gives it on fresh servers, and a constant stream of
    draws. *)
Definition app_realtime_ar : AppType :=
  mkAppType "REALTIME_AR" 35 0.95 0.08 1.5 80 150 600.

Definition scenario_event : Event :=
  mkEvent 40 0 app_realtime_ar 600 230 0.5.

Definition scenario_rng : Rng := mkRng (fun _ => 0.2) 0.

Definition scenario_estimates : Estimates :=
  Eval vm_compute in
    match estimate_costs SimConfig_default 100
            (init_servers SimConfig_default) scenario_event with
    | Some (_, e) => e
    | None => mkEstimates 0 0 0 0 0 0 0 0 0 0 0
    end.

(** A task of the class-based variant with delay sensitivity 0.9, two
    idle servers, and the estimates and scores [EADCAlgorithm.decide]
    computes for them. *)
Definition scenario_task : EnergyAware.Task :=
  EnergyAware.mkTask 0 0
    (EnergyAware.mkApplicationType "REALTIME_AR" 30 0.9 0.1 2 50 100 500)
    130 50 5 10 0.1 0.9 None None None None None None false.

Definition scenario_variant_servers : list EnergyAware.EdgeServer :=
  [EnergyAware.EdgeServer_init 0; EnergyAware.EdgeServer_init 1].

Definition scenario_costs : EnergyAware.Costs :=
  Eval vm_compute in
    match EnergyAware.EADC_costs EnergyAware.SimulationConfig_default
            scenario_task scenario_variant_servers with
    | Some c => c
    | None => EnergyAware.mkCosts 0 0 0 0 0 0
    end.

Definition scenario_variant_scores : ddict xQ :=
  Eval vm_compute in
    match EnergyAware.EADC_scores EnergyAware.SimulationConfig_default
            scenario_task scenario_variant_servers scenario_costs with
    | Some s => s
    | None => []
    end.

(** The default configuration with a single edge server of queue
    depth 1. *)
Definition single_server_config : SimConfig :=
  mkSimConfig 300.0 30.0 0.3 1.8 1.2 500.0 8000.0 20000.0 50.0 20.0 0.08
              1 1 0.6 0.4.

(** Two devices issue a task each at t = 40: a short one with a loose
    deadline, then a longer one with a 50 ms deadline. *)
Definition race_first : Event := mkEvent 40 0 app_realtime_ar 1 1 1.0.
Definition race_second : Event := mkEvent 40 1 app_realtime_ar 10 1 0.05.
Definition race_events : list Event := [race_first; race_second].

(** Draws for the GreedyDeadline run: every draw is 0.5, so the jitter
    factor is 1 and no task fails. *)
Definition greedy_rng : Rng := mkRng (fun _ => 0.5) 0.

(** Draws for the Random run: the same, except that the decision draw of
    the second task is 0.2. *)
Definition random_rng : Rng :=
  mkRng (fun i => if Nat.eqb i 4 then 0.2 else 0.5) 0.

(** A configuration with another warm-up period. *)
Definition with_warm_up (cfg : SimConfig) (w : Q) : SimConfig :=
  mkSimConfig (simulation_time cfg) w (mobile_power_idle cfg)
    (mobile_power_active cfg) (mobile_power_transmit cfg) (mobile_mips cfg)
    (edge_mips cfg) (cloud_mips cfg) (wlan_bandwidth cfg) (wan_bandwidth cfg)
    (wan_propagation_delay cfg) (num_edge_servers cfg) (max_edge_queue cfg)
    (alpha cfg) (beta cfg).

(** An event that arrives at t = 10, inside the default warm-up period
    of 30 seconds. *)
Definition warm_up_event : Event := mkEvent 10 0 app_realtime_ar 600 230 0.5.

(** One task seen by both scripts under the same parameters: the
    defaults of [SimulationConfig] written as a [SimConfig] (with the
    default queue depth), and a task of 100 MI that moves 750 KB and has
    a deadline of 1 s, arriving at t = 130 after either warm-up. *)
Definition shared_config : SimConfig :=
  mkSimConfig 1200.0 120.0 0.5 2.5 1.5 1000.0 10000.0 40000.0 100.0 50.0 0.1
              5 15 0.5 0.5.

Definition shared_event : Event := mkEvent 130 0 app_realtime_ar 100 750 1.

Definition shared_task : EnergyAware.Task :=
  EnergyAware.mkTask 0 0
    (EnergyAware.mkApplicationType "REALTIME_AR" 30 0.9 0.1 2 50 100 500)
    130 100 500 250 1 0.9 None None None None None None false.

Definition shared_variant_servers : list EnergyAware.EdgeServer :=
  map EnergyAware.EdgeServer_init
      (seq 0 (EnergyAware.num_edge_servers
                EnergyAware.SimulationConfig_default)).

(** ** Vocabulary of the further properties *)

(** The location an event was finally run at, read off the branch of the
    loop body it went through. *)
Definition path_location (p : Path) : option DeviceType :=
  match p with
  | RanLocal => Some MOBILE
  | AdmittedToEdge => Some EDGE
  | ReroutedToCloud | RanCloud => Some CLOUD
  | SkippedWarmUp | SubmitRejected => None
  end.

(** The counters a branch of the loop body increments before the failure
    draw. *)
Definition bump_counters (p : Path) (r : Results) : Results :=
  match p with
  | RanLocal => incr_local r
  | AdmittedToEdge => incr_edge r
  | ReroutedToCloud => incr_edge_rejected (incr_cloud r)
  | RanCloud => incr_cloud r
  | SkippedWarmUp | SubmitRejected => r
  end.

(** The events of a workload that arrive at or after the warm-up
    period. *)
Definition post_warm_up (cfg : SimConfig) (events : list Event)
  : list Event :=
  filter (fun ev => negb (Qltb (ev_t ev) (warm_up_period cfg))) events.

(** Every draw of the generator lies in [0, 1), as [random.random()]
    promises. *)
Definition unit_draws (g : Rng) : Prop :=
  forall i, 0 <= draws g i /\ draws g i < 1.

(** The [results] dict is consistent: the three outcome lists run in
    step, every task counted at a location is either recorded or failed,
    every edge rejection was run in the cloud, and the deadline flags
    are 0 or 1. *)
Definition results_consistent (r : Results) : Prop :=
  length (service_times r) = length (energies r)
  /\ length (service_times r) = length (deadline_met r)
  /\ (length (service_times r) + failed r = local r + edge r + cloud r)%nat
  /\ (edge_rejected r <= cloud r)%nat
  /\ Forall (fun b => (b <= 1)%nat) (deadline_met r).

(** ** Workload generation (run_simulation, lines 147-165) *)

(** The walk over the cumulative shares: the first entry whose cumulative
    share reaches [r]; none when the loop runs off the table. *)
Fixpoint pick_by_share {A} (share : A -> Q) (table : list A) (cum r : Q)
  : option A :=
  match table with
  | [] => None
  | a :: rest =>
      let cum := cum + share a in
      if Qle_bool r cum then Some a else pick_by_share share rest cum r
  end.

(** [device_apps]: one draw per device; a device the walk leaves without
    an application gets no entry. *)
Fixpoint assign_devices (apps : list AppType) (devices : list nat) (g : Rng)
  : list (nat * AppType) * Rng :=
  match devices with
  | [] => ([], g)
  | d :: rest =>
      let (x, g1) := random g in
      let r := x * 100 in
      let (m, g2) := assign_devices apps rest g1 in
      (match pick_by_share usage_pct apps 0 r with
       | Some app => (d, app) :: m
       | None => m
       end, g2)
  end.

Definition device_apps (num_devices : nat) (g : Rng)
  : list (nat * AppType) * Rng :=
  assign_devices APPS (seq 0 num_devices) g.

Section Arrivals.

(** [np.log], left uninterpreted: what follows does not depend on its
    values. *)
Variable np_log : Q -> Q.

(** The [while t < cfg.simulation_time] loop of one device, in push
    order.  [fuel] bounds the number of iterations; [None] means it ran
    out. *)
Fixpoint device_events (fuel : nat) (cfg : SimConfig) (d : nat)
  (app : AppType) (t : Q) (g : Rng) : option (list Event * Rng) :=
  if Qltb t (simulation_time cfg) then
    match fuel with
    | O => None
    | S fuel' =>
        let (r1, g1) := random g in
        let task_len := task_mi app * (0.7 + r1 * 0.6) in
        let (r2, g2) := random g1 in
        let data_size := (upload_kb app + download_kb app) * (0.7 + r2 * 0.6) in
        let (r3, g3) := random g2 in
        let deadline := max_delay app * (0.8 + r3 * 0.4) in
        let (r4, g4) := random g3 in
        let t' :=
          t + py_max 0.05 (- interarrival app * np_log (1 - r4 + 0.001)) in
        '(rest, g') <- device_events fuel' cfg d app t' g4 ;;
        Some (mkEvent t d app task_len data_size deadline :: rest, g')
    end
  else Some ([], g).

(** The loop over [device_apps.items()]: all pushed events, in push
    order. *)
Fixpoint generate_events (fuel : nat) (cfg : SimConfig)
  (apps_of : list (nat * AppType)) (g : Rng) : option (list Event * Rng) :=
  match apps_of with
  | [] => Some ([], g)
  | (d, app) :: rest =>
      let (r0, g0) := random g in
      '(evs, g1) <- device_events fuel cfg d app (r0 * interarrival app) g0 ;;
      '(more, g2) <- generate_events fuel cfg rest g1 ;;
      Some (evs ++ more, g2)
  end.

End Arrivals.

(** A number of iterations that is enough for the arrival loop of the
    model from time [t]: each one advances the time by at least 0.05. *)
Definition arrival_steps (cfg : SimConfig) (t : Q) : nat :=
  Z.to_nat (Qceiling ((simulation_time cfg - t) * 20)).

(** The application table of energy_aware_simulation.py and the device
    assignment of [generate_tasks] (lines 353-361), which walks it in
    the same way. *)
Definition APPLICATION_TYPES : list EnergyAware.ApplicationType :=
  [ EnergyAware.mkApplicationType "REALTIME_AR" 30 0.9 0.1 2 50 100 500;
    EnergyAware.mkApplicationType "INTERACTIVE_GAMING" 25 0.7 0.3 3 30 80 800;
    EnergyAware.mkApplicationType "IMAGE_PROCESSING" 25 0.4 1.0 5 200 50 2000;
    EnergyAware.mkApplicationType "DATA_SYNC" 20 0.2 3.0 10 500 100 500 ].


(** Cumulative share of the first [n] entries of a table. *)
Definition share_upto {A} (share : A -> Q) (table : list A) (n : nat) : Q :=
  py_sum (map share (firstn n table)).

(** The jitter bands of a generated event around the nominal values of
    its application. *)
Definition within_bands (ev : Event) : Prop :=
  let app := ev_app ev in
  (task_mi app * 0.7 <= ev_task_len ev /\ ev_task_len ev <= task_mi app * 1.3)
  /\ ((upload_kb app + download_kb app) * 0.7 <= ev_data_size ev
      /\ ev_data_size ev <= (upload_kb app + download_kb app) * 1.3)
  /\ (max_delay app * 0.8 <= ev_deadline ev
      /\ ev_deadline ev <= max_delay app * 1.2).

(** The nominal values of an application are not negative. *)
Definition nominal_nonneg (app : AppType) : Prop :=
  0 <= task_mi app /\ 0 <= upload_kb app + download_kb app
  /\ 0 <= max_delay app /\ 0 <= interarrival app.

(** Lines 147-165 together: the assignment, then the events of every
    assigned device, in push order. *)
Definition generate_workload (np_log : Q -> Q) (fuel : nat)
  (cfg : SimConfig) (num_devices : nat) (g : Rng)
  : option (list Event * Rng) :=
  let (apps_of, g1) := device_apps num_devices g in
  generate_events np_log fuel cfg apps_of g1.

(** The default configuration with a horizon of one second and no
    warm-up. *)
Definition short_run_config : SimConfig :=
  mkSimConfig 1.0 0.0 0.3 1.8 1.2 500.0 8000.0 20000.0 50.0 20.0 0.08
              5 15 0.6 0.4.

(** ** Results of a run (energy_aware_simulation.py, lines 441-506) *)

Module EnergyAwareRun.

Import EnergyAware.

Record SimulationResults : Type := mkSimulationResults {
  policy : Policy;
  num_devices : nat;
  iteration : nat;
  total_tasks : nat;
  completed_tasks : nat;
  failed_tasks : nat;
  avg_service_time : Q;
  avg_energy_consumption : Q;
  deadline_satisfaction_rate : Q;
  avg_edge_utilization : Q;
  local_executions : nat;
  edge_executions : nat;
  cloud_executions : nat;
  app_type_metrics : list (string * (nat * Q * Q * Q))
}.

(** A list of optional floats as a list of floats; a [None] among them
    makes [np.mean] raise. *)
Fixpoint all_some {A} (l : list (option A)) : option (list A) :=
  match l with
  | [] => Some []
  | None :: _ => None
  | Some x :: rest => r <- all_some rest ;; Some (x :: r)
  end.

(** [1 if t.deadline_met else 0]: an unset flag counts as 0. *)
Definition met_flag (t : Task) : Q :=
  match deadline_met t with Some true => 1 | _ => 0 end.

Definition decided_at (k : DeviceType) (t : Task) : bool :=
  match offload_decision t with
  | Some d => DeviceType_eqb d k
  | None => false
  end.

(** The per-application breakdown (lines 496-504): one entry per
    application of the table that has a completed task. *)
Fixpoint app_metrics (apps : list ApplicationType) (completed : list Task)
  : option (list (string * (nat * Q * Q * Q))) :=
  match apps with
  | [] => Some []
  | app :: rest =>
      let app_tasks :=
        filter (fun t => String.eqb (name (app_type t)) (name app))
               completed in
      more <- app_metrics rest completed ;;
      match app_tasks with
      | [] => Some more
      | _ :: _ =>
          times <- all_some (map service_time app_tasks) ;;
          energies <- all_some (map energy_consumed app_tasks) ;;
          Some ((name app,
                 (length app_tasks, np_mean times, np_mean energies,
                  np_mean (map met_flag app_tasks))) :: more)
      end
  end.

(** Lines 467-506: the results computed from the processed tasks and the
    servers. *)
Definition compute_results (config : SimulationConfig) (p : Policy)
  (nd iter : nat) (tasks : list Task) (edge_servers : list EdgeServer)
  : option SimulationResults :=
  let valid := valid_tasks config tasks in
  match valid with
  | [] => Some (mkSimulationResults p nd iter 0 0 0 0.0 0.0 0.0 0.0 0 0 0 [])
  | _ :: _ =>
      let completed := filter (fun t => negb (failed t)) valid in
      let failed_list := filter (fun t => failed t) valid in
      '(st, en, rate) <-
        match completed with
        | [] => Some (0.0, 0.0, 0.0)
        | _ :: _ =>
            times <- all_some (map service_time completed) ;;
            energies <- all_some (map energy_consumed completed) ;;
            Some (np_mean times, np_mean energies,
                  np_mean (map met_flag completed))
        end ;;
      util <- mean_utilization edge_servers ;;
      metrics <- app_metrics APPLICATION_TYPES completed ;;
      Some (mkSimulationResults p nd iter
              (length valid) (length completed) (length failed_list)
              st en rate util
              (length (filter (decided_at MOBILE) valid))
              (length (filter (decided_at EDGE) valid))
              (length (filter (decided_at CLOUD) valid))
              metrics)
  end.

(** [EnergyAwareSimulator.run_simulation] for a task list already
    generated. *)
Definition run_simulation (config : SimulationConfig) (p : Policy)
  (nd iter : nat) (tasks : list Task) (g : Rng)
  : option SimulationResults :=
  let edge_servers := map EdgeServer_init (seq 0 (num_edge_servers config)) in
  '(tasks', servers', _) <- process_tasks p config tasks edge_servers g ;;
  compute_results config p nd iter tasks' servers'.

End EnergyAwareRun.

(** The utilization of a server of the class-based variant is a
    percentage. *)
Definition util_in_range (s : EnergyAware.EdgeServer) : Prop :=
  0 <= EnergyAware.current_utilization s
  /\ EnergyAware.current_utilization s <= 100.

(** What [execute_task] leaves on a task it has run. *)
Definition annotated (t t' : EnergyAware.Task) : Prop :=
  exists d x en,
    EnergyAware.offload_decision t' = Some d
    /\ EnergyAware.start_time t' = Some (EnergyAware.creation_time t)
    /\ EnergyAware.service_time t' = Some x
    /\ EnergyAware.finish_time t' = Some (EnergyAware.creation_time t + x)
    /\ EnergyAware.energy_consumed t' = Some en
    /\ EnergyAware.deadline_met t'
       = Some (Qle_bool x (EnergyAware.deadline t)).

(** The fields of a task the simulator never writes. *)
Definition same_task (t t' : EnergyAware.Task) : Prop :=
  EnergyAware.task_id t' = EnergyAware.task_id t
  /\ EnergyAware.mobile_device_id t' = EnergyAware.mobile_device_id t
  /\ EnergyAware.app_type t' = EnergyAware.app_type t
  /\ EnergyAware.creation_time t' = EnergyAware.creation_time t
  /\ EnergyAware.task_length t' = EnergyAware.task_length t
  /\ EnergyAware.input_size t' = EnergyAware.input_size t
  /\ EnergyAware.output_size t' = EnergyAware.output_size t
  /\ EnergyAware.deadline t' = EnergyAware.deadline t
  /\ EnergyAware.delay_sensitivity t' = EnergyAware.delay_sensitivity t.

(** A task of the class-based variant arrives at or after the warm-up
    period. *)
Definition post_warm_up_task (config : EnergyAware.SimulationConfig)
  (t : EnergyAware.Task) : bool :=
  negb (Qltb (EnergyAware.creation_time t)
             (EnergyAware.warm_up_period config)).

(** A task carries a decision, a service time and an energy. *)
Definition has_outcome (t : EnergyAware.Task) : Prop :=
  EnergyAware.offload_decision t <> None
  /\ EnergyAware.service_time t <> None
  /\ EnergyAware.energy_consumed t <> None.

(** ** Averaging over iterations *)

(** [int(x)] of a float: truncation toward zero. *)
Definition py_int (x : Q) : Z := Z.quot (Qnum x) (Zpos (Qden x)).

(** [np.mean([f(r) for r in l])] for an integer-valued [f]. *)
Definition count_mean {A} (f : A -> nat) (l : list A) : Q :=
  np_mean (map (fun r => inject_Z (Z.of_nat (f r))) l).

(** The [avg] dict [run_all] builds from the runs of one policy and
    device count (quick_simulation.py, lines 312-323). *)
Module RunAll.

Record Averages : Type := mkAverages {
  policy : Policy;
  num_devices : nat;
  avg_service_time : Q;
  avg_energy : Q;
  deadline_rate : Q;
  failed_ratio : Q;
  avg_edge_util : Q;
  local : Z;
  edge : Z;
  cloud : Z
}.

End RunAll.

Definition run_all_average (pol : Policy) (nd : nat)
  (pol_results : list RunResult) : RunAll.Averages :=
  RunAll.mkAverages pol nd
    (np_mean (map avg_service_time pol_results))
    (np_mean (map avg_energy pol_results))
    (np_mean (map deadline_rate pol_results))
    (np_mean (map (fun r => inject_Z (Z.of_nat (failed_tasks r))
                            / inject_Z (Z.of_nat (Nat.max 1 (total_tasks r))))
                  pol_results))
    (np_mean (map avg_edge_util pol_results))
    (py_int (count_mean rr_local pol_results))
    (py_int (count_mean rr_edge pol_results))
    (py_int (count_mean rr_cloud pol_results)).

(** The [avg_result] that [run_full_simulation] builds from the runs of
    one policy and device count (energy_aware_simulation.py, lines
    542-557): [iteration] is 0 and [app_type_metrics] stays empty.  The
    counts are natural numbers, so the truncated means are read back as
    such. *)
Definition run_full_simulation_average (pol : Policy) (nd : nat)
  (policy_results : list EnergyAwareRun.SimulationResults)
  : EnergyAwareRun.SimulationResults :=
  let int_mean f := Z.to_nat (py_int (count_mean f policy_results)) in
  EnergyAwareRun.mkSimulationResults pol nd 0
    (int_mean EnergyAwareRun.total_tasks)
    (int_mean EnergyAwareRun.completed_tasks)
    (int_mean EnergyAwareRun.failed_tasks)
    (np_mean (map EnergyAwareRun.avg_service_time policy_results))
    (np_mean (map EnergyAwareRun.avg_energy_consumption policy_results))
    (np_mean (map EnergyAwareRun.deadline_satisfaction_rate policy_results))
    (np_mean (map EnergyAwareRun.avg_edge_utilization policy_results))
    (int_mean EnergyAwareRun.local_executions)
    (int_mean EnergyAwareRun.edge_executions)
    (int_mean EnergyAwareRun.cloud_executions)
    [].

(** * Properties *)

(** ** Comparison and sum lemmas *)

Lemma Qltb_lt x y : Qltb x y = true <-> x < y.
Proof.
  unfold Qltb. rewrite negb_true_iff.
  split; intro H.
  - apply Qnot_le_lt. intro Hle. apply Qle_bool_iff in Hle. congruence.
  - destruct (Qle_bool y x) eqn:E; [|reflexivity].
    apply Qle_bool_iff in E. apply Qle_not_lt in E. contradiction.
Qed.

Lemma Qltb_ge x y : Qltb x y = false <-> y <= x.
Proof.
  unfold Qltb. rewrite negb_false_iff. apply Qle_bool_iff.
Qed.

Lemma Qle_bool_gt x y : Qle_bool x y = false <-> y < x.
Proof.
  rewrite <- Qltb_lt. unfold Qltb. now rewrite negb_true_iff.
Qed.

(** Case analysis on a comparison, leaving the order fact in context. *)
Ltac qcases :=
  repeat match goal with
  | |- context [Qltb ?a ?b] =>
      let E := fresh "E" in
      destruct (Qltb a b) eqn:E;
      [apply Qltb_lt in E | apply Qltb_ge in E]
  | |- context [Qle_bool ?a ?b] =>
      let E := fresh "E" in
      destruct (Qle_bool a b) eqn:E;
      [apply Qle_bool_iff in E | apply Qle_bool_gt in E]
  end.

Lemma py_max_ge_l a b : a <= py_max a b.
Proof. unfold py_max. qcases; lra. Qed.

Lemma py_max_ge_r a b : b <= py_max a b.
Proof. unfold py_max. qcases; lra. Qed.

Lemma py_max_lub a b c : a <= c -> b <= c -> py_max a b <= c.
Proof. unfold py_max. qcases; lra. Qed.

Lemma fold_left_Qplus_acc (l : list Q) (a : Q) :
  fold_left Qplus l a == a + py_sum l.
Proof.
  unfold py_sum. revert a.
  induction l as [|h r IH]; intro a; simpl.
  - lra.
  - rewrite (IH (a + h)), (IH (0 + h)). lra.
Qed.

Lemma py_sum_cons h (l : list Q) : py_sum (h :: l) == h + py_sum l.
Proof.
  unfold py_sum at 1. simpl. rewrite fold_left_Qplus_acc. lra.
Qed.

Lemma py_sum_snoc (l : list Q) x : py_sum (l ++ [x]) == py_sum l + x.
Proof.
  unfold py_sum. rewrite fold_left_app. simpl. reflexivity.
Qed.

Lemma py_sum_nonneg (l : list Q) :
  Forall (fun p => 0 <= p) l -> 0 <= py_sum l.
Proof.
  induction 1 as [|h r Hh _ IH].
  - unfold py_sum; simpl; lra.
  - rewrite py_sum_cons. lra.
Qed.

(** ** The queue model *)

Lemma drop_finished_length na now q :
  (length (drop_finished na now q) <= length q)%nat.
Proof.
  induction q as [|h r IH]; simpl; [lia|].
  destruct (Qle_bool na now); simpl; lia.
Qed.

Lemma consume_elapsed_length q : forall elapsed,
  (length (consume_elapsed elapsed q) <= length q)%nat.
Proof.
  induction q as [|h r IH]; intro elapsed; simpl; [lia|].
  destruct (Qltb 0 elapsed); [|simpl; lia].
  destruct (Qle_bool h elapsed); simpl; [|lia].
  specialize (IH (elapsed - h)). lia.
Qed.

Lemma update_queue_length s now :
  (get_queue_length (update s now) <= get_queue_length s)%nat.
Proof.
  unfold get_queue_length, update; simpl.
  etransitivity; [apply consume_elapsed_length | apply drop_finished_length].
Qed.

Lemma update_max_queue s now : max_queue (update s now) = max_queue s.
Proof. reflexivity. Qed.

Lemma submit_task_rejected s now pt :
  can_accept_task s = false -> submit_task s now pt = ((None, true), s).
Proof. intro H. unfold submit_task. now rewrite H. Qed.

Lemma submit_task_accepted s now pt :
  can_accept_task s = true ->
  exists total,
    submit_task s now pt =
      ((Some total, false),
       mkEdgeServer (server_id s) (mips s) (max_queue s)
         (queued_processing_times s ++ [pt]) (now + total)
         (total_busy_time s + pt))
    /\ total == estimate_wait_time s now + pt.
Proof.
  intro H. unfold submit_task. rewrite H. simpl.
  eexists. split; [reflexivity|].
  unfold estimate_wait_time. rewrite fold_left_Qplus_acc. lra.
Qed.

Lemma run_op_bounded s o : queue_bounded s -> queue_bounded (run_op s o).
Proof.
  unfold queue_bounded. intro H.
  destruct o as [| now | now | | now pt | now]; cbn [run_op]; trivial.
  - destruct (can_accept_task s) eqn:E.
    + destruct (submit_task_accepted s now pt E) as (total & -> & _).
      unfold can_accept_task in E. apply Z.ltb_lt in E.
      unfold get_queue_length; simpl. rewrite length_app; simpl. lia.
    + now rewrite submit_task_rejected.
  - pose proof (update_queue_length s now). rewrite update_max_queue. lia.
Qed.

Lemma run_ops_bounded ops : forall s,
  queue_bounded s -> queue_bounded (run_ops s ops).
Proof.
  unfold run_ops.
  induction ops as [|o r IH]; intros s H; simpl; [exact H|].
  apply IH, run_op_bounded, H.
Qed.

Lemma drop_finished_nonneg na now q :
  Forall (fun p => 0 <= p) q ->
  Forall (fun p => 0 <= p) (drop_finished na now q).
Proof.
  induction 1 as [|h r Hh Hr IH]; simpl; [constructor|].
  destruct (Qle_bool na now); [exact IH | now constructor].
Qed.

Lemma consume_elapsed_nonneg q : forall elapsed,
  Forall (fun p => 0 <= p) q ->
  Forall (fun p => 0 <= p) (consume_elapsed elapsed q).
Proof.
  induction q as [|h r IH]; intros elapsed H; simpl; [constructor|].
  inversion H as [|? ? Hh Hr]; subst.
  destruct (Qltb 0 elapsed); [|exact H].
  destruct (Qle_bool h elapsed) eqn:E.
  - apply IH, Hr.
  - apply Qle_bool_gt in E. constructor; [lra | exact Hr].
Qed.

Lemma run_op_nonneg s o :
  op_nonneg o -> nonneg_queue s -> nonneg_queue (run_op s o).
Proof.
  unfold nonneg_queue. intros Ho H.
  destruct o as [| now | now | | now pt | now]; cbn [run_op op_nonneg] in *;
    trivial.
  - destruct (can_accept_task s) eqn:E.
    + destruct (submit_task_accepted s now pt E) as (total & -> & _); simpl.
      apply Forall_app; split; [exact H | now constructor].
    + now rewrite submit_task_rejected.
  - unfold update; simpl.
    apply consume_elapsed_nonneg, drop_finished_nonneg, H.
Qed.

Lemma run_ops_nonneg ops : forall s,
  Forall op_nonneg ops -> nonneg_queue s -> nonneg_queue (run_ops s ops).
Proof.
  unfold run_ops.
  induction ops as [|o r IH]; intros s Ho H; simpl; [exact H|].
  inversion Ho; subst. apply IH; [assumption|]. now apply run_op_nonneg.
Qed.

Lemma estimate_wait_after_submit s now pt t :
  nonneg_queue s -> 0 <= pt -> can_accept_task s = true ->
  estimate_wait_time s t <= estimate_wait_time (snd (submit_task s now pt)) t.
Proof.
  intros Hq Hpt Hacc.
  destruct (submit_task_accepted s now pt Hacc) as (total & -> & Ht).
  pose proof (py_sum_nonneg _ Hq) as HS.
  unfold estimate_wait_time in *; simpl.
  rewrite py_sum_snoc.
  pose proof (py_max_ge_l 0 (next_available s - now)) as H0.
  pose proof (py_max_ge_r 0 (next_available s - now)) as H1.
  pose proof (py_max_ge_r 0 (now + total - t)) as H2.
  pose proof (py_max_ge_l 0 (now + total - t)) as H3.
  assert (py_max 0 (next_available s - t) <= py_max 0 (now + total - t)).
  { apply py_max_lub; lra. }
  lra.
Qed.

Lemma obind_Some {A B} (m : option A) (k : A -> option B) b :
  obind m k = Some b -> exists a, m = Some a /\ k a = Some b.
Proof. destruct m as [a|]; simpl; [eauto | discriminate]. Qed.

Ltac obind_inv H :=
  let a := fresh "v" in
  let Ha := fresh "Hv" in
  apply obind_Some in H; destruct H as (a & Ha & H).

(** ** The queue bound along a simulation run *)

Lemma list_set_Forall {A} (P : A -> Prop) (l : list A) : forall i x,
  Forall P l -> P x -> Forall P (list_set l i x).
Proof.
  induction l as [|y r IH]; intros i x Hl Hx; simpl.
  - destruct i; constructor.
  - inversion Hl; subst. destruct i; constructor; auto.
Qed.

Lemma commit_bounded nd ev idx e decision st st' p :
  Forall queue_bounded (st_servers st) ->
  commit nd ev idx e decision st = Some (st', p) ->
  Forall queue_bounded (st_servers st').
Proof.
  intros Hb H. unfold commit in H.
  destruct decision.
  - cbn [jitter random] in H.
    destruct (record_outcome _ _ _ _ _ _) as [res' g3].
    injection H as <- _. exact Hb.
  - destruct (nth_error (st_servers st) idx) as [best|] eqn:Eb;
      cbn [obind] in H; [|discriminate].
    assert (Hbest : queue_bounded best).
    { apply nth_error_In in Eb. rewrite Forall_forall in Hb. auto. }
    destruct (can_accept_task best) eqn:Eacc; cbn [negb] in H.
    + pose proof (run_op_bounded best (OpSubmit (ev_t ev) (edge_processing e))
                    Hbest) as Hs.
      cbn [run_op] in Hs.
      destruct (submit_task best (ev_t ev) (edge_processing e))
        as [[svc rejected] best'].
      cbn [snd] in Hs.
      destruct rejected.
      * injection H as <- _. cbn [st_servers].
        now apply list_set_Forall.
      * destruct svc as [svc|]; cbn [obind jitter random] in H;
          [|discriminate].
        destruct (record_outcome _ _ _ _ _ _) as [res' g3].
        injection H as <- _. cbn [st_servers].
        now apply list_set_Forall.
    + cbn [jitter random] in H.
      destruct (record_outcome _ _ _ _ _ _) as [res' g3].
      injection H as <- _. exact Hb.
  - cbn [jitter random] in H.
    destruct (record_outcome _ _ _ _ _ _) as [res' g3].
    injection H as <- _. exact Hb.
Qed.

Lemma process_event_bounded policy nd cfg st ev st' log :
  Forall queue_bounded (st_servers st) ->
  process_event policy nd cfg st ev = Some (st', log) ->
  Forall queue_bounded (st_servers st').
Proof.
  intros Hb H. unfold process_event in H.
  assert (Hu : Forall queue_bounded
                 (map (fun s => update s (ev_t ev)) (st_servers st))).
  { apply Forall_map. eapply Forall_impl; [|exact Hb].
    intros s Hs. exact (run_op_bounded s (OpUpdate (ev_t ev)) Hs). }
  destruct (Qltb (ev_t ev) (warm_up_period cfg)).
  - injection H as <- _. exact Hu.
  - apply obind_Some in H. destruct H as ([idx e] & _ & H).
    apply obind_Some in H. destruct H as (best & _ & H).
    apply obind_Some in H. destruct H as ([d g] & _ & H).
    apply obind_Some in H. destruct H as ([st1 p] & Hc & H).
    injection H as <- _.
    eapply commit_bounded; [|exact Hc]. exact Hu.
Qed.

Lemma run_events_bounded policy nd cfg events : forall st st',
  Forall queue_bounded (st_servers st) ->
  run_events policy nd cfg st events = Some st' ->
  Forall queue_bounded (st_servers st').
Proof.
  induction events as [|ev r IH]; intros st st' Hb H; simpl in H.
  - injection H as <-. exact Hb.
  - apply obind_Some in H. destruct H as ([st1 log] & Hp & H).
    eapply IH; [|exact H].
    eapply process_event_bounded; eassumption.
Qed.

(** C3. Admission control of an edge server.  [submit_task] signals
    rejection exactly when [can_accept_task] is false, and a rejected
    submit returns the server as it was (queue, [next_available] and
    busy time included); on a server whose queue respects its bound,
    [can_accept_task] is false exactly when the queue length equals
    [max_queue]. *)
Theorem submit_rejects_iff_full :
  (forall (s : EdgeServer) (now pt : Q),
      (fst (submit_task s now pt) = (None, true) <->
       can_accept_task s = false)
      /\ (fst (submit_task s now pt) = (None, true) ->
          snd (submit_task s now pt) = s))
  /\ (forall s : EdgeServer,
        queue_bounded s ->
        (can_accept_task s = false <->
         Z.of_nat (get_queue_length s) = max_queue s)).
Proof.
  split.
  - intros s now pt.
    assert (Hrej : fst (submit_task s now pt) = (None, true) <->
                   can_accept_task s = false).
    { split; intro H.
      - destruct (can_accept_task s) eqn:E; [|reflexivity].
        destruct (submit_task_accepted s now pt E) as (total & Hs & _).
        rewrite Hs in H. discriminate.
      - now rewrite submit_task_rejected. }
    split; [exact Hrej|].
    intro H. apply Hrej in H. now rewrite submit_task_rejected.
  - intros s Hb.
    unfold can_accept_task, queue_bounded, get_queue_length in *.
    rewrite Z.ltb_ge. lia.
Qed.

Lemma submit_rejects_iff_full_witness :
  queue_bounded scenario_busy
  /\ fst (submit_task scenario_busy 0.5 1) = (None, true)
  /\ snd (submit_task scenario_busy 0.5 1) = scenario_busy
  /\ can_accept_task scenario_busy = false
  /\ Z.of_nat (get_queue_length scenario_busy) = max_queue scenario_busy.
Proof.
  assert (Hb : queue_bounded scenario_busy).
  { unfold queue_bounded. vm_compute. discriminate. }
  assert (Hr : fst (submit_task scenario_busy 0.5 1) = (None, true))
    by reflexivity.
  destruct (proj1 submit_rejects_iff_full scenario_busy 0.5 1) as [H1 H2].
  split; [exact Hb|]. split; [exact Hr|]. split; [exact (H2 Hr)|].
  split; [exact (proj1 H1 Hr)|].
  exact (proj1 (proj2 submit_rejects_iff_full scenario_busy Hb)
               (proj1 H1 Hr)).
Defined.

(** C4 (as amended). One server of depth 1 and capacity 1000: submitting
    the 2000-instruction task at t = 0 returns total_time 2.0 and sets
    next_available to 2.0; any second submit at t = 0.5 is rejected and
    leaves the server as it was; [estimate_wait_time] at 1.0 then returns
    3.0, the 1.0 left until next_available plus the queued duration 2.0
    (2.0 once the server has been advanced to t = 1.0 by [update]). *)
Theorem scenario_single_server :
  exists total s1,
    scenario_pt == 2.0
    /\ submit_task scenario_server 0 scenario_pt = ((Some total, false), s1)
    /\ total == 2.0
    /\ next_available s1 == 2.0
    /\ (forall pt, submit_task s1 0.5 pt = ((None, true), s1))
    /\ estimate_wait_time s1 1.0 == 3.0
    /\ estimate_wait_time (update s1 1.0) 1.0 == 2.0.
Proof.
  eexists; eexists.
  split; [vm_compute; reflexivity|].
  split; [vm_compute; reflexivity|].
  split; [vm_compute; reflexivity|].
  split; [vm_compute; reflexivity|].
  split; [intro pt; reflexivity|].
  split; vm_compute; reflexivity.
Qed.

(** C4, the claim as stated fails: after the submit at t = 0 and the
    rejected submit at t = 0.5, [estimate_wait_time] at 1.0 is not 1.0. *)
Lemma scenario_wait_is_not_one :
  exists total s1,
    submit_task scenario_server 0 scenario_pt = ((Some total, false), s1)
    /\ snd (submit_task s1 0.5 scenario_pt) = s1
    /\ ~ estimate_wait_time s1 1.0 == 1.0.
Proof.
  eexists; eexists.
  split; [vm_compute; reflexivity|].
  split; [vm_compute; reflexivity|].
  vm_compute. discriminate.
Qed.

(** C5. The queue never exceeds its bound: a fresh server with a
    non-negative depth satisfies [queue_bounded]; every operation of the
    class preserves it for all arguments; so it holds after every
    sequence of operations run from a fresh server, and of every server
    in every state [run_simulation] reaches. *)
Theorem queue_length_invariant :
  (forall (sid : nat) (m : Q) (mq : Z),
      (0 <= mq)%Z -> queue_bounded (EdgeServer_init sid m mq))
  /\ (forall (s : EdgeServer) (o : server_op),
        queue_bounded s -> queue_bounded (run_op s o))
  /\ (forall (sid : nat) (m : Q) (mq : Z) (ops : list server_op),
        (0 <= mq)%Z ->
        queue_bounded (run_ops (EdgeServer_init sid m mq) ops))
  /\ (forall (policy : Policy) (nd : nat) (cfg : SimConfig)
             (events : list Event) (g : Rng) (st : SimState),
        (0 <= max_edge_queue cfg)%Z ->
        run_events policy nd cfg (fresh_state cfg g) events = Some st ->
        Forall queue_bounded (st_servers st)).
Proof.
  assert (H0 : forall sid m mq,
             (0 <= mq)%Z -> queue_bounded (EdgeServer_init sid m mq)).
  { intros sid m mq Hmq. unfold queue_bounded; simpl. exact Hmq. }
  split; [exact H0|]. split; [exact run_op_bounded|]. split.
  - intros sid m mq ops Hmq. apply run_ops_bounded, H0, Hmq.
  - intros policy nd cfg events g st Hmq Hrun.
    apply (run_events_bounded policy nd cfg events (fresh_state cfg g) st);
      [|exact Hrun].
    unfold fresh_state, init_servers; cbn [st_servers].
    apply Forall_map, Forall_forall. intros i _. apply H0, Hmq.
Qed.

Lemma queue_length_invariant_witness :
  (0 <= 1)%Z
  /\ queue_bounded (EdgeServer_init 0 1000 1)
  /\ queue_bounded
       (run_ops (EdgeServer_init 0 1000 1)
          [OpSubmit 0 2; OpCanAccept; OpSubmit 0.5 1; OpEstimateWait 1;
           OpUpdate 1.5; OpSubmit 1.5 1; OpUtilization 2])
  /\ (0 <= max_edge_queue single_server_config)%Z
  /\ exists st,
       run_events GREEDY_DEADLINE 2 single_server_config
         (fresh_state single_server_config greedy_rng) race_events = Some st
       /\ Forall queue_bounded (st_servers st).
Proof.
  assert (H1 : (0 <= 1)%Z) by lia.
  assert (H2 : (0 <= max_edge_queue single_server_config)%Z)
    by (vm_compute; discriminate).
  destruct queue_length_invariant as (Hinit & Hstep & Hops & Hsim).
  split; [exact H1|].
  split; [exact (Hinit 0%nat 1000 1%Z H1)|].
  split; [exact (Hops 0%nat 1000 1%Z _ H1)|].
  split; [exact H2|].
  destruct (run_events GREEDY_DEADLINE 2 single_server_config
              (fresh_state single_server_config greedy_rng) race_events)
    as [st|] eqn:E.
  - exists st. split; [reflexivity|].
    exact (Hsim GREEDY_DEADLINE 2%nat single_server_config race_events
             greedy_rng st H2 E).
  - vm_compute in E. discriminate.
Defined.

(** C7. On every server reached from a fresh one by operations that
    submit only non-negative processing times, a successful
    [submit_task] at time [now] with a non-negative processing time does
    not lower [estimate_wait_time] at [now]. *)
Theorem estimate_wait_monotone (sid : nat) (m : Q) (mq : Z)
  (ops : list server_op) (now pt total : Q) (s' : EdgeServer) :
  Forall op_nonneg ops ->
  0 <= pt ->
  submit_task (run_ops (EdgeServer_init sid m mq) ops) now pt
    = ((Some total, false), s') ->
  estimate_wait_time (run_ops (EdgeServer_init sid m mq) ops) now
    <= estimate_wait_time s' now.
Proof.
  intros Hops Hpt Hsub.
  set (s := run_ops (EdgeServer_init sid m mq) ops) in *.
  assert (Hq : nonneg_queue s).
  { apply run_ops_nonneg; [exact Hops | constructor]. }
  assert (Hacc : can_accept_task s = true).
  { destruct (can_accept_task s) eqn:E; [reflexivity|].
    rewrite (submit_task_rejected s now pt E) in Hsub. discriminate. }
  pose proof (estimate_wait_after_submit s now pt now Hq Hpt Hacc) as H.
  rewrite Hsub in H. exact H.
Qed.

Lemma estimate_wait_monotone_witness :
  Forall op_nonneg [OpSubmit 0 2]
  /\ 0 <= 1
  /\ submit_task (run_ops (EdgeServer_init 0 1000 3) [OpSubmit 0 2]) 0 1
       = ((Some scenario_second_total, false), scenario_two_queued)
  /\ estimate_wait_time
       (run_ops (EdgeServer_init 0 1000 3) [OpSubmit 0 2]) 0
     <= estimate_wait_time scenario_two_queued 0.
Proof.
  assert (H1 : Forall op_nonneg [OpSubmit 0 2]).
  { constructor; [simpl; lra | constructor]. }
  assert (H2 : 0 <= 1) by lra.
  assert (H3 : submit_task
                 (run_ops (EdgeServer_init 0 1000 3) [OpSubmit 0 2]) 0 1
               = ((Some scenario_second_total, false), scenario_two_queued)).
  { vm_compute. reflexivity. }
  split; [exact H1|]. split; [exact H2|]. split; [exact H3|].
  exact (estimate_wait_monotone 0 1000 3 [OpSubmit 0 2] 0 1
           scenario_second_total scenario_two_queued H1 H2 H3).
Defined.

(** ** Selection of a minimum from a three-entry dict *)

Lemma xle_fin a b : xle (Fin a) (Fin b) <-> a <= b.
Proof. unfold xle; simpl. apply Qltb_ge. Qed.

Lemma xle_inf_l y : xle PInf y -> y = PInf.
Proof. unfold xle. destruct y; simpl; [discriminate | reflexivity]. Qed.

Lemma xltb_trans_false a b c :
  xltb b a = false -> xltb c b = false -> xltb c a = false.
Proof.
  destruct a, b, c; simpl; trivial; try discriminate.
  rewrite !Qltb_ge. intros; lra.
Qed.

Lemma xltb_false_of_true a b : xltb a b = true -> xltb b a = false.
Proof.
  destruct a, b; simpl; trivial; try discriminate.
  rewrite Qltb_lt, Qltb_ge. intros; lra.
Qed.

Lemma dict3_get {V} (a b c : V) k :
  dict_get [(MOBILE, a); (EDGE, b); (CLOUD, c)] k = Some (dict3_at a b c k).
Proof. destruct k; reflexivity. Qed.

Lemma xle_refl x : xle x x.
Proof. unfold xle. destruct x; simpl; trivial. apply Qltb_ge; lra. Qed.

Lemma xle_trans x y z : xle x y -> xle y z -> xle x z.
Proof. unfold xle. apply xltb_trans_false. Qed.

Lemma xle_of_lt x y : xltb x y = true -> xle x y.
Proof. unfold xle. apply xltb_false_of_true. Qed.

Create HintDb xorder.
#[local] Hint Resolve xle_refl xle_of_lt : xorder.
#[local] Hint Extern 1 (xle ?a ?b) =>
  match goal with H : xltb b a = false |- _ => exact H end : xorder.
#[local] Hint Extern 3 (xle ?a ?c) =>
  match goal with
  | H : xltb ?b a = false |- _ => apply (xle_trans a b c); [exact H|]
  | H : xltb a ?b = true |- _ =>
      apply (xle_trans a b c); [apply xle_of_lt; exact H|]
  end : xorder.

Lemma dict_min3_x (a b c : xQ) :
  exists d,
    dict_min xltb [(MOBILE, a); (EDGE, b); (CLOUD, c)] = Some d
    /\ forall k, xle (dict3_at a b c d) (dict3_at a b c k).
Proof.
  unfold dict_min, min_from; simpl.
  destruct (xltb b a) eqn:Eba; simpl.
  - destruct (xltb c b) eqn:Ecb; eexists; (split; [reflexivity|]);
      intros [| |]; simpl; auto with xorder.
  - destruct (xltb c a) eqn:Eca; eexists; (split; [reflexivity|]);
      intros [| |]; simpl; auto with xorder.
Qed.

Lemma dict_min3_q (a b c : Q) :
  exists d,
    dict_min Qltb [(MOBILE, a); (EDGE, b); (CLOUD, c)] = Some d
    /\ forall k, dict3_at a b c d <= dict3_at a b c k.
Proof.
  unfold dict_min, min_from; simpl.
  qcases; eexists; (split; [reflexivity|]); intros [| |]; simpl; lra.
Qed.

Lemma dict3_at_fin (e : Estimates) k :
  dict3_at (Fin (local_time e)) (Fin (edge_time e)) (Fin (cloud_time e)) k
  = Fin (time_at e k).
Proof. destruct k; reflexivity. Qed.

(** ** The cost model is total on a valid configuration *)

Lemma argmin_from_In key rest : forall best,
  In (argmin_from key best rest) (best :: rest).
Proof.
  induction rest as [|i r IH]; intro best; simpl; [now left|].
  destruct (Qltb (key i) (key best)).
  - right. apply IH.
  - destruct (IH best) as [H|H]; [now left | right; now right].
Qed.

Lemma best_server_idx_total (servers : list EdgeServer) (t : Q) :
  servers <> [] ->
  exists idx best,
    best_server_idx servers t = Some idx
    /\ nth_error servers idx = Some best.
Proof.
  intro Hne. unfold best_server_idx, min_range.
  destruct servers as [|s0 r]; [congruence|].
  cbn [length seq].
  set (key := wait_at (s0 :: r) t).
  pose proof (argmin_from_In key (seq 1 (length r)) 0%nat) as Hin.
  assert (Hlt : (argmin_from key 0 (seq 1 (length r)) < length (s0 :: r))%nat).
  { change (0%nat :: seq 1 (length r)) with (seq 0 (length (s0 :: r))) in Hin.
    apply in_seq in Hin. lia. }
  destruct (nth_error (s0 :: r) (argmin_from key 0 (seq 1 (length r))))
    as [b|] eqn:E.
  - exists (argmin_from key 0 (seq 1 (length r))), b. split; [reflexivity|].
    exact E.
  - apply nth_error_None in E. lia.
Qed.

Lemma py_div_total a b : Qeq_bool b 0 = false -> py_div a b = Some (a / b).
Proof. intro H. unfold py_div. now rewrite H. Qed.

Lemma estimate_costs_total cfg nd servers ev :
  servers <> [] -> nonzero_capacities cfg = true ->
  exists idx best e,
    estimate_costs cfg nd servers ev = Some (idx, e)
    /\ nth_error servers idx = Some best
    /\ edge_queue_delay e = estimate_wait_time best (ev_t ev).
Proof.
  intros Hne Hcfg.
  unfold nonzero_capacities in Hcfg.
  repeat (apply andb_prop in Hcfg; destruct Hcfg as [Hcfg ?]).
  repeat match goal with
         | H : negb _ = true |- _ => apply negb_true_iff in H
         end.
  destruct (best_server_idx_total servers (ev_t ev) Hne)
    as (idx & best & Hidx & Hbest).
  unfold estimate_costs.
  rewrite !py_div_total by assumption. cbn [obind].
  rewrite Hidx. cbn [obind]. rewrite Hbest. cbn [obind].
  eexists; eexists; eexists. split; [reflexivity|]. split; [exact Hbest|].
  reflexivity.
Qed.

(** ** The adaptive policy *)

Lemma eadc_decide_spec cfg app deadline t servers best e :
  exists d,
    eadc_decide cfg app deadline t servers best e = Some d
    /\ (dict_get (eadc_scores cfg app deadline t servers best e) d
          = Some PInf ->
        forall k,
          dict_get (eadc_scores cfg app deadline t servers best e) k
            = Some PInf)
    /\ ((forall k,
           dict_get (eadc_scores cfg app deadline t servers best e) k
             = Some PInf) ->
        if can_accept_task best
        then forall k, time_at e d <= time_at e k
        else d <> EDGE /\ forall k, k <> EDGE -> time_at e d <= time_at e k).
Proof.
  unfold eadc_decide.
  assert (Hshape : exists sl se sc,
             eadc_scores cfg app deadline t servers best e
             = [(MOBILE, sl); (EDGE, se); (CLOUD, sc)]).
  { unfold eadc_scores. eexists; eexists; eexists. reflexivity. }
  destruct Hshape as (sl & se & sc & ->).
  destruct (dict_min3_x sl se sc) as (d0 & Hmin & Hle).
  rewrite Hmin. cbn [obind]. rewrite dict3_get. cbn [obind].
  destruct (dict3_at sl se sc d0) as [q|] eqn:Ed0; cbn [is_inf].
  - (* a finite best score *)
    exists d0. split; [reflexivity|]. split.
    + rewrite dict3_get, Ed0. discriminate.
    + intro Hall. specialize (Hall d0).
      rewrite dict3_get, Ed0 in Hall. discriminate.
  - (* every score is infinite: the fallback on times *)
    assert (Hall : forall k, dict3_at sl se sc k = PInf).
    { intro k. apply xle_inf_l. apply Hle. }
    unfold eadc_fallback_times.
    destruct (can_accept_task best); cbn [negb dict_set DeviceType_eqb].
    + destruct (dict_min3_x (Fin (local_time e)) (Fin (edge_time e))
                  (Fin (cloud_time e))) as (d & Hd & Hdle).
      exists d. split; [exact Hd|]. split.
      * intros _ k. now rewrite dict3_get, Hall.
      * intros _ k. specialize (Hdle k).
        rewrite !dict3_at_fin in Hdle. now apply xle_fin.
    + destruct (dict_min3_x (Fin (local_time e)) PInf
                  (Fin (cloud_time e))) as (d & Hd & Hdle).
      exists d. split; [exact Hd|]. split.
      * intros _ k. now rewrite dict3_get, Hall.
      * intros _. split.
        -- intro Hd'; subst d. specialize (Hdle MOBILE). discriminate.
        -- intros k Hk. specialize (Hdle k).
           destruct d, k; cbn [dict3_at time_at] in *; try congruence;
             try (now apply xle_fin); try discriminate; lra.
Qed.

Lemma eadc_branch_sound (cfg : SimConfig) (nd : nat)
  (servers : list EdgeServer) (ev : Event) (g : Rng) :
  servers <> [] ->
  nonzero_capacities cfg = true ->
  exists idx best e d,
    estimate_costs cfg nd servers ev = Some (idx, e)
    /\ nth_error servers idx = Some best
    /\ decide EADC cfg ev servers best e g = Some (d, g)
    /\ (dict_get (eadc_scores cfg (ev_app ev) (ev_deadline ev) (ev_t ev)
                    servers best e) d = Some PInf ->
        forall k,
          dict_get (eadc_scores cfg (ev_app ev) (ev_deadline ev) (ev_t ev)
                      servers best e) k = Some PInf)
    /\ ((forall k,
           dict_get (eadc_scores cfg (ev_app ev) (ev_deadline ev) (ev_t ev)
                       servers best e) k = Some PInf) ->
        if can_accept_task best
        then forall k, time_at e d <= time_at e k
        else d <> EDGE /\ forall k, k <> EDGE -> time_at e d <= time_at e k).
Proof.
  intros Hne Hcfg.
  destruct (estimate_costs_total cfg nd servers ev Hne Hcfg)
    as (idx & best & e & Hest & Hbest & _).
  destruct (eadc_decide_spec cfg (ev_app ev) (ev_deadline ev) (ev_t ev)
              servers best e) as (d & Hd & Hinf & Hfall).
  exists idx, best, e, d.
  split; [exact Hest|]. split; [exact Hbest|]. split.
  - cbn [decide]. rewrite Hd. reflexivity.
  - split; assumption.
Qed.

(** ** The scoring rule *)

Lemma py_max_Qmax a b : py_max a b == Qmax a b.
Proof.
  unfold py_max.
  destruct (Q.max_spec a b) as [[H ->] | [H ->]]; qcases; lra.
Qed.

Lemma py_max4_Qmax a b c d :
  py_max (py_max (py_max a b) c) d == Qmax (Qmax (Qmax a b) c) d.
Proof.
  rewrite (py_max_Qmax _ d).
  assert (H3 : py_max (py_max a b) c == Qmax (Qmax a b) c).
  { rewrite (py_max_Qmax _ c).
    destruct (Q.max_spec (py_max a b) c) as [[H ->] | [H ->]];
      destruct (Q.max_spec (Qmax a b) c) as [[H' ->] | [H' ->]];
      pose proof (py_max_Qmax a b); lra. }
  destruct (Q.max_spec (py_max (py_max a b) c) d) as [[H ->] | [H ->]];
    destruct (Q.max_spec (Qmax (Qmax a b) c) d) as [[H' ->] | [H' ->]];
    lra.
Qed.

Lemma py_max3_Qmax a b c :
  py_max (py_max a b) c == Qmax (Qmax a b) c.
Proof.
  rewrite (py_max_Qmax _ c).
  destruct (Q.max_spec (py_max a b) c) as [[H ->] | [H ->]];
    destruct (Q.max_spec (Qmax a b) c) as [[H' ->] | [H' ->]];
    pose proof (py_max_Qmax a b); lra.
Qed.

Lemma xeq_refl x : xeq x x.
Proof. destruct x; simpl; [reflexivity | exact I]. Qed.

Lemma xeq_xscale x y f : xeq x y -> xeq (xscale x f) (xscale y f).
Proof.
  destruct x, y; simpl; trivial. intro H. now rewrite H.
Qed.

Lemma calc_score_pos a b tn en time energy (meets : bool) :
  0 < tn -> 0 < en ->
  calc_score a b tn en time energy meets
  = if meets then Fin (a * (time / tn) + b * (energy / en)) else PInf.
Proof.
  intros Ht He. unfold calc_score.
  apply Qltb_lt in Ht, He. rewrite Ht, He. now destruct meets.
Qed.

Lemma calc_score_spec cfg app e deadline k :
  0 < eadc_max_time e deadline -> 0 < eadc_max_energy e ->
  xeq (calc_score (adaptive_alpha cfg app) (adaptive_beta cfg app)
         (eadc_max_time e deadline) (eadc_max_energy e)
         (time_at e k) (energy_at e k) (Qle_bool (time_at e k) deadline))
      (spec_score (alpha cfg) (beta cfg) (delay_sens app) deadline
         (time_at e) (energy_at e) k).
Proof.
  intros Ht He. rewrite calc_score_pos by assumption.
  unfold spec_score.
  destruct (Qle_bool (time_at e k) deadline); [|exact I].
  cbn [xeq time_at energy_at].
  unfold eadc_max_time, eadc_max_energy, adaptive_alpha, adaptive_beta.
  rewrite py_max4_Qmax, py_max3_Qmax. ring.
Qed.

Lemma eadc_scores_spec cfg app deadline t servers best e :
  0 < eadc_max_time e deadline -> 0 < eadc_max_energy e ->
  exists sl se sc,
    eadc_scores cfg app deadline t servers best e
      = [(MOBILE, sl); (EDGE, se); (CLOUD, sc)]
    /\ xeq sl (spec_score (alpha cfg) (beta cfg) (delay_sens app) deadline
                 (time_at e) (energy_at e) MOBILE)
    /\ xeq se (spec_edge_score
                 (spec_score (alpha cfg) (beta cfg) (delay_sens app) deadline
                    (time_at e) (energy_at e) EDGE)
                 (avg_utilization servers t) (can_accept_task best))
    /\ xeq sc (spec_score (alpha cfg) (beta cfg) (delay_sens app) deadline
                 (time_at e) (energy_at e) CLOUD).
Proof.
  intros Ht He. unfold eadc_scores.
  eexists; eexists; eexists. split; [reflexivity|].
  split; [exact (calc_score_spec cfg app e deadline MOBILE Ht He)|].
  split; [|exact (calc_score_spec cfg app e deadline CLOUD Ht He)].
  unfold spec_edge_score.
  destruct (can_accept_task best); cbn [negb]; [|exact I].
  destruct (Qltb 70 (avg_utilization servers t)).
  - apply xeq_xscale. exact (calc_score_spec cfg app e deadline EDGE Ht He).
  - exact (calc_score_spec cfg app e deadline EDGE Ht He).
Qed.

(** ** The class-based adaptive policy *)

Lemma calculate_score_Some config a b deadline time energy meets sc :
  EnergyAware.calculate_score config a b deadline time energy meets = Some sc ->
  sc = if meets
       then Fin (a * (time / deadline)
                 + b * (energy / (EnergyAware.mobile_power_active config * 10)))
       else PInf.
Proof.
  unfold EnergyAware.calculate_score, py_div.
  destruct meets; cbn [negb]; [|congruence].
  destruct (Qeq_bool deadline 0); cbn [obind]; [discriminate|].
  destruct (Qeq_bool (EnergyAware.mobile_power_active config * 10) 0);
    cbn [obind]; congruence.
Qed.

Lemma EADC_scores_variant config task servers c scores :
  EnergyAware.EADC_scores config task servers c = Some scores ->
  exists u,
    EnergyAware.mean_utilization servers = Some u
    /\ scores =
       [(MOBILE, EnergyAware.variant_score config task c MOBILE);
        (EDGE,
         if Qltb 85 u
         then xscale (EnergyAware.variant_score config task c EDGE)
                     (1 + (u - 85) / 100)
         else EnergyAware.variant_score config task c EDGE);
        (CLOUD, EnergyAware.variant_score config task c CLOUD)].
Proof.
  unfold EnergyAware.EADC_scores. intro H.
  obind_inv H. obind_inv H. obind_inv H. obind_inv H.
  apply calculate_score_Some in Hv, Hv0, Hv1.
  exists v2. split; [assumption|].
  injection H as <-. subst v v0 v1.
  unfold EnergyAware.variant_score. cbn [EnergyAware.c_time_at
    EnergyAware.c_energy_at]. reflexivity.
Qed.

Lemma EADCAlgorithm_decide_spec config task servers c scores :
  EnergyAware.EADC_costs config task servers = Some c ->
  EnergyAware.EADC_scores config task servers c = Some scores ->
  exists d,
    EnergyAware.EADCAlgorithm_decide config task servers = Some d
    /\ (dict_get scores d = Some PInf ->
        forall k, dict_get scores k = Some PInf)
    /\ ((forall k, dict_get scores k = Some PInf) ->
        forall k, EnergyAware.c_time_at c d <= EnergyAware.c_time_at c k).
Proof.
  intros Hc Hs. unfold EnergyAware.EADCAlgorithm_decide.
  rewrite Hc. cbn [obind]. rewrite Hs. cbn [obind].
  destruct (EADC_scores_variant _ _ _ _ _ Hs) as (u & _ & ->).
  match goal with
  | |- context [dict_min xltb [(MOBILE, ?a); (EDGE, ?b); (CLOUD, ?c)]] =>
      generalize a b c
  end.
  intros sl se sc.
  destruct (dict_min3_x sl se sc) as (d0 & Hmin & Hle).
  rewrite Hmin. cbn [obind]. rewrite dict3_get. cbn [obind].
  destruct (dict3_at sl se sc d0) as [q|] eqn:Ed0; cbn [is_inf].
  - exists d0. split; [reflexivity|]. split.
    + rewrite dict3_get, Ed0. discriminate.
    + intro Hall. specialize (Hall d0).
      rewrite dict3_get, Ed0 in Hall. discriminate.
  - assert (Hall : forall k, dict3_at sl se sc k = PInf).
    { intro k. apply xle_inf_l. apply Hle. }
    destruct (dict_min3_q (EnergyAware.c_local_time c)
                (EnergyAware.c_edge_time c) (EnergyAware.c_cloud_time c))
      as (d & Hd & Hdle).
    exists d. split; [exact Hd|]. split.
    + intros _ k. now rewrite dict3_get, Hall.
    + intros _ k. specialize (Hdle k).
      destruct d, k; exact Hdle.
Qed.

Lemma EADC_total config task servers :
  servers <> [] ->
  EnergyAware.valid_inputs config task = true ->
  exists c scores,
    EnergyAware.EADC_costs config task servers = Some c
    /\ EnergyAware.EADC_scores config task servers c = Some scores.
Proof.
  intros Hne Hv. unfold EnergyAware.valid_inputs in Hv.
  repeat (apply andb_prop in Hv; destruct Hv as [Hv ?]).
  repeat match goal with
         | H : negb _ = true |- _ => apply negb_true_iff in H
         end.
  assert (Hu : exists u, EnergyAware.mean_utilization servers = Some u).
  { destruct servers; [congruence|]. eexists; reflexivity. }
  destruct Hu as (u & Hu).
  unfold EnergyAware.EADC_costs, EnergyAware.estimate_local_time,
    EnergyAware.estimate_edge_time, EnergyAware.estimate_cloud_time,
    EnergyAware.calculate_local_energy, EnergyAware.calculate_offload_energy.
  rewrite !py_div_total by assumption. cbn [obind].
  rewrite Hu. cbn [obind].
  eexists.
  unfold EnergyAware.EADC_scores, EnergyAware.calculate_score.
  rewrite Hu.
  repeat match goal with
         | |- context [if negb ?b then _ else _] => destruct b; cbn [negb]
         end;
    rewrite ?py_div_total by assumption; cbn [obind];
    eexists; (split; reflexivity).
Qed.

(** C1. Both adaptive policies are total and never pick an infeasible
    location while a feasible one exists.
    In [run_simulation], for every event, every non-empty list of
    servers and a configuration with non-zero capacities, the cost model
    yields estimates and a best server and the EADC branch returns one
    location; that location has an infinite score only if all three
    scores are infinite, and when they all are it has the least
    estimated time of the three, Edge being left out when the best
    server cannot accept a task.
    [EADCAlgorithm.decide], which knows no queue, likewise returns one
    location on valid inputs, with an infinite score only if all three
    are infinite and then with the least estimated time of the three. *)
Theorem eadc_returns_feasible_or_fastest :
  (forall (cfg : SimConfig) (nd : nat) (servers : list EdgeServer)
          (ev : Event) (g : Rng),
      servers <> [] ->
      nonzero_capacities cfg = true ->
      exists idx best e d,
        estimate_costs cfg nd servers ev = Some (idx, e)
        /\ nth_error servers idx = Some best
        /\ decide EADC cfg ev servers best e g = Some (d, g)
        /\ (dict_get (eadc_scores cfg (ev_app ev) (ev_deadline ev) (ev_t ev)
                        servers best e) d = Some PInf ->
            forall k,
              dict_get (eadc_scores cfg (ev_app ev) (ev_deadline ev)
                          (ev_t ev) servers best e) k = Some PInf)
        /\ ((forall k,
               dict_get (eadc_scores cfg (ev_app ev) (ev_deadline ev)
                           (ev_t ev) servers best e) k = Some PInf) ->
            if can_accept_task best
            then forall k, time_at e d <= time_at e k
            else d <> EDGE
                 /\ forall k, k <> EDGE -> time_at e d <= time_at e k))
  /\ (forall (config : EnergyAware.SimulationConfig)
             (task : EnergyAware.Task)
             (servers : list EnergyAware.EdgeServer),
        servers <> [] ->
        EnergyAware.valid_inputs config task = true ->
        exists c scores d,
          EnergyAware.EADC_costs config task servers = Some c
          /\ EnergyAware.EADC_scores config task servers c = Some scores
          /\ EnergyAware.EADCAlgorithm_decide config task servers = Some d
          /\ (dict_get scores d = Some PInf ->
              forall k, dict_get scores k = Some PInf)
          /\ ((forall k, dict_get scores k = Some PInf) ->
              forall k,
                EnergyAware.c_time_at c d <= EnergyAware.c_time_at c k)).
Proof.
  split.
  - exact eadc_branch_sound.
  - intros config task servers Hne Hv.
    destruct (EADC_total config task servers Hne Hv) as (c & scores & Hc & Hs).
    destruct (EADCAlgorithm_decide_spec config task servers c scores Hc Hs)
      as (d & Hd & H1 & H2).
    exists c, scores, d. repeat (split; [assumption|]). assumption.
Qed.

Lemma eadc_returns_feasible_or_fastest_witness :
  (init_servers SimConfig_default <> []
   /\ nonzero_capacities SimConfig_default = true
   /\ exists idx best e d,
        estimate_costs SimConfig_default 100 (init_servers SimConfig_default)
          scenario_event = Some (idx, e)
        /\ nth_error (init_servers SimConfig_default) idx = Some best
        /\ decide EADC SimConfig_default scenario_event
             (init_servers SimConfig_default) best e scenario_rng
           = Some (d, scenario_rng))
  /\ (scenario_variant_servers <> []
      /\ EnergyAware.valid_inputs EnergyAware.SimulationConfig_default
           scenario_task = true
      /\ exists d,
           EnergyAware.EADCAlgorithm_decide
             EnergyAware.SimulationConfig_default scenario_task
             scenario_variant_servers = Some d).
Proof.
  assert (H1 : init_servers SimConfig_default <> [])
    by (vm_compute; discriminate).
  assert (H2 : nonzero_capacities SimConfig_default = true) by reflexivity.
  assert (H3 : scenario_variant_servers <> [])
    by (vm_compute; discriminate).
  assert (H4 : EnergyAware.valid_inputs EnergyAware.SimulationConfig_default
                 scenario_task = true) by reflexivity.
  split.
  - split; [exact H1|]. split; [exact H2|].
    destruct (proj1 eadc_returns_feasible_or_fastest SimConfig_default
                100%nat (init_servers SimConfig_default) scenario_event
                scenario_rng H1 H2)
      as (idx & best & e & d & Ha & Hb & Hc & _).
    exists idx, best, e, d. repeat (split; [assumption|]). assumption.
  - split; [exact H3|]. split; [exact H4|].
    destruct (proj2 eadc_returns_feasible_or_fastest
                EnergyAware.SimulationConfig_default scenario_task
                scenario_variant_servers H3 H4)
      as (c & scores & d & _ & _ & Hd & _).
    exists d. exact Hd.
Defined.

(** C2 (as amended). The EADC branch of [run_simulation] scores as the
    specification says whenever the two normalisers are positive: each
    location gets [spec_score], the Edge score being inflated above 70%
    mean utilization and infinite when the best server cannot accept the
    task.  [EADCAlgorithm.decide] scores with other constants: weights
    [alpha (1 + s)] and [beta (1 - s)], time over the deadline, energy
    over ten times the active power, an Edge factor
    [1 + (u - 85) / 100] above 85% mean utilization, and no admission
    check. *)
Theorem eadc_scoring_rules :
  (forall (cfg : SimConfig) (app : AppType) (deadline t : Q)
          (servers : list EdgeServer) (best : EdgeServer) (e : Estimates),
      0 < eadc_max_time e deadline ->
      0 < eadc_max_energy e ->
      exists sl se sc,
        eadc_scores cfg app deadline t servers best e
          = [(MOBILE, sl); (EDGE, se); (CLOUD, sc)]
        /\ xeq sl (spec_score (alpha cfg) (beta cfg) (delay_sens app)
                     deadline (time_at e) (energy_at e) MOBILE)
        /\ xeq se (spec_edge_score
                     (spec_score (alpha cfg) (beta cfg) (delay_sens app)
                        deadline (time_at e) (energy_at e) EDGE)
                     (avg_utilization servers t) (can_accept_task best))
        /\ xeq sc (spec_score (alpha cfg) (beta cfg) (delay_sens app)
                     deadline (time_at e) (energy_at e) CLOUD))
  /\ (forall (config : EnergyAware.SimulationConfig)
             (task : EnergyAware.Task)
             (servers : list EnergyAware.EdgeServer)
             (c : EnergyAware.Costs) (scores : ddict xQ),
        EnergyAware.EADC_scores config task servers c = Some scores ->
        exists u,
          EnergyAware.mean_utilization servers = Some u
          /\ scores =
             [(MOBILE, EnergyAware.variant_score config task c MOBILE);
              (EDGE,
               if Qltb 85 u
               then xscale (EnergyAware.variant_score config task c EDGE)
                           (1 + (u - 85) / 100)
               else EnergyAware.variant_score config task c EDGE);
              (CLOUD, EnergyAware.variant_score config task c CLOUD)]).
Proof.
  split; [exact eadc_scores_spec | exact EADC_scores_variant].
Qed.

Lemma eadc_scoring_rules_witness :
  (0 < eadc_max_time scenario_estimates (ev_deadline scenario_event)
   /\ 0 < eadc_max_energy scenario_estimates
   /\ exists sl se sc,
        eadc_scores SimConfig_default (ev_app scenario_event)
          (ev_deadline scenario_event) (ev_t scenario_event)
          (init_servers SimConfig_default) scenario_server
          scenario_estimates
        = [(MOBILE, sl); (EDGE, se); (CLOUD, sc)])
  /\ (EnergyAware.EADC_scores EnergyAware.SimulationConfig_default
        scenario_task scenario_variant_servers scenario_costs
      = Some scenario_variant_scores
      /\ exists u,
           EnergyAware.mean_utilization scenario_variant_servers = Some u).
Proof.
  assert (H1 : 0 < eadc_max_time scenario_estimates
                     (ev_deadline scenario_event)) by (vm_compute; reflexivity).
  assert (H2 : 0 < eadc_max_energy scenario_estimates)
    by (vm_compute; reflexivity).
  assert (H3 : EnergyAware.EADC_scores EnergyAware.SimulationConfig_default
                 scenario_task scenario_variant_servers scenario_costs
               = Some scenario_variant_scores) by (vm_compute; reflexivity).
  split.
  - split; [exact H1|]. split; [exact H2|].
    destruct (proj1 eadc_scoring_rules SimConfig_default
                (ev_app scenario_event) (ev_deadline scenario_event)
                (ev_t scenario_event) (init_servers SimConfig_default)
                scenario_server scenario_estimates H1 H2)
      as (sl & se & sc & Hs & _).
    exists sl, se, sc. exact Hs.
  - split; [exact H3|].
    destruct (proj2 eadc_scoring_rules EnergyAware.SimulationConfig_default
                scenario_task scenario_variant_servers scenario_costs
                scenario_variant_scores H3) as (u & Hu & _).
    exists u. exact Hu.
Defined.

(** C2, the claim as stated fails on [EADCAlgorithm.decide]: for the
    scenario task the score it gives to local execution is not the
    score of the specification's rule on the same estimates. *)
Lemma eadc_variant_score_differs :
  exists sl,
    EnergyAware.EADC_costs EnergyAware.SimulationConfig_default
      scenario_task scenario_variant_servers = Some scenario_costs
    /\ EnergyAware.EADC_scores EnergyAware.SimulationConfig_default
         scenario_task scenario_variant_servers scenario_costs
       = Some scenario_variant_scores
    /\ dict_get scenario_variant_scores MOBILE = Some sl
    /\ ~ xeq sl
          (spec_score
             (EnergyAware.alpha EnergyAware.SimulationConfig_default)
             (EnergyAware.beta EnergyAware.SimulationConfig_default)
             (EnergyAware.delay_sensitivity scenario_task)
             (EnergyAware.deadline scenario_task)
             (EnergyAware.c_time_at scenario_costs)
             (EnergyAware.c_energy_at scenario_costs) MOBILE).
Proof.
  eexists.
  split; [vm_compute; reflexivity|].
  split; [vm_compute; reflexivity|].
  split; [vm_compute; reflexivity|].
  vm_compute. discriminate.
Qed.

(** ** GreedyDeadline *)

Lemma greedy_deadline_select_direct (l e c deadline : Q) :
  EnergyAware.greedy_deadline_select
    [(MOBILE, l); (EDGE, e); (CLOUD, c)] deadline
  = dict_min Qltb [(MOBILE, l); (EDGE, e); (CLOUD, c)].
Proof.
  unfold EnergyAware.greedy_deadline_select, dict_min; cbn [filter snd].
  destruct (Qle_bool l deadline) eqn:El;
    [apply Qle_bool_iff in El | apply Qle_bool_gt in El];
  (destruct (Qle_bool e deadline) eqn:Ee;
    [apply Qle_bool_iff in Ee | apply Qle_bool_gt in Ee]);
  (destruct (Qle_bool c deadline) eqn:Ec;
    [apply Qle_bool_iff in Ec | apply Qle_bool_gt in Ec]);
  cbn [min_from fst snd]; qcases; try reflexivity; exfalso; lra.
Qed.

Lemma greedy_deadline_decide_min (est : Estimates) :
  exists d,
    greedy_deadline_decide est = Some d
    /\ forall k, time_at est d <= time_at est k.
Proof.
  unfold greedy_deadline_decide, times_of.
  destruct (dict_min3_q (local_time est) (edge_time est) (cloud_time est))
    as (d & Hd & Hle).
  exists d. split; [exact Hd|].
  intro k. specialize (Hle k). destruct d, k; exact Hle.
Qed.

(** C9 (as amended). The two GreedyDeadline selections agree on the
    same estimates.  On any three estimated times and any deadline, the
    selection of
    [GreedyDeadlineAlgorithm.decide] (fastest among the locations that
    meet the deadline, overall fastest when none does) returns what the
    GREEDY_DEADLINE branch of [run_simulation] returns (the first
    minimum of the three times); that location exists and no location
    has a smaller estimated time.  [GreedyDeadlineAlgorithm.decide]
    itself returns that direct minimum of its own three estimates.
    Nothing is said of the two scripts on the same task: each computes
    the three estimates with its own cost model. *)
Theorem greedy_deadline_variants_agree :
  (forall (est : Estimates) (deadline : Q),
      EnergyAware.greedy_deadline_select (times_of est) deadline
      = greedy_deadline_decide est)
  /\ (forall est : Estimates,
        exists d,
          greedy_deadline_decide est = Some d
          /\ forall k, time_at est d <= time_at est k)
  /\ (forall (config : EnergyAware.SimulationConfig)
             (task : EnergyAware.Task)
             (servers : list EnergyAware.EdgeServer) (lt et ct : Q),
        EnergyAware.estimate_local_time config task = Some lt ->
        EnergyAware.estimate_edge_time config task servers = Some et ->
        EnergyAware.estimate_cloud_time config task = Some ct ->
        exists d,
          EnergyAware.GreedyDeadlineAlgorithm_decide config task servers
            = Some d
          /\ dict_min Qltb [(MOBILE, lt); (EDGE, et); (CLOUD, ct)] = Some d
          /\ forall k, dict3_at lt et ct d <= dict3_at lt et ct k).
Proof.
  split; [|split].
  - intros est deadline. apply greedy_deadline_select_direct.
  - apply greedy_deadline_decide_min.
  - intros config task servers lt et ct Hl He Hc.
    unfold EnergyAware.GreedyDeadlineAlgorithm_decide.
    rewrite Hl, He, Hc. cbn [obind].
    rewrite greedy_deadline_select_direct.
    destruct (dict_min3_q lt et ct) as (d & Hd & Hle).
    exists d. auto.
Qed.

Lemma greedy_deadline_variants_agree_witness :
  EnergyAware.estimate_local_time EnergyAware.SimulationConfig_default
    scenario_task = Some (EnergyAware.c_local_time scenario_costs)
  /\ EnergyAware.estimate_edge_time EnergyAware.SimulationConfig_default
       scenario_task scenario_variant_servers
     = Some (EnergyAware.c_edge_time scenario_costs)
  /\ EnergyAware.estimate_cloud_time EnergyAware.SimulationConfig_default
       scenario_task = Some (EnergyAware.c_cloud_time scenario_costs)
  /\ exists d,
       EnergyAware.GreedyDeadlineAlgorithm_decide
         EnergyAware.SimulationConfig_default scenario_task
         scenario_variant_servers = Some d.
Proof.
  assert (H1 : EnergyAware.estimate_local_time
                 EnergyAware.SimulationConfig_default scenario_task
               = Some (EnergyAware.c_local_time scenario_costs))
    by (vm_compute; reflexivity).
  assert (H2 : EnergyAware.estimate_edge_time
                 EnergyAware.SimulationConfig_default scenario_task
                 scenario_variant_servers
               = Some (EnergyAware.c_edge_time scenario_costs))
    by (vm_compute; reflexivity).
  assert (H3 : EnergyAware.estimate_cloud_time
                 EnergyAware.SimulationConfig_default scenario_task
               = Some (EnergyAware.c_cloud_time scenario_costs))
    by (vm_compute; reflexivity).
  split; [exact H1|]. split; [exact H2|]. split; [exact H3|].
  destruct (proj2 (proj2 greedy_deadline_variants_agree)
              EnergyAware.SimulationConfig_default scenario_task
              scenario_variant_servers _ _ _ H1 H2 H3) as (d & Hd & _).
  exists d. exact Hd.
Defined.

(** C9, the claim as stated fails.  Both scripts see the same task (100
    MI, 750 KB, deadline 1 s) under the same parameters, with fresh
    servers.  [run_simulation] counts the WLAN delay twice and estimates
    0.125, 0.13 and 0.4425 s for Local, Edge and Cloud, so its
    GREEDY_DEADLINE branch decides Local; [GreedyDeadlineAlgorithm.decide]
    counts the transmission once and estimates 0.1, 0.07 and 0.3225 s,
    so it returns Edge. *)
Theorem greedy_deadline_variants_differ :
  (exists e st log,
      estimate_costs shared_config 100 (init_servers shared_config)
        shared_event = Some (0%nat, e)
      /\ local_time e == 0.125 /\ edge_time e == 0.13
      /\ cloud_time e == 0.4425
      /\ greedy_deadline_decide e = Some MOBILE
      /\ process_event GREEDY_DEADLINE 100 shared_config
           (fresh_state shared_config greedy_rng) shared_event
         = Some (st, log)
      /\ decided log = Some MOBILE)
  /\ (exists lt et ct,
        EnergyAware.estimate_local_time EnergyAware.SimulationConfig_default
          shared_task = Some lt
        /\ lt == 0.1
        /\ EnergyAware.estimate_edge_time EnergyAware.SimulationConfig_default
             shared_task shared_variant_servers = Some et
        /\ et == 0.07
        /\ EnergyAware.estimate_cloud_time
             EnergyAware.SimulationConfig_default shared_task = Some ct
        /\ ct == 0.3225)
  /\ EnergyAware.GreedyDeadlineAlgorithm_decide
       EnergyAware.SimulationConfig_default shared_task
       shared_variant_servers = Some EDGE.
Proof.
  split; [|split].
  - destruct (estimate_costs shared_config 100 (init_servers shared_config)
                shared_event) as [[idx e]|] eqn:E;
      [|vm_compute in E; discriminate].
    destruct (process_event GREEDY_DEADLINE 100 shared_config
                (fresh_state shared_config greedy_rng) shared_event)
      as [[st log]|] eqn:P; [|vm_compute in P; discriminate].
    exists e, st, log.
    vm_compute in E. injection E as <- <-.
    vm_compute in P. injection P as <- <-.
    repeat split; reflexivity.
  - eexists; eexists; eexists. split; [vm_compute; reflexivity|].
    split; [reflexivity|]. split; [vm_compute; reflexivity|].
    split; [reflexivity|]. split; [vm_compute; reflexivity | reflexivity].
  - vm_compute. reflexivity.
Qed.

(** C8 (as amended). At every decision GreedyDeadline returns a location
    whose estimated time is at most that of the location Random draws,
    whatever the draw; so whenever the estimate of Random's location is
    within the deadline, so is the estimate of GreedyDeadline's.  Nothing
    is said of the realised deadline-satisfaction rates. *)
Theorem greedy_deadline_estimate_le_random (est : Estimates) (g : Rng)
  (deadline : Q) :
  exists d,
    greedy_deadline_decide est = Some d
    /\ time_at est d <= time_at est (fst (random_decide g))
    /\ (time_at est (fst (random_decide g)) <= deadline ->
        time_at est d <= deadline).
Proof.
  destruct (greedy_deadline_decide_min est) as (d & Hd & Hle).
  exists d. split; [exact Hd|]. split; [apply Hle|].
  intro H. specialize (Hle (fst (random_decide g))). lra.
Qed.

Lemma greedy_deadline_estimate_le_random_witness :
  time_at scenario_estimates (fst (random_decide scenario_rng))
    <= 2
  /\ exists d,
       greedy_deadline_decide scenario_estimates = Some d
       /\ time_at scenario_estimates d <= 2.
Proof.
  assert (H : time_at scenario_estimates (fst (random_decide scenario_rng))
              <= 2) by (vm_compute; discriminate).
  split; [exact H|].
  destruct (greedy_deadline_estimate_le_random scenario_estimates
              scenario_rng 2) as (d & Hd & _ & Himp).
  exists d. split; [exact Hd | exact (Himp H)].
Defined.

(** C8, the claim as stated fails.  One server of depth 1; both runs see
    the same two tasks, the same jitter and the same server state at
    each of the two decisions (fresh servers, then the servers left by
    admitting the first task).  GreedyDeadline sends the second task to
    Edge, whose estimate is the smallest, is re-routed to Cloud because
    the queue is full and misses the deadline; Random draws Local and
    meets it.  The rates are 1/2 and 1. *)
Lemma greedy_deadline_rate_below_random :
  exists rg rr sg lg sr lr,
    run_simulation GREEDY_DEADLINE 2 single_server_config race_events
      greedy_rng = Some rg
    /\ run_simulation RANDOM 2 single_server_config race_events
         random_rng = Some rr
    /\ process_event GREEDY_DEADLINE 2 single_server_config
         (fresh_state single_server_config greedy_rng) race_first
       = Some (sg, lg)
    /\ process_event RANDOM 2 single_server_config
         (fresh_state single_server_config random_rng) race_first
       = Some (sr, lr)
    /\ st_servers sg = st_servers sr
    /\ deadline_rate rg == 1 # 2
    /\ deadline_rate rr == 1
    /\ deadline_rate rg < deadline_rate rr.
Proof.
  do 6 eexists.
  split; [vm_compute; reflexivity|].
  split; [vm_compute; reflexivity|].
  split; [vm_compute; reflexivity|].
  split; [vm_compute; reflexivity|].
  split; [reflexivity|].
  split; [vm_compute; reflexivity|].
  split; vm_compute; reflexivity.
Qed.

(** ** The warm-up period *)

Lemma update_is_no_admission s t :
  (get_queue_length (update s t) <= get_queue_length s)%nat
  /\ total_busy_time (update s t) = total_busy_time s
  /\ next_available (update s t) = next_available s.
Proof.
  split; [apply update_queue_length|]. split; reflexivity.
Qed.

(** C6 (as amended). An event that arrives before the warm-up period is
    skipped: [run_simulation] advances every server to the arrival time
    with [update], which admits nothing, and then leaves the results
    and the generator as they were, without taking a decision;
    [EnergyAwareSimulator.run_simulation] leaves the task, the servers
    and the generator untouched, and no such task enters its
    statistics. *)
Theorem warm_up_events_are_skipped :
  (forall (policy : Policy) (nd : nat) (cfg : SimConfig) (st : SimState)
          (ev : Event),
      ev_t ev < warm_up_period cfg ->
      process_event policy nd cfg st ev
      = Some (mkSimState (map (fun s => update s (ev_t ev)) (st_servers st))
                (st_results st) (st_rng st),
              mkStepLog None SkippedWarmUp))
  /\ (forall (s : EdgeServer) (t : Q),
        (get_queue_length (update s t) <= get_queue_length s)%nat
        /\ total_busy_time (update s t) = total_busy_time s
        /\ next_available (update s t) = next_available s)
  /\ (forall (policy : Policy) (config : EnergyAware.SimulationConfig)
             (task : EnergyAware.Task)
             (servers : list EnergyAware.EdgeServer) (g : Rng),
        EnergyAware.creation_time task < EnergyAware.warm_up_period config ->
        EnergyAware.process_task policy config task servers g
        = Some (task, servers, g))
  /\ (forall (config : EnergyAware.SimulationConfig)
             (tasks : list EnergyAware.Task) (task : EnergyAware.Task),
        In task (EnergyAware.valid_tasks config tasks) ->
        EnergyAware.warm_up_period config <= EnergyAware.creation_time task).
Proof.
  split; [|split; [|split]].
  - intros policy nd cfg st ev H. unfold process_event.
    apply Qltb_lt in H. now rewrite H.
  - apply update_is_no_admission.
  - intros policy config task servers g H. unfold EnergyAware.process_task.
    apply Qltb_lt in H. now rewrite H.
  - intros config tasks task H. unfold EnergyAware.valid_tasks in H.
    apply filter_In in H. destruct H as [_ H].
    apply andb_prop in H. destruct H as [H _].
    apply negb_true_iff in H. now apply Qltb_ge.
Qed.

Lemma warm_up_events_are_skipped_witness :
  ev_t warm_up_event < warm_up_period SimConfig_default
  /\ process_event EDGE_ONLY 100 SimConfig_default
       (fresh_state SimConfig_default greedy_rng) warm_up_event
     = Some (mkSimState
               (map (fun s => update s (ev_t warm_up_event))
                    (init_servers SimConfig_default))
               Results_init greedy_rng,
             mkStepLog None SkippedWarmUp).
Proof.
  assert (H : ev_t warm_up_event < warm_up_period SimConfig_default)
    by (vm_compute; reflexivity).
  split; [exact H|].
  exact (proj1 warm_up_events_are_skipped EDGE_ONLY 100%nat SimConfig_default
           (fresh_state SimConfig_default greedy_rng) warm_up_event H).
Defined.

(** C6, the claim as stated fails.  Under EDGE_ONLY an event at t = 10,
    inside the warm-up period of 30, takes no decision and leaves every
    queue empty; the same event treated as a post-warm-up one (warm-up
    period 0) is decided Edge and admitted to the first server. *)
Lemma warm_up_event_is_not_admitted :
  exists st1 log1 st2 log2,
    process_event EDGE_ONLY 100 SimConfig_default
      (fresh_state SimConfig_default greedy_rng) warm_up_event
    = Some (st1, log1)
    /\ decided log1 = None
    /\ map get_queue_length (st_servers st1) = [0; 0; 0; 0; 0]%nat
    /\ process_event EDGE_ONLY 100 (with_warm_up SimConfig_default 0)
         (fresh_state SimConfig_default greedy_rng) warm_up_event
       = Some (st2, log2)
    /\ decided log2 = Some EDGE
    /\ path log2 = AdmittedToEdge
    /\ map get_queue_length (st_servers st2) = [1; 0; 0; 0; 0]%nat
    /\ st_servers st1 <> st_servers st2.
Proof.
  do 4 eexists.
  split; [vm_compute; reflexivity|].
  split; [reflexivity|].
  split; [reflexivity|].
  split; [vm_compute; reflexivity|].
  split; [reflexivity|].
  split; [reflexivity|].
  split; [reflexivity|].
  discriminate.
Qed.

(** ** The edge commit branch *)

Lemma record_outcome_counters nd deadline actual_time energy r g :
  local (fst (record_outcome nd deadline actual_time energy r g)) = local r
  /\ edge (fst (record_outcome nd deadline actual_time energy r g)) = edge r
  /\ cloud (fst (record_outcome nd deadline actual_time energy r g)) = cloud r
  /\ edge_rejected (fst (record_outcome nd deadline actual_time energy r g))
     = edge_rejected r.
Proof.
  unfold record_outcome. cbn [random].
  destruct (Qltb _ _); cbn; auto.
Qed.

Lemma commit_paths nd ev idx e decision st st' p :
  commit nd ev idx e decision st = Some (st', p) ->
  p <> SubmitRejected
  /\ (p = ReroutedToCloud <->
      decision = EDGE
      /\ exists best,
           nth_error (st_servers st) idx = Some best
           /\ can_accept_task best = false)
  /\ (p = ReroutedToCloud ->
      st_servers st' = st_servers st
      /\ cloud (st_results st') = S (cloud (st_results st))
      /\ edge_rejected (st_results st') = S (edge_rejected (st_results st))
      /\ edge (st_results st') = edge (st_results st))
  /\ (p = AdmittedToEdge ->
      edge (st_results st') = S (edge (st_results st))
      /\ edge_rejected (st_results st') = edge_rejected (st_results st)).
Proof.
  unfold commit. intro H.
  destruct decision.
  - (* MOBILE *)
    cbn [jitter random] in H.
    destruct (record_outcome _ _ _ _ _ _) as [res' g3].
    injection H as <- <-.
    repeat split; try discriminate; intros; try discriminate.
    destruct H as [H _]; discriminate.
  - (* EDGE *)
    destruct (nth_error (st_servers st) idx) as [best|] eqn:Eb;
      cbn [obind] in H; [|discriminate].
    destruct (can_accept_task best) eqn:Eacc; cbn [negb] in H.
    + destruct (submit_task_accepted best (ev_t ev) (edge_processing e) Eacc)
        as (total & Hs & _).
      rewrite Hs in H. cbn [obind jitter random] in H.
      destruct (record_outcome _ _ _ _ _ _) as [res' g3] eqn:Er.
      injection H as <- <-.
      match type of Er with
      | record_outcome ?a ?b ?c ?d ?r ?g = _ =>
          pose proof (record_outcome_counters a b c d r g) as Hc
      end.
      rewrite Er in Hc. cbn [fst] in Hc.
      destruct Hc as (_ & Hedge & _ & Hrej).
      repeat split; try discriminate; intros; try discriminate;
        cbn [st_results]; try assumption.
      destruct H as (_ & b & Hb & Hf). congruence.
    + cbn [jitter random] in H.
      destruct (record_outcome _ _ _ _ _ _) as [res' g3] eqn:Er.
      injection H as <- <-.
      match type of Er with
      | record_outcome ?a ?b ?c ?d ?r ?g = _ =>
          pose proof (record_outcome_counters a b c d r g) as Hc
      end.
      rewrite Er in Hc. cbn [fst] in Hc.
      destruct Hc as (_ & Hedge & Hcloud & Hrej).
      repeat split; try discriminate; intros; try discriminate;
        cbn [st_results st_servers]; try assumption; try reflexivity.
      exists best. split; [reflexivity | assumption].
  - (* CLOUD *)
    cbn [jitter random] in H.
    destruct (record_outcome _ _ _ _ _ _) as [res' g3].
    injection H as <- <-.
    repeat split; try discriminate; intros; try discriminate.
    destruct H as [H _]; discriminate.
Qed.

Lemma decide_total policy cfg ev servers best e g :
  exists d g', decide policy cfg ev servers best e g = Some (d, g').
Proof.
  destruct policy; cbn [decide].
  - destruct (eadc_decide_spec cfg (ev_app ev) (ev_deadline ev) (ev_t ev)
                servers best e) as (d & -> & _).
    cbn [obind]. eauto.
  - unfold greedy_energy_decide, energies_of.
    destruct (dict_min3_q (local_energy e) (edge_energy e) (cloud_energy e))
      as (d & -> & _).
    cbn [obind]. eauto.
  - destruct (greedy_deadline_decide_min e) as (d & -> & _).
    cbn [obind]. eauto.
  - destruct (random_decide g) as [d g'] eqn:E. eauto.
  - eauto.
Qed.

Lemma commit_total nd ev idx e decision st best :
  nth_error (st_servers st) idx = Some best ->
  exists st' p, commit nd ev idx e decision st = Some (st', p).
Proof.
  intro Hb. unfold commit.
  destruct decision.
  - cbn [jitter random].
    destruct (record_outcome _ _ _ _ _ _) as [res' g3]. eauto.
  - rewrite Hb. cbn [obind].
    destruct (can_accept_task best) eqn:Eacc; cbn [negb].
    + destruct (submit_task_accepted best (ev_t ev) (edge_processing e) Eacc)
        as (total & -> & _).
      cbn [obind jitter random].
      destruct (record_outcome _ _ _ _ _ _) as [res' g3]. eauto.
    + cbn [jitter random].
      destruct (record_outcome _ _ _ _ _ _) as [res' g3]. eauto.
  - cbn [jitter random].
    destruct (record_outcome _ _ _ _ _ _) as [res' g3]. eauto.
Qed.

Lemma map_not_nil {A B} (f : A -> B) (l : list A) : l <> [] -> map f l <> [].
Proof. destruct l; simpl; congruence. Qed.

Lemma process_event_total policy nd cfg st ev :
  st_servers st <> [] ->
  nonzero_capacities cfg = true ->
  exists st' log, process_event policy nd cfg st ev = Some (st', log).
Proof.
  intros Hne Hcfg. unfold process_event.
  destruct (Qltb (ev_t ev) (warm_up_period cfg)); [eauto|].
  pose proof (map_not_nil (fun s => update s (ev_t ev)) _ Hne) as Hne'.
  destruct (estimate_costs_total cfg nd _ ev Hne' Hcfg)
    as (idx & best & e & -> & Hbest & _).
  cbn [obind]. rewrite Hbest. cbn [obind].
  destruct (decide_total policy cfg ev
              (map (fun s => update s (ev_t ev)) (st_servers st)) best e
              (st_rng st)) as (d & g' & ->).
  cbn [obind].
  destruct (commit_total nd ev idx e d
              (mkSimState (map (fun s => update s (ev_t ev)) (st_servers st))
                 (st_results st) g') best Hbest) as (st' & p & ->).
  cbn [obind]. eauto.
Qed.

Lemma process_event_path policy nd cfg st ev st' log :
  process_event policy nd cfg st ev = Some (st', log) ->
  path log <> SubmitRejected.
Proof.
  unfold process_event. intro H.
  destruct (Qltb (ev_t ev) (warm_up_period cfg)).
  - injection H as _ <-. discriminate.
  - obind_inv H. destruct v as [idx e].
    obind_inv H. obind_inv H. destruct v0 as [d g].
    obind_inv H. destruct v0 as [st1 p].
    injection H as _ <-. cbn [path].
    now apply commit_paths in Hv2.
Qed.

(** C10. In the loop body [submit_task] is only reached on the branch
    where [can_accept_task] of the same, unchanged server has answered
    true, and there it never rejects.  So a committed event never goes
    through the post-submit rejection branch; it is re-routed to Cloud,
    with [cloud] and [edge_rejected] incremented, [edge] and the servers
    unchanged, exactly when the decision is Edge and the best server
    cannot accept; and every event of a run with servers and non-zero
    capacities is processed through one of the other branches. *)
Theorem post_submit_rejection_unreachable :
  (forall (s : EdgeServer) (now pt : Q),
      can_accept_task s = true ->
      exists total s', submit_task s now pt = ((Some total, false), s'))
  /\ (forall (nd : nat) (ev : Event) (idx : nat) (e : Estimates)
             (decision : DeviceType) (st st' : SimState) (p : Path),
        commit nd ev idx e decision st = Some (st', p) ->
        p <> SubmitRejected
        /\ (p = ReroutedToCloud <->
            decision = EDGE
            /\ exists best,
                 nth_error (st_servers st) idx = Some best
                 /\ can_accept_task best = false)
        /\ (p = ReroutedToCloud ->
            st_servers st' = st_servers st
            /\ cloud (st_results st') = S (cloud (st_results st))
            /\ edge_rejected (st_results st')
               = S (edge_rejected (st_results st))
            /\ edge (st_results st') = edge (st_results st))
        /\ (p = AdmittedToEdge ->
            edge (st_results st') = S (edge (st_results st))
            /\ edge_rejected (st_results st')
               = edge_rejected (st_results st)))
  /\ (forall (policy : Policy) (nd : nat) (cfg : SimConfig)
             (st st' : SimState) (ev : Event) (log : StepLog),
        process_event policy nd cfg st ev = Some (st', log) ->
        path log <> SubmitRejected)
  /\ (forall (policy : Policy) (nd : nat) (cfg : SimConfig) (st : SimState)
             (ev : Event),
        st_servers st <> [] ->
        nonzero_capacities cfg = true ->
        exists st' log,
          process_event policy nd cfg st ev = Some (st', log)
          /\ path log <> SubmitRejected).
Proof.
  split; [|split; [|split]].
  - intros s now pt H.
    destruct (submit_task_accepted s now pt H) as (total & Hs & _). eauto.
  - intros. eapply commit_paths; eassumption.
  - intros. eapply process_event_path; eassumption.
  - intros policy nd cfg st ev Hne Hcfg.
    destruct (process_event_total policy nd cfg st ev Hne Hcfg)
      as (st' & log & H).
    exists st', log. split; [exact H|].
    eapply process_event_path; eassumption.
Qed.

Lemma post_submit_rejection_unreachable_witness :
  can_accept_task scenario_server = true
  /\ (exists total s',
         submit_task scenario_server 0 scenario_pt = ((Some total, false), s'))
  /\ st_servers (fresh_state single_server_config greedy_rng) <> []
  /\ nonzero_capacities single_server_config = true
  /\ exists st' log,
       process_event GREEDY_DEADLINE 2 single_server_config
         (fresh_state single_server_config greedy_rng) race_first
       = Some (st', log)
       /\ path log <> SubmitRejected.
Proof.
  assert (H1 : can_accept_task scenario_server = true) by reflexivity.
  assert (H2 : st_servers (fresh_state single_server_config greedy_rng) <> [])
    by (vm_compute; discriminate).
  assert (H3 : nonzero_capacities single_server_config = true)
    by reflexivity.
  split; [exact H1|].
  split; [exact (proj1 post_submit_rejection_unreachable scenario_server 0
                   scenario_pt H1)|].
  split; [exact H2|]. split; [exact H3|].
  exact (proj2 (proj2 (proj2 post_submit_rejection_unreachable))
           GREEDY_DEADLINE 2%nat single_server_config
           (fresh_state single_server_config greedy_rng) race_first H2 H3).
Defined.

(** * Further properties of the engine *)

(** ** Advancing a server *)

Lemma drop_finished_all na t q :
  Qle_bool na t = true -> drop_finished na t q = [].
Proof.
  intro H. induction q as [|h r IH]; simpl; [reflexivity|].
  now rewrite H.
Qed.

(** X2. A server advanced to its [next_available] time or beyond is
    idle: its queue is empty, its wait estimate at that time is zero,
    and it accepts a task as soon as its depth is positive. *)
Theorem update_past_next_available (s : EdgeServer) (t : Q) :
  next_available s <= t ->
  queued_processing_times (update s t) = []
  /\ estimate_wait_time (update s t) t == 0
  /\ ((0 < max_queue s)%Z -> can_accept_task (update s t) = true).
Proof.
  intro H.
  assert (Hq : queued_processing_times (update s t) = []).
  { unfold update; cbn [queued_processing_times].
    apply Qle_bool_iff in H.
    rewrite (drop_finished_all _ _ _ H). reflexivity. }
  split; [exact Hq|]. split.
  - unfold estimate_wait_time. rewrite Hq.
    change (next_available (update s t)) with (next_available s).
    unfold py_max, py_sum; cbn [fold_left]. qcases; lra.
  - intro Hm. unfold can_accept_task. rewrite Hq.
    change (max_queue (update s t)) with (max_queue s).
    apply Z.ltb_lt. exact Hm.
Qed.

Lemma update_past_next_available_witness :
  next_available scenario_busy <= 2
  /\ queued_processing_times (update scenario_busy 2) = []
  /\ estimate_wait_time (update scenario_busy 2) 2 == 0
  /\ can_accept_task (update scenario_busy 2) = true.
Proof.
  assert (H : next_available scenario_busy <= 2) by (vm_compute; discriminate).
  destruct (update_past_next_available scenario_busy 2 H) as (H1 & H2 & H3).
  split; [exact H|]. split; [exact H1|]. split; [exact H2|].
  apply H3. vm_compute. reflexivity.
Defined.

(** ** Time and busy-time accounting *)

Lemma estimate_wait_nonneg s t :
  nonneg_queue s -> 0 <= estimate_wait_time s t.
Proof.
  intro H. unfold estimate_wait_time.
  pose proof (py_sum_nonneg _ H).
  pose proof (py_max_ge_l 0 (next_available s - t)). lra.
Qed.

Lemma run_op_clock_monotone s o :
  nonneg_queue s -> op_nonneg o ->
  next_available s <= next_available (run_op s o)
  /\ total_busy_time s <= total_busy_time (run_op s o).
Proof.
  intros Hq Ho.
  destruct o as [| now | now | | now pt | now]; cbn [run_op op_nonneg] in *;
    try (split; lra).
  - destruct (can_accept_task s) eqn:E.
    + destruct (submit_task_accepted s now pt E) as (total & -> & Ht).
      cbn [snd next_available total_busy_time].
      pose proof (estimate_wait_nonneg s now Hq) as Hw.
      pose proof (py_sum_nonneg _ Hq) as HS.
      unfold estimate_wait_time in Ht.
      pose proof (py_max_ge_r 0 (next_available s - now)).
      split; lra.
    + rewrite submit_task_rejected by assumption. cbn [snd]. split; lra.
  - unfold update; cbn [next_available total_busy_time]. split; lra.
Qed.

Lemma run_ops_clock_monotone ops : forall s,
  nonneg_queue s -> Forall op_nonneg ops ->
  next_available s <= next_available (run_ops s ops)
  /\ total_busy_time s <= total_busy_time (run_ops s ops).
Proof.
  unfold run_ops.
  induction ops as [|o r IH]; intros s Hq Ho; simpl; [split; lra|].
  inversion Ho as [|? ? Hop Hrest]; subst.
  destruct (run_op_clock_monotone s o Hq Hop) as [Ha Hb].
  destruct (IH (run_op s o)) as [Hc Hd];
    [now apply run_op_nonneg | assumption |].
  split; lra.
Qed.

(** X3. Along any sequence of operations that submits only non-negative
    processing times, [next_available] and [total_busy_time] of a server
    never decrease. *)
Theorem clock_and_busy_time_never_decrease (s : EdgeServer)
  (ops : list server_op) :
  nonneg_queue s ->
  Forall op_nonneg ops ->
  next_available s <= next_available (run_ops s ops)
  /\ total_busy_time s <= total_busy_time (run_ops s ops).
Proof. intros Hq Ho. now apply run_ops_clock_monotone. Qed.

Lemma clock_and_busy_time_never_decrease_witness :
  nonneg_queue scenario_busy
  /\ Forall op_nonneg [OpUpdate 1; OpSubmit 1 3; OpUpdate 5; OpSubmit 6 1]
  /\ next_available scenario_busy
     <= next_available
          (run_ops scenario_busy
             [OpUpdate 1; OpSubmit 1 3; OpUpdate 5; OpSubmit 6 1])
  /\ total_busy_time scenario_busy
     <= total_busy_time
          (run_ops scenario_busy
             [OpUpdate 1; OpSubmit 1 3; OpUpdate 5; OpSubmit 6 1]).
Proof.
  assert (H1 : nonneg_queue scenario_busy).
  { unfold nonneg_queue. vm_compute. repeat constructor; discriminate. }
  assert (H2 : Forall op_nonneg
                 [OpUpdate 1; OpSubmit 1 3; OpUpdate 5; OpSubmit 6 1]).
  { repeat constructor; simpl; lra. }
  split; [exact H1|]. split; [exact H2|].
  exact (clock_and_busy_time_never_decrease scenario_busy _ H1 H2).
Defined.

Lemma get_utilization_le_100 s t : get_utilization s t <= 100.
Proof. unfold get_utilization, py_min. qcases; lra. Qed.

Lemma get_utilization_nonneg s t :
  0 <= total_busy_time s -> 0 <= get_utilization s t.
Proof.
  intro Hb. unfold get_utilization, py_min.
  destruct (Qle_bool t 0) eqn:Et; [lra|].
  apply Qle_bool_gt in Et.
  assert (0 <= total_busy_time s / t) by (apply Qle_shift_div_l; lra).
  qcases; lra.
Qed.

(** X4. The utilization of a server reached from a fresh one by
    operations that submit non-negative processing times is a percentage:
    it lies between 0 and 100 at every time, and is 0 at every time that
    is not positive. *)
Theorem utilization_is_a_percentage (sid : nat) (m : Q) (mq : Z)
  (ops : list server_op) (t : Q) :
  Forall op_nonneg ops ->
  0 <= get_utilization (run_ops (EdgeServer_init sid m mq) ops) t
  /\ get_utilization (run_ops (EdgeServer_init sid m mq) ops) t <= 100
  /\ (t <= 0 ->
      get_utilization (run_ops (EdgeServer_init sid m mq) ops) t = 0).
Proof.
  intro Ho.
  assert (Hb : 0 <= total_busy_time (run_ops (EdgeServer_init sid m mq) ops)).
  { destruct (run_ops_clock_monotone ops (EdgeServer_init sid m mq))
      as [_ H]; [constructor | exact Ho |].
    cbn [EdgeServer_init total_busy_time] in H. exact H. }
  split; [now apply get_utilization_nonneg|].
  split; [apply get_utilization_le_100|].
  intro Ht. unfold get_utilization.
  apply Qle_bool_iff in Ht. now rewrite Ht.
Qed.

Lemma utilization_is_a_percentage_witness :
  Forall op_nonneg [OpSubmit 0 2; OpUpdate 1]
  /\ 0 <= get_utilization
            (run_ops (EdgeServer_init 0 1000 1) [OpSubmit 0 2; OpUpdate 1]) 1
  /\ get_utilization
       (run_ops (EdgeServer_init 0 1000 1) [OpSubmit 0 2; OpUpdate 1]) 1
     <= 100.
Proof.
  assert (H : Forall op_nonneg [OpSubmit 0 2; OpUpdate 1]).
  { repeat constructor; simpl; lra. }
  destruct (utilization_is_a_percentage 0 1000 1 [OpSubmit 0 2; OpUpdate 1]
              1 H) as (H1 & H2 & _).
  split; [exact H|]. split; [exact H1 | exact H2].
Defined.

(** ** Choice of the best server *)

Lemma argmin_from_seq key n : forall a best,
  (best < a)%nat ->
  let i := argmin_from key best (seq a n) in
  (i = best \/ (a <= i < a + n)%nat)
  /\ key i <= key best
  /\ (i <> best -> key i < key best)
  /\ (forall j, (a <= j < a + n)%nat -> key i <= key j)
  /\ (forall j, (a <= j < i)%nat -> key i < key j).
Proof.
  induction n as [|n IH]; intros a best Hb; cbn [seq argmin_from].
  - repeat split; try lra; try lia; try (now left).
  - destruct (Qltb (key a) (key best)) eqn:E.
    + apply Qltb_lt in E.
      destruct (IH (S a) a (Nat.lt_succ_diag_r a)) as (H1 & H2 & H3 & H4 & H5).
      set (i := argmin_from key a (seq (S a) n)) in *.
      split; [right; lia|]. split; [lra|]. split; [intros _; lra|].
      split.
      * intros j Hj. destruct (Nat.eq_dec j a) as [->|Hne]; [exact H2|].
        apply H4. lia.
      * intros j Hj. destruct (Nat.eq_dec j a) as [->|Hne].
        -- apply H3. lia.
        -- apply H5. lia.
    + apply Qltb_ge in E.
      destruct (IH (S a) best (Nat.lt_lt_succ_r _ _ Hb))
        as (H1 & H2 & H3 & H4 & H5).
      set (i := argmin_from key best (seq (S a) n)) in *.
      split; [destruct H1; [now left | right; lia]|].
      split; [exact H2|]. split; [exact H3|]. split.
      * intros j Hj. destruct (Nat.eq_dec j a) as [->|Hne]; [lra|].
        apply H4. lia.
      * intros j Hj. destruct (Nat.eq_dec j a) as [->|Hne].
        -- assert (i <> best) by lia. specialize (H3 H). lra.
        -- apply H5. lia.
Qed.

Lemma wait_at_nth servers t j s :
  nth_error servers j = Some s -> wait_at servers t j = estimate_wait_time s t.
Proof. intro H. unfold wait_at. now rewrite H. Qed.

(** X5. [best_server_idx] is the search for the least loaded server: on
    a non-empty list it returns the index of a server whose wait
    estimate is at most that of every server and strictly below that of
    every server before it; on an empty list there is no result. *)
Theorem best_server_is_first_least_loaded (servers : list EdgeServer)
  (t : Q) :
  (servers = [] -> best_server_idx servers t = None)
  /\ (servers <> [] ->
      exists i best,
        best_server_idx servers t = Some i
        /\ nth_error servers i = Some best
        /\ (forall j s, nth_error servers j = Some s ->
                        estimate_wait_time best t <= estimate_wait_time s t)
        /\ (forall j s, (j < i)%nat -> nth_error servers j = Some s ->
                        estimate_wait_time best t < estimate_wait_time s t)).
Proof.
  split; [intros ->; reflexivity|].
  intro Hne.
  destruct (best_server_idx_total servers t Hne) as (i & best & Hi & Hb).
  exists i, best. split; [exact Hi|]. split; [exact Hb|].
  unfold best_server_idx, min_range in Hi.
  destruct servers as [|s0 r]; [congruence|].
  cbn [length seq] in Hi. injection Hi as Hi.
  pose proof (argmin_from_seq (wait_at (s0 :: r) t) (length r) 1 0
                (Nat.lt_0_succ 0)) as H.
  cbn zeta in H. rewrite Hi in H.
  destruct H as (H1 & H2 & H3 & H4 & H5).
  rewrite (wait_at_nth _ _ _ _ Hb) in *.
  split.
  - intros j s Hj. rewrite <- (wait_at_nth _ t _ _ Hj).
    destruct j as [|j]; [exact H2|].
    apply H4.
    assert (Hl : (S j < length (s0 :: r))%nat)
      by (apply nth_error_Some; congruence).
    cbn [length] in Hl. lia.
  - intros j s Hlt Hj. rewrite <- (wait_at_nth _ t _ _ Hj).
    destruct j as [|j].
    + apply H3. lia.
    + apply H5. lia.
Qed.

Lemma best_server_is_first_least_loaded_witness :
  [scenario_busy; scenario_server; scenario_server] <> []
  /\ exists i best,
       best_server_idx [scenario_busy; scenario_server; scenario_server] 0
       = Some i
       /\ nth_error [scenario_busy; scenario_server; scenario_server] i
          = Some best
       /\ estimate_wait_time best 0 <= estimate_wait_time scenario_busy 0.
Proof.
  assert (H : [scenario_busy; scenario_server; scenario_server] <> [])
    by discriminate.
  split; [exact H|].
  destruct (proj2 (best_server_is_first_least_loaded
                     [scenario_busy; scenario_server; scenario_server] 0) H)
    as (i & best & Hi & Hb & Hle & _).
  exists i, best. split; [exact Hi|]. split; [exact Hb|].
  exact (Hle 0%nat scenario_busy eq_refl).
Defined.

(** ** GreedyEnergy *)

Lemma dict_min3_q_first (a b c : Q) d :
  dict_min Qltb [(MOBILE, a); (EDGE, b); (CLOUD, c)] = Some d ->
  (forall k, dict3_at a b c d <= dict3_at a b c k)
  /\ (d = EDGE -> b < a)
  /\ (d = CLOUD -> c < a /\ c < b).
Proof.
  unfold dict_min, min_from; cbn [fst snd].
  destruct (Qltb b a) eqn:Eba;
    [apply Qltb_lt in Eba | apply Qltb_ge in Eba].
  - destruct (Qltb c b) eqn:Ecb;
      [apply Qltb_lt in Ecb | apply Qltb_ge in Ecb];
      intro H; injection H as <-;
      (split; [intros [| |]; cbn [dict3_at]; lra|]);
      split; intro; try discriminate; try split; lra.
  - destruct (Qltb c a) eqn:Eca;
      [apply Qltb_lt in Eca | apply Qltb_ge in Eca];
      intro H; injection H as <-;
      (split; [intros [| |]; cbn [dict3_at]; lra|]);
      split; intro; try discriminate; try split; lra.
Qed.

(** X6. GreedyEnergy returns a location of least estimated energy, and
    among equally cheap ones the first of Local, Edge, Cloud: in
    [run_simulation] on the estimates of the cost model, and in
    [GreedyEnergyAlgorithm.decide] on its own three energies. *)
Theorem greedy_energy_picks_first_cheapest :
  (forall e : Estimates,
      exists d,
        greedy_energy_decide e = Some d
        /\ (forall k, energy_at e d <= energy_at e k)
        /\ (d = EDGE -> edge_energy e < local_energy e)
        /\ (d = CLOUD ->
            cloud_energy e < local_energy e
            /\ cloud_energy e < edge_energy e))
  /\ (forall (config : EnergyAware.SimulationConfig)
             (task : EnergyAware.Task) (le ee ce : Q),
        EnergyAware.calculate_local_energy config
          (EnergyAware.task_length task) = Some le ->
        EnergyAware.calculate_offload_energy config
          (EnergyAware.input_size task + EnergyAware.output_size task)
          (EnergyAware.task_length task) false = Some ee ->
        EnergyAware.calculate_offload_energy config
          ((EnergyAware.input_size task + EnergyAware.output_size task) * 1.5)
          (EnergyAware.task_length task) true = Some ce ->
        exists d,
          EnergyAware.GreedyEnergyAlgorithm_decide config task = Some d
          /\ (forall k, dict3_at le ee ce d <= dict3_at le ee ce k)
          /\ (d = EDGE -> ee < le)
          /\ (d = CLOUD -> ce < le /\ ce < ee)).
Proof.
  split.
  - intro e. unfold greedy_energy_decide, energies_of.
    destruct (dict_min3_q (local_energy e) (edge_energy e) (cloud_energy e))
      as (d & Hd & _).
    exists d. split; [exact Hd|].
    destruct (dict_min3_q_first _ _ _ _ Hd) as (H1 & H2 & H3).
    split; [|split; assumption].
    intro k. specialize (H1 k). destruct d, k; exact H1.
  - intros config task le ee ce Hl He Hc.
    unfold EnergyAware.GreedyEnergyAlgorithm_decide.
    rewrite Hl, He, Hc. cbn [obind].
    destruct (dict_min3_q le ee ce) as (d & Hd & _).
    exists d. split; [exact Hd|]. exact (dict_min3_q_first _ _ _ _ Hd).
Qed.

Lemma greedy_energy_picks_first_cheapest_witness :
  EnergyAware.calculate_local_energy EnergyAware.SimulationConfig_default
    (EnergyAware.task_length scenario_task)
  = Some (EnergyAware.c_local_energy scenario_costs)
  /\ EnergyAware.calculate_offload_energy EnergyAware.SimulationConfig_default
       (EnergyAware.input_size scenario_task
        + EnergyAware.output_size scenario_task)
       (EnergyAware.task_length scenario_task) false
     = Some (EnergyAware.c_edge_energy scenario_costs)
  /\ EnergyAware.calculate_offload_energy EnergyAware.SimulationConfig_default
       ((EnergyAware.input_size scenario_task
         + EnergyAware.output_size scenario_task) * 1.5)
       (EnergyAware.task_length scenario_task) true
     = Some (EnergyAware.c_cloud_energy scenario_costs)
  /\ exists d,
       EnergyAware.GreedyEnergyAlgorithm_decide
         EnergyAware.SimulationConfig_default scenario_task = Some d.
Proof.
  assert (H1 : EnergyAware.calculate_local_energy
                 EnergyAware.SimulationConfig_default
                 (EnergyAware.task_length scenario_task)
               = Some (EnergyAware.c_local_energy scenario_costs))
    by (vm_compute; reflexivity).
  assert (H2 : EnergyAware.calculate_offload_energy
                 EnergyAware.SimulationConfig_default
                 (EnergyAware.input_size scenario_task
                  + EnergyAware.output_size scenario_task)
                 (EnergyAware.task_length scenario_task) false
               = Some (EnergyAware.c_edge_energy scenario_costs))
    by (vm_compute; reflexivity).
  assert (H3 : EnergyAware.calculate_offload_energy
                 EnergyAware.SimulationConfig_default
                 ((EnergyAware.input_size scenario_task
                   + EnergyAware.output_size scenario_task) * 1.5)
                 (EnergyAware.task_length scenario_task) true
               = Some (EnergyAware.c_cloud_energy scenario_costs))
    by (vm_compute; reflexivity).
  split; [exact H1|]. split; [exact H2|]. split; [exact H3|].
  destruct (proj2 greedy_energy_picks_first_cheapest
              EnergyAware.SimulationConfig_default scenario_task _ _ _
              H1 H2 H3) as (d & Hd & _).
  exists d. exact Hd.
Defined.

(** ** The adaptive policy and deadlines *)

Lemma calc_score_inf a b tn en time energy meets :
  calc_score a b tn en time energy meets = PInf <-> meets = false.
Proof.
  unfold calc_score. destruct meets; cbn [negb]; split; intro H;
    try reflexivity; discriminate.
Qed.

Lemma xscale_inf x f : xscale x f = PInf <-> x = PInf.
Proof. destruct x; simpl; split; intro H; try reflexivity; discriminate. Qed.

Lemma eadc_score_inf_iff cfg app deadline t servers best e k :
  dict_get (eadc_scores cfg app deadline t servers best e) k = Some PInf
  <-> (deadline < time_at e k
       \/ (k = EDGE /\ can_accept_task best = false)).
Proof.
  unfold eadc_scores. rewrite dict3_get.
  destruct k; cbn [dict3_at time_at].
  - split.
    + intro H. injection H as H. apply calc_score_inf in H.
      left. now apply Qle_bool_gt.
    + intros [H|[H _]]; [|discriminate].
      f_equal. apply calc_score_inf. now apply Qle_bool_gt.
  - destruct (can_accept_task best); cbn [negb].
    + split.
      * intro H. injection H as H. left. apply Qle_bool_gt.
        destruct (Qltb 70 (avg_utilization servers t));
          [apply xscale_inf in H|]; now apply calc_score_inf in H.
      * intros [H|[_ H]]; [|discriminate].
        apply Qle_bool_gt in H. f_equal.
        destruct (Qltb 70 (avg_utilization servers t));
          [apply xscale_inf|]; now apply calc_score_inf.
    + split; [intros _; right; now split | reflexivity].
  - split.
    + intro H. injection H as H. apply calc_score_inf in H.
      left. now apply Qle_bool_gt.
    + intros [H|[H _]]; [|discriminate].
      f_equal. apply calc_score_inf. now apply Qle_bool_gt.
Qed.

Lemma eadc_decide_feasible cfg app deadline t servers best e :
  exists d,
    eadc_decide cfg app deadline t servers best e = Some d
    /\ ((exists k, time_at e k <= deadline
                   /\ (k = EDGE -> can_accept_task best = true)) ->
        time_at e d <= deadline)
    /\ (can_accept_task best = false -> d <> EDGE).
Proof.
  destruct (eadc_decide_spec cfg app deadline t servers best e)
    as (d & Hd & Hinf & Hfall).
  exists d. split; [exact Hd|].
  assert (Hcase : dict_get (eadc_scores cfg app deadline t servers best e) d
                  = Some PInf
                  \/ ~ (deadline < time_at e d
                        \/ (d = EDGE /\ can_accept_task best = false))).
  { destruct (Qlt_le_dec deadline (time_at e d)) as [H|H].
    - left. apply eadc_score_inf_iff. now left.
    - destruct (can_accept_task best) eqn:Eacc.
      + right. intros [H'|[_ H']]; [lra | discriminate].
      + destruct d; try (right; intros [H'|[H' _]]; [lra | discriminate]).
        left. apply eadc_score_inf_iff. right. now split. }
  split.
  - intros (k & Hk & Hacc).
    destruct Hcase as [Hs|Hn].
    + specialize (Hinf Hs k). apply eadc_score_inf_iff in Hinf.
      destruct Hinf as [H|[-> H]]; [lra|].
      rewrite (Hacc eq_refl) in H. discriminate.
    + destruct (Qlt_le_dec deadline (time_at e d)) as [H|H]; [|exact H].
      exfalso. apply Hn. now left.
  - intros Hfull Hedge. subst d.
    assert (Hs : dict_get (eadc_scores cfg app deadline t servers best e) EDGE
                 = Some PInf).
    { apply eadc_score_inf_iff. right. now split. }
    specialize (Hfall (Hinf Hs)). rewrite Hfull in Hfall.
    destruct Hfall as [Hne _]. now apply Hne.
Qed.

Lemma variant_score_inf config task c k :
  EnergyAware.variant_score config task c k = PInf
  <-> EnergyAware.deadline task < EnergyAware.c_time_at c k.
Proof.
  unfold EnergyAware.variant_score.
  destruct (Qle_bool (EnergyAware.c_time_at c k) (EnergyAware.deadline task))
    eqn:E.
  - apply Qle_bool_iff in E. split; [discriminate | lra].
  - apply Qle_bool_gt in E. split; [now intros _ | reflexivity].
Qed.

(** X7. The adaptive policy meets the deadline in estimate whenever that
    is possible.  In [run_simulation], if some location has an estimated
    time within the deadline (Edge counting only when the best server
    accepts), the location returned has one too; and Edge is never
    returned while the best server is full.  [EADCAlgorithm.decide],
    whenever it scores, returns a location within the deadline if any of
    the three is. *)
Theorem eadc_meets_deadline_when_possible :
  (forall (cfg : SimConfig) (app : AppType) (deadline t : Q)
          (servers : list EdgeServer) (best : EdgeServer) (e : Estimates),
      exists d,
        eadc_decide cfg app deadline t servers best e = Some d
        /\ ((exists k, time_at e k <= deadline
                       /\ (k = EDGE -> can_accept_task best = true)) ->
            time_at e d <= deadline)
        /\ (can_accept_task best = false -> d <> EDGE))
  /\ (forall (config : EnergyAware.SimulationConfig)
             (task : EnergyAware.Task)
             (servers : list EnergyAware.EdgeServer)
             (c : EnergyAware.Costs) (scores : ddict xQ),
        EnergyAware.EADC_costs config task servers = Some c ->
        EnergyAware.EADC_scores config task servers c = Some scores ->
        exists d,
          EnergyAware.EADCAlgorithm_decide config task servers = Some d
          /\ ((exists k, EnergyAware.c_time_at c k
                         <= EnergyAware.deadline task) ->
              EnergyAware.c_time_at c d <= EnergyAware.deadline task)).
Proof.
  split; [exact eadc_decide_feasible|].
  intros config task servers c scores Hc Hs.
  destruct (EADCAlgorithm_decide_spec config task servers c scores Hc Hs)
    as (d & Hd & Hinf & _).
  exists d. split; [exact Hd|].
  intros (k & Hk).
  destruct (EADC_scores_variant _ _ _ _ _ Hs) as (u & _ & ->).
  assert (Hget : forall j,
             dict_get
               [(MOBILE, EnergyAware.variant_score config task c MOBILE);
                (EDGE,
                 if Qltb 85 u
                 then xscale (EnergyAware.variant_score config task c EDGE)
                             (1 + (u - 85) / 100)
                 else EnergyAware.variant_score config task c EDGE);
                (CLOUD, EnergyAware.variant_score config task c CLOUD)] j
             = Some PInf
             <-> EnergyAware.deadline task < EnergyAware.c_time_at c j).
  { intro j. rewrite dict3_get. rewrite <- variant_score_inf.
    assert (Hsome : forall x y : xQ, Some x = Some y <-> x = y)
      by (intros x y; split; congruence).
    rewrite Hsome.
    destruct j; cbn [dict3_at]; try reflexivity.
    destruct (Qltb 85 u); [apply xscale_inf | reflexivity]. }
  destruct (Qlt_le_dec (EnergyAware.deadline task) (EnergyAware.c_time_at c d))
    as [H|H]; [|exact H].
  apply Hget in H. specialize (Hinf H k). apply Hget in Hinf. lra.
Qed.

Lemma eadc_meets_deadline_when_possible_witness :
  (exists k, time_at scenario_estimates k <= ev_deadline scenario_event
             /\ (k = EDGE -> can_accept_task scenario_server = true))
  /\ (exists d,
         eadc_decide SimConfig_default (ev_app scenario_event)
           (ev_deadline scenario_event) (ev_t scenario_event)
           (init_servers SimConfig_default) scenario_server
           scenario_estimates = Some d
         /\ time_at scenario_estimates d <= ev_deadline scenario_event)
  /\ EnergyAware.EADC_costs EnergyAware.SimulationConfig_default
       scenario_task scenario_variant_servers = Some scenario_costs
  /\ EnergyAware.EADC_scores EnergyAware.SimulationConfig_default
       scenario_task scenario_variant_servers scenario_costs
     = Some scenario_variant_scores
  /\ (exists k, EnergyAware.c_time_at scenario_costs k
                <= EnergyAware.deadline scenario_task)
  /\ exists d,
       EnergyAware.EADCAlgorithm_decide EnergyAware.SimulationConfig_default
         scenario_task scenario_variant_servers = Some d
       /\ EnergyAware.c_time_at scenario_costs d
          <= EnergyAware.deadline scenario_task.
Proof.
  assert (H1 : exists k,
             time_at scenario_estimates k <= ev_deadline scenario_event
             /\ (k = EDGE -> can_accept_task scenario_server = true)).
  { exists EDGE. split; [vm_compute; discriminate | reflexivity]. }
  assert (H2 : EnergyAware.EADC_costs EnergyAware.SimulationConfig_default
                 scenario_task scenario_variant_servers = Some scenario_costs)
    by (vm_compute; reflexivity).
  assert (H3 : EnergyAware.EADC_scores EnergyAware.SimulationConfig_default
                 scenario_task scenario_variant_servers scenario_costs
               = Some scenario_variant_scores) by (vm_compute; reflexivity).
  assert (H4 : exists k, EnergyAware.c_time_at scenario_costs k
                         <= EnergyAware.deadline scenario_task).
  { exists MOBILE. vm_compute. discriminate. }
  split; [exact H1|]. split.
  - destruct (proj1 eadc_meets_deadline_when_possible SimConfig_default
                (ev_app scenario_event) (ev_deadline scenario_event)
                (ev_t scenario_event) (init_servers SimConfig_default)
                scenario_server scenario_estimates) as (d & Hd & Hf & _).
    exists d. split; [exact Hd | exact (Hf H1)].
  - split; [exact H2|]. split; [exact H3|]. split; [exact H4|].
    destruct (proj2 eadc_meets_deadline_when_possible
                EnergyAware.SimulationConfig_default scenario_task
                scenario_variant_servers scenario_costs
                scenario_variant_scores H2 H3) as (d & Hd & Hf).
    exists d. split; [exact Hd | exact (Hf H4)].
Defined.

(** ** What one iteration of the loop does to the results *)

Lemma record_outcome_cases nd dl actual en r g r' g' :
  record_outcome nd dl actual en r g = (r', g') ->
  g' = mkRng (draws g) (S (cursor g))
  /\ local r' = local r /\ edge r' = edge r /\ cloud r' = cloud r
  /\ edge_rejected r' = edge_rejected r
  /\ ((failed r' = S (failed r)
       /\ service_times r' = service_times r
       /\ energies r' = energies r
       /\ deadline_met r' = deadline_met r)
      \/ (failed r' = failed r
          /\ service_times r' = service_times r ++ [actual]
          /\ energies r' = energies r ++ [en]
          /\ deadline_met r'
             = deadline_met r ++ [if Qle_bool actual dl then 1 else 0]%nat)).
Proof.
  unfold record_outcome. cbn [random].
  destruct (Qltb _ _); intro H; injection H as <- <-; cbn;
    repeat split; auto.
Qed.

Lemma commit_outcome nd ev idx e d st st' p :
  commit nd ev idx e d st = Some (st', p) ->
  exists loc actual,
    path_location p = Some loc
    /\ (loc = d \/ (d = EDGE /\ p = ReroutedToCloud))
    /\ (p = ReroutedToCloud -> d = EDGE)
    /\ record_outcome nd (ev_deadline ev) actual
         (energy_at e loc
          * (0.9 + draws (st_rng st) (S (cursor (st_rng st))) * 0.2))
         (bump_counters p (st_results st))
         (mkRng (draws (st_rng st)) (S (S (cursor (st_rng st)))))
       = (st_results st', st_rng st')
    /\ match p with
       | AdmittedToEdge =>
           exists best total,
             nth_error (st_servers st) idx = Some best
             /\ can_accept_task best = true
             /\ total == estimate_wait_time best (ev_t ev) + edge_processing e
             /\ actual = (wlan_delay e * 2 + total)
                     * (0.9 + draws (st_rng st) (cursor (st_rng st)) * 0.2)
             /\ st_servers st'
                = list_set (st_servers st) idx
                    (snd (submit_task best (ev_t ev) (edge_processing e)))
       | _ =>
           actual = time_at e loc
                * (0.9 + draws (st_rng st) (cursor (st_rng st)) * 0.2)
           /\ st_servers st' = st_servers st
       end.
Proof.
  unfold commit. intro H.
  destruct d.
  - cbn [jitter random] in H.
    destruct (record_outcome _ _ _ _ _ _) as [res' g3] eqn:Er.
    injection H as <- <-.
    exists MOBILE. eexists. split; [reflexivity|].
    split; [now left|]. split; [discriminate|].
    split; [exact Er|]. split; reflexivity.
  - destruct (nth_error (st_servers st) idx) as [best|] eqn:Eb;
      cbn [obind] in H; [|discriminate].
    destruct (can_accept_task best) eqn:Eacc; cbn [negb] in H.
    + destruct (submit_task_accepted best (ev_t ev) (edge_processing e) Eacc)
        as (total & Hs & Ht).
      rewrite Hs in H. cbn [obind jitter random] in H.
      destruct (record_outcome _ _ _ _ _ _) as [res' g3] eqn:Er.
      injection H as <- <-.
      exists EDGE. eexists. split; [reflexivity|].
      split; [now left|]. split; [discriminate|].
      split; [exact Er|].
      exists best, total. split; [reflexivity|]. split; [exact Eacc|].
      split; [exact Ht|]. split; [reflexivity|].
      cbn [st_servers]. rewrite Hs. reflexivity.
    + cbn [jitter random] in H.
      destruct (record_outcome _ _ _ _ _ _) as [res' g3] eqn:Er.
      injection H as <- <-.
      exists CLOUD. eexists. split; [reflexivity|].
      split; [right; now split|]. split; [reflexivity|].
      split; [exact Er|]. split; reflexivity.
  - cbn [jitter random] in H.
    destruct (record_outcome _ _ _ _ _ _) as [res' g3] eqn:Er.
    injection H as <- <-.
    exists CLOUD. eexists. split; [reflexivity|].
    split; [now left|]. split; [discriminate|].
    split; [exact Er|]. split; reflexivity.
Qed.

Lemma bump_counters_fields p r :
  service_times (bump_counters p r) = service_times r
  /\ energies (bump_counters p r) = energies r
  /\ deadline_met (bump_counters p r) = deadline_met r
  /\ failed (bump_counters p r) = failed r.
Proof. destruct p; cbn; auto. Qed.

Lemma bump_counters_sum p r loc :
  path_location p = Some loc ->
  (local (bump_counters p r) + edge (bump_counters p r)
   + cloud (bump_counters p r) = S (local r + edge r + cloud r))%nat
  /\ (edge_rejected r <= cloud r ->
      edge_rejected (bump_counters p r) <= cloud (bump_counters p r))%nat
  /\ edge_rejected (bump_counters p r)
     = (edge_rejected r
        + match p with ReroutedToCloud => 1 | _ => 0 end)%nat.
Proof. destruct p; cbn; intro H; try discriminate; repeat split; lia. Qed.

Lemma commit_consistent nd ev idx e d st st' p :
  commit nd ev idx e d st = Some (st', p) ->
  results_consistent (st_results st) ->
  results_consistent (st_results st')
  /\ (length (service_times (st_results st')) + failed (st_results st')
      = S (length (service_times (st_results st))
           + failed (st_results st)))%nat
  /\ edge_rejected (st_results st')
     = (edge_rejected (st_results st)
        + match p with ReroutedToCloud => 1 | _ => 0 end)%nat.
Proof.
  intros H Hc.
  destruct (commit_outcome _ _ _ _ _ _ _ _ H)
    as (loc & actual & Hloc & _ & _ & Hrec & _).
  destruct (record_outcome_cases _ _ _ _ _ _ _ _ Hrec)
    as (_ & Hl & He & Hcl & Hr & Hcase).
  destruct (bump_counters_fields p (st_results st)) as (Fs & Fe & Fd & Ff).
  destruct (bump_counters_sum p (st_results st) loc Hloc)
    as (Hsum & Hrej & Hrej').
  destruct Hc as (C1 & C2 & C3 & C4 & C5).
  unfold results_consistent.
  rewrite Hl, He, Hcl, Hr.
  destruct Hcase as [(Hf & Hs & Hen & Hd) | (Hf & Hs & Hen & Hd)];
    rewrite Hf, Hs, Hen, Hd, Fs, Fe, Fd, Ff, ?length_app; cbn [length].
  - repeat split; try lia; try (apply Hrej; lia); assumption.
  - repeat split; try lia; try (apply Hrej; lia).
    apply Forall_app. split; [assumption|].
    constructor; [|constructor].
    destruct (Qle_bool actual (ev_deadline ev)); lia.
Qed.

Lemma process_event_consistent policy nd cfg st ev st' log :
  process_event policy nd cfg st ev = Some (st', log) ->
  results_consistent (st_results st) ->
  results_consistent (st_results st')
  /\ (length (service_times (st_results st')) + failed (st_results st')
      = length (post_warm_up cfg [ev])
        + (length (service_times (st_results st))
           + failed (st_results st)))%nat
  /\ edge_rejected (st_results st')
     = (edge_rejected (st_results st)
        + match path log with ReroutedToCloud => 1 | _ => 0 end)%nat.
Proof.
  unfold process_event, post_warm_up. cbn [filter]. intros H Hc.
  destruct (Qltb (ev_t ev) (warm_up_period cfg)); cbn [negb length].
  - injection H as <- <-. cbn [st_results path].
    split; [exact Hc|]. split; lia.
  - apply obind_Some in H. destruct H as ([idx e] & _ & H).
    apply obind_Some in H. destruct H as (best & _ & H).
    apply obind_Some in H. destruct H as ([d g] & _ & H).
    apply obind_Some in H. destruct H as ([st1 p] & Hcm & H).
    injection H as <- <-. cbn [path].
    destruct (commit_consistent _ _ _ _ _ _ _ _ Hcm Hc) as (H1 & H2 & H3).
    cbn [st_results] in *. split; [exact H1|]. split; lia.
Qed.

Lemma post_warm_up_cons cfg ev events :
  length (post_warm_up cfg (ev :: events))
  = (length (post_warm_up cfg [ev]) + length (post_warm_up cfg events))%nat.
Proof.
  unfold post_warm_up. cbn [filter].
  destruct (negb (Qltb (ev_t ev) (warm_up_period cfg))); cbn [length]; lia.
Qed.

Lemma run_events_consistent policy nd cfg events : forall st st',
  run_events policy nd cfg st events = Some st' ->
  results_consistent (st_results st) ->
  results_consistent (st_results st')
  /\ (length (service_times (st_results st')) + failed (st_results st')
      = length (post_warm_up cfg events)
        + (length (service_times (st_results st))
           + failed (st_results st)))%nat.
Proof.
  induction events as [|ev r IH]; intros st st' H Hc; simpl in H.
  - injection H as <-. split; [exact Hc | reflexivity].
  - apply obind_Some in H. destruct H as ([st1 log] & Hp & H).
    destruct (process_event_consistent _ _ _ _ _ _ _ Hp Hc) as (H1 & H2 & _).
    destruct (IH st1 st' H H1) as (H3 & H4).
    split; [exact H3|]. rewrite post_warm_up_cons. lia.
Qed.

Lemma Results_init_consistent : results_consistent Results_init.
Proof. unfold results_consistent; cbn. repeat split; auto. Qed.

(** X8. Task accounting of a run.  Whatever the policy and the draws,
    when [run_simulation] returns, [total_tasks] is the number of events
    that arrived at or after the warm-up period and equals
    [local + edge + cloud]; failed tasks are among them; and every edge
    rejection is counted as a cloud execution. *)
Theorem run_accounts_for_every_task (policy : Policy) (nd : nat)
  (cfg : SimConfig) (events : list Event) (g : Rng) (r : RunResult) :
  run_simulation policy nd cfg events g = Some r ->
  total_tasks r = length (post_warm_up cfg events)
  /\ total_tasks r = (rr_local r + rr_edge r + rr_cloud r)%nat
  /\ (failed_tasks r <= total_tasks r)%nat
  /\ (rr_edge_rejected r <= rr_cloud r)%nat.
Proof.
  unfold run_simulation. intro H.
  apply obind_Some in H. destruct H as (st & Hrun & H).
  injection H as <-.
  destruct (run_events_consistent _ _ _ _ _ _ Hrun Results_init_consistent)
    as ((C1 & C2 & C3 & C4 & C5) & Hn).
  unfold summarize; cbn [total_tasks failed_tasks rr_local rr_edge rr_cloud
                         rr_edge_rejected].
  cbn [fresh_state st_results Results_init service_times failed length] in Hn.
  repeat split; lia.
Qed.

Lemma run_accounts_for_every_task_witness :
  exists r,
    run_simulation GREEDY_DEADLINE 2 single_server_config race_events
      greedy_rng = Some r
    /\ total_tasks r = 2%nat
    /\ total_tasks r = (rr_local r + rr_edge r + rr_cloud r)%nat.
Proof.
  destruct (run_simulation GREEDY_DEADLINE 2 single_server_config race_events
              greedy_rng) as [r|] eqn:E.
  - exists r. split; [reflexivity|].
    destruct (run_accounts_for_every_task _ _ _ _ _ _ E) as (H1 & H2 & _).
    split; [rewrite H1; reflexivity | exact H2].
  - vm_compute in E. discriminate.
Defined.

(** ** Means of bounded lists *)

Lemma inject_nat_succ n :
  inject_Z (Z.of_nat (S n)) == inject_Z (Z.of_nat n) + 1.
Proof. rewrite Nat2Z.inj_succ, <- Z.add_1_r, inject_Z_plus. reflexivity. Qed.

Lemma py_sum_bounds (a b : Q) (l : list Q) :
  Forall (fun x => a <= x /\ x <= b) l ->
  inject_Z (Z.of_nat (length l)) * a <= py_sum l
  /\ py_sum l <= inject_Z (Z.of_nat (length l)) * b.
Proof.
  induction 1 as [|x r [Hxa Hxb] _ [IHa IHb]].
  - cbn [length]. change (inject_Z (Z.of_nat 0)) with 0.
    unfold py_sum; cbn [fold_left]. split; lra.
  - cbn [length]. rewrite py_sum_cons, inject_nat_succ. split; nra.
Qed.

Lemma np_mean_bounds (a b : Q) (l : list Q) :
  l <> [] ->
  Forall (fun x => a <= x /\ x <= b) l ->
  a <= np_mean l /\ np_mean l <= b.
Proof.
  intros Hne Hl. destruct (py_sum_bounds a b l Hl) as [Ha Hb].
  unfold np_mean.
  assert (Hpos : 0 < inject_Z (Z.of_nat (length l))).
  { destruct l as [|x r]; [congruence|].
    rewrite <- (Zlt_Qlt 0). cbn [length]. lia. }
  split.
  - apply Qle_shift_div_l; [exact Hpos|]. lra.
  - apply Qle_shift_div_r; [exact Hpos|]. lra.
Qed.

(** X9. The deadline-satisfaction rate [run_simulation] reports is a
    fraction: it lies between 0 and 1 for every policy, workload and
    stream of draws. *)
Theorem deadline_rate_is_a_fraction (policy : Policy) (nd : nat)
  (cfg : SimConfig) (events : list Event) (g : Rng) (r : RunResult) :
  run_simulation policy nd cfg events g = Some r ->
  0 <= deadline_rate r /\ deadline_rate r <= 1.
Proof.
  unfold run_simulation. intro H.
  apply obind_Some in H. destruct H as (st & Hrun & H).
  injection H as <-.
  destruct (run_events_consistent _ _ _ _ _ _ Hrun Results_init_consistent)
    as ((_ & _ & _ & _ & C5) & _).
  unfold summarize; cbn [deadline_rate].
  destruct (map (fun b => inject_Z (Z.of_nat b))
                (deadline_met (st_results st))) as [|x l] eqn:E;
    unfold mean_or_zero; [split; lra|].
  rewrite <- E. apply np_mean_bounds.
  - rewrite E. discriminate.
  - apply Forall_map. eapply Forall_impl; [|exact C5].
    intros b Hb. cbn beta in *.
    split; unfold Qle, inject_Z; cbn [Qnum Qden]; lia.
Qed.

Lemma deadline_rate_is_a_fraction_witness :
  exists r,
    run_simulation RANDOM 2 single_server_config race_events random_rng
    = Some r
    /\ 0 <= deadline_rate r /\ deadline_rate r <= 1.
Proof.
  destruct (run_simulation RANDOM 2 single_server_config race_events
              random_rng) as [r|] eqn:E.
  - exists r. split; [reflexivity|].
    exact (deadline_rate_is_a_fraction _ _ _ _ _ _ E).
  - vm_compute in E. discriminate.
Defined.

(** ** Policies that consult admission never cause a re-route *)

Lemma process_event_no_reroute policy nd cfg st ev st' log :
  policy = EADC \/ policy = EDGE_ONLY ->
  process_event policy nd cfg st ev = Some (st', log) ->
  path log <> ReroutedToCloud.
Proof.
  intros Hpol H. unfold process_event in H.
  destruct (Qltb (ev_t ev) (warm_up_period cfg)).
  - injection H as _ <-. discriminate.
  - apply obind_Some in H. destruct H as ([idx e] & _ & H).
    apply obind_Some in H. destruct H as (best & Hb & H).
    apply obind_Some in H. destruct H as ([d g] & Hd & H).
    apply obind_Some in H. destruct H as ([st1 p] & Hcm & H).
    injection H as _ <-. cbn [path]. intro Hp.
    destruct (commit_paths _ _ _ _ _ _ _ _ Hcm) as (_ & Hiff & _).
    apply Hiff in Hp. destruct Hp as (-> & best' & Hb' & Hfull).
    cbn [st_servers] in Hb'. rewrite Hb in Hb'. injection Hb' as <-.
    destruct Hpol as [-> | ->]; cbn [decide] in Hd.
    + apply obind_Some in Hd. destruct Hd as (d & Hd & Hd').
      injection Hd' as -> _.
      destruct (eadc_decide_feasible cfg (ev_app ev) (ev_deadline ev)
                  (ev_t ev) (map (fun s => update s (ev_t ev)) (st_servers st))
                  best e) as (d' & Hd'' & _ & Hne).
      rewrite Hd in Hd''. injection Hd'' as <-. now apply Hne.
    + injection Hd as Hd _. unfold edge_only_decide in Hd.
      rewrite Hfull in Hd. discriminate.
Qed.

Lemma run_events_no_reroute policy nd cfg events : forall st st',
  policy = EADC \/ policy = EDGE_ONLY ->
  results_consistent (st_results st) ->
  run_events policy nd cfg st events = Some st' ->
  edge_rejected (st_results st') = edge_rejected (st_results st).
Proof.
  induction events as [|ev r IH]; intros st st' Hpol Hc H; simpl in H.
  - now injection H as <-.
  - apply obind_Some in H. destruct H as ([st1 log] & Hp & H).
    destruct (process_event_consistent _ _ _ _ _ _ _ Hp Hc) as (H1 & _ & H3).
    pose proof (process_event_no_reroute _ _ _ _ _ _ _ Hpol Hp) as Hn.
    rewrite (IH st1 st' Hpol H1 H), H3.
    destruct (path log); try lia. congruence.
Qed.

(** X10. The policies that look at admission before deciding never send
    a task to a full server: under EADC and EDGE_ONLY no event goes
    through the re-route branch, and the run reports no edge
    rejection. *)
Theorem admission_aware_policies_never_reroute :
  (forall (policy : Policy) (nd : nat) (cfg : SimConfig) (st : SimState)
          (ev : Event) (st' : SimState) (log : StepLog),
      policy = EADC \/ policy = EDGE_ONLY ->
      process_event policy nd cfg st ev = Some (st', log) ->
      path log <> ReroutedToCloud)
  /\ (forall (policy : Policy) (nd : nat) (cfg : SimConfig)
             (events : list Event) (g : Rng) (r : RunResult),
        policy = EADC \/ policy = EDGE_ONLY ->
        run_simulation policy nd cfg events g = Some r ->
        rr_edge_rejected r = 0%nat).
Proof.
  split; [exact process_event_no_reroute|].
  intros policy nd cfg events g r Hpol H. unfold run_simulation in H.
  apply obind_Some in H. destruct H as (st & Hrun & H).
  injection H as <-. unfold summarize; cbn [rr_edge_rejected].
  rewrite (run_events_no_reroute policy nd cfg events (fresh_state cfg g) st
             Hpol Results_init_consistent Hrun).
  reflexivity.
Qed.

Lemma admission_aware_policies_never_reroute_witness :
  (EDGE_ONLY = EADC \/ EDGE_ONLY = EDGE_ONLY)
  /\ exists r,
       run_simulation EDGE_ONLY 2 single_server_config race_events greedy_rng
       = Some r
       /\ rr_edge_rejected r = 0%nat.
Proof.
  assert (H : EDGE_ONLY = EADC \/ EDGE_ONLY = EDGE_ONLY) by (now right).
  split; [exact H|].
  destruct (run_simulation EDGE_ONLY 2 single_server_config race_events
              greedy_rng) as [r|] eqn:E.
  - exists r. split; [reflexivity|].
    exact (proj2 admission_aware_policies_never_reroute _ _ _ _ _ _ H E).
  - vm_compute in E. discriminate.
Defined.

(** ** Realised service times *)

Lemma py_div_Some a b v :
  py_div a b = Some v -> v = a / b /\ ~ b == 0.
Proof.
  unfold py_div. destruct (Qeq_bool b 0) eqn:E; [discriminate|].
  intro H. injection H as <-. split; [reflexivity|].
  now apply Qeq_bool_neq.
Qed.

Lemma estimate_costs_shape cfg nd servers ev idx e :
  estimate_costs cfg nd servers ev = Some (idx, e) ->
  exists best,
    nth_error servers idx = Some best
    /\ edge_queue_delay e = estimate_wait_time best (ev_t ev)
    /\ edge_time e = wlan_delay e * 2 + edge_processing e + edge_queue_delay e
    /\ edge_processing e = ev_task_len ev / edge_mips cfg
    /\ local_time e
       = ev_task_len ev / mobile_mips cfg * load_factor nd
    /\ cloud_time e = wan_delay e * 2 + cloud_processing e.
Proof.
  unfold estimate_costs. intro H.
  apply obind_Some in H. destruct H as (q & Hq & H).
  apply obind_Some in H. destruct H as (wl & Hwl & H).
  apply obind_Some in H. destruct H as (ep & Hep & H).
  apply obind_Some in H. destruct H as (i & Hi & H).
  apply obind_Some in H. destruct H as (best & Hb & H).
  apply obind_Some in H. destruct H as (w & Hw & H).
  apply obind_Some in H. destruct H as (cp & Hcp & H).
  injection H as <- <-.
  apply py_div_Some in Hq, Hep. destruct Hq as [-> _], Hep as [-> _].
  exists best. cbn. repeat split; auto.
Qed.

Lemma decide_draws policy cfg ev servers best e g d g1 :
  decide policy cfg ev servers best e g = Some (d, g1) ->
  draws g1 = draws g.
Proof.
  destruct policy; cbn [decide]; intro H;
    try (apply obind_Some in H; destruct H as (d' & _ & H));
    try (injection H as _ <-; reflexivity).
Qed.

Lemma app_tail_neq {A} (l : list A) x : l <> l ++ [x].
Proof.
  intro H. apply (f_equal (@length A)) in H.
  rewrite length_app in H. cbn in H. lia.
Qed.

Lemma jitter_factor_bounds (r : Q) :
  0 <= r /\ r < 1 -> 0.9 <= 0.9 + r * 0.2 /\ 0.9 + r * 0.2 < 1.1.
Proof. intros [H0 H1]. split; lra. Qed.

(** X11. What a run records for a task is the estimate of the location
    the task finally ran at, times a jitter factor in [0.9, 1.1): for
    Local and Cloud by construction, and for an admitted Edge task
    because the total time [submit_task] returns is the wait estimate
    the cost model used plus the processing time.  The deadline flag
    recorded with it compares that time with the task's deadline. *)
Theorem recorded_time_is_jittered_estimate (policy : Policy) (nd : nat)
  (cfg : SimConfig) (st : SimState) (ev : Event) (st' : SimState)
  (log : StepLog) (x : Q) :
  process_event policy nd cfg st ev = Some (st', log) ->
  unit_draws (st_rng st) ->
  service_times (st_results st') = service_times (st_results st) ++ [x] ->
  exists idx e loc j,
    estimate_costs cfg nd
      (map (fun s => update s (ev_t ev)) (st_servers st)) ev = Some (idx, e)
    /\ path_location (path log) = Some loc
    /\ 0.9 <= j /\ j < 1.1
    /\ x == time_at e loc * j
    /\ deadline_met (st_results st')
       = deadline_met (st_results st)
         ++ [if Qle_bool x (ev_deadline ev) then 1 else 0]%nat.
Proof.
  intros H Hu Hx. unfold process_event in H.
  destruct (Qltb (ev_t ev) (warm_up_period cfg)).
  - injection H as <- _. cbn [st_results] in Hx.
    exfalso. exact (app_tail_neq _ _ Hx).
  - apply obind_Some in H. destruct H as ([idx e] & He & H).
    apply obind_Some in H. destruct H as (best & Hb & H).
    apply obind_Some in H. destruct H as ([d g1] & Hd & H).
    apply obind_Some in H. destruct H as ([st1 p] & Hcm & H).
    injection H as <- <-. cbn [path].
    destruct (commit_outcome _ _ _ _ _ _ _ _ Hcm)
      as (loc & actual & Hloc & _ & _ & Hrec & Hact).
    cbn [st_rng st_results st_servers] in Hrec, Hact.
    destruct (record_outcome_cases _ _ _ _ _ _ _ _ Hrec)
      as (_ & _ & _ & _ & _ & Hcase).
    destruct (bump_counters_fields p (st_results st)) as (Fs & _ & Fd & _).
    rewrite Fs, Fd in Hcase.
    destruct Hcase as [(_ & Hs & _) | (_ & Hs & _ & Hdm)].
    + rewrite Hs in Hx. exfalso. exact (app_tail_neq _ _ Hx).
    + rewrite Hs in Hx. apply app_inj_tail in Hx. destruct Hx as [_ <-].
      pose proof (decide_draws _ _ _ _ _ _ _ _ _ Hd) as Hdr.
      destruct (jitter_factor_bounds (draws g1 (cursor g1))) as [J0 J1].
      { rewrite Hdr. apply Hu. }
      exists idx, e, loc, (0.9 + draws g1 (cursor g1) * 0.2).
      split; [exact He|]. split; [exact Hloc|].
      split; [exact J0|]. split; [exact J1|]. split; [|exact Hdm].
      destruct (estimate_costs_shape _ _ _ _ _ _ He)
        as (best' & Hb' & Hqd & Het & _).
      rewrite Hb in Hb'. injection Hb' as <-.
      destruct p; cbn [path_location] in Hloc; try discriminate;
        injection Hloc as <-;
        try (destruct Hact as [-> _]; reflexivity).
      destruct Hact as (b2 & total & Hb2 & _ & Ht & -> & _).
      rewrite Hb in Hb2. injection Hb2 as <-.
      cbn [time_at]. rewrite Het, Hqd, Ht. ring.
Qed.

Lemma recorded_time_is_jittered_estimate_witness :
  exists st' log x,
    process_event GREEDY_DEADLINE 2 single_server_config
      (fresh_state single_server_config greedy_rng) race_first
    = Some (st', log)
    /\ unit_draws greedy_rng
    /\ service_times (st_results st') = [] ++ [x]
    /\ exists e loc j,
         path_location (path log) = Some loc
         /\ 0.9 <= j /\ j < 1.1 /\ x == time_at e loc * j.
Proof.
  assert (Hu : unit_draws greedy_rng).
  { intro i. cbn. split; [discriminate | reflexivity]. }
  destruct (process_event GREEDY_DEADLINE 2 single_server_config
              (fresh_state single_server_config greedy_rng) race_first)
    as [[st' log]|] eqn:E; [|vm_compute in E; discriminate].
  destruct (service_times (st_results st')) as [|x [|y r]] eqn:Es;
    try (vm_compute in E; injection E as <- _; discriminate Es).
  exists st', log, x.
  split; [reflexivity|]. split; [exact Hu|]. split; [exact Es|].
  destruct (recorded_time_is_jittered_estimate _ _ _ _ _ _ _ x E Hu Es)
    as (idx & e & loc & j & _ & Hl & J0 & J1 & Hx & _).
  exists e, loc, j. auto.
Defined.

(** ** The set of servers during a run *)

Lemma map_list_set {A B} (f : A -> B) (l : list A) : forall i x y,
  nth_error l i = Some y -> f x = f y -> map f (list_set l i x) = map f l.
Proof.
  induction l as [|z r IH]; intros i x y Hn Hf; [reflexivity|].
  destruct i as [|i]; cbn in *.
  - injection Hn as ->. now rewrite Hf.
  - f_equal. eapply IH; eassumption.
Qed.

Lemma submit_task_static s now pt :
  server_id (snd (submit_task s now pt)) = server_id s
  /\ mips (snd (submit_task s now pt)) = mips s
  /\ max_queue (snd (submit_task s now pt)) = max_queue s.
Proof.
  unfold submit_task. destruct (negb (can_accept_task s)); cbn; auto.
Qed.

Lemma commit_servers nd ev idx e d st st' p :
  commit nd ev idx e d st = Some (st', p) ->
  st_servers st' = st_servers st
  \/ exists best,
       nth_error (st_servers st) idx = Some best
       /\ can_accept_task best = true
       /\ st_servers st'
          = list_set (st_servers st) idx
              (snd (submit_task best (ev_t ev) (edge_processing e))).
Proof.
  intro H.
  destruct (commit_outcome _ _ _ _ _ _ _ _ H)
    as (loc & actual & _ & _ & _ & _ & Hact).
  destruct p; try (left; now destruct Hact).
  right. destruct Hact as (best & total & Hb & Hacc & _ & _ & Hs).
  exists best. auto.
Qed.

Lemma process_event_static policy nd cfg st ev st' log :
  process_event policy nd cfg st ev = Some (st', log) ->
  map (fun s => (server_id s, mips s, max_queue s)) (st_servers st')
  = map (fun s => (server_id s, mips s, max_queue s)) (st_servers st).
Proof.
  intro H. unfold process_event in H.
  assert (Hu : map (fun s => (server_id s, mips s, max_queue s))
                 (map (fun s => update s (ev_t ev)) (st_servers st))
               = map (fun s => (server_id s, mips s, max_queue s))
                   (st_servers st)).
  { rewrite map_map. reflexivity. }
  destruct (Qltb (ev_t ev) (warm_up_period cfg)).
  - injection H as <- _. exact Hu.
  - apply obind_Some in H. destruct H as ([idx e] & _ & H).
    apply obind_Some in H. destruct H as (best & _ & H).
    apply obind_Some in H. destruct H as ([d g1] & _ & H).
    apply obind_Some in H. destruct H as ([st1 p] & Hcm & H).
    injection H as <- _.
    destruct (commit_servers _ _ _ _ _ _ _ _ Hcm) as [Hs | (b & Hb & _ & Hs)];
      rewrite Hs; cbn [st_servers] in *; [exact Hu|].
    rewrite <- Hu. eapply map_list_set; [exact Hb|].
    destruct (submit_task_static b (ev_t ev) (edge_processing e))
      as (-> & -> & ->).
    reflexivity.
Qed.

Lemma run_events_static policy nd cfg events : forall st st',
  run_events policy nd cfg st events = Some st' ->
  map (fun s => (server_id s, mips s, max_queue s)) (st_servers st')
  = map (fun s => (server_id s, mips s, max_queue s)) (st_servers st).
Proof.
  induction events as [|ev r IH]; intros st st' H; simpl in H.
  - now injection H as <-.
  - apply obind_Some in H. destruct H as ([st1 log] & Hp & H).
    rewrite (IH _ _ H). eapply process_event_static. exact Hp.
Qed.

(** X12. The loop neither adds nor removes a server and never changes a
    server's identity, capacity or queue bound: after any number of
    events the servers are, in order, those the run started with, as far
    as [server_id], [mips] and [max_queue] go. *)
Theorem servers_are_never_reconfigured (policy : Policy) (nd : nat)
  (cfg : SimConfig) (events : list Event) (st st' : SimState) :
  run_events policy nd cfg st events = Some st' ->
  map (fun s => (server_id s, mips s, max_queue s)) (st_servers st')
  = map (fun s => (server_id s, mips s, max_queue s)) (st_servers st)
  /\ length (st_servers st') = length (st_servers st).
Proof.
  intro H. pose proof (run_events_static _ _ _ _ _ _ H) as Hm.
  split; [exact Hm|].
  apply (f_equal (@length _)) in Hm. now rewrite !length_map in Hm.
Qed.

Lemma servers_are_never_reconfigured_witness :
  exists st',
    run_events GREEDY_DEADLINE 2 single_server_config
      (fresh_state single_server_config greedy_rng) race_events = Some st'
    /\ length (st_servers st') = 1%nat.
Proof.
  destruct (run_events GREEDY_DEADLINE 2 single_server_config
              (fresh_state single_server_config greedy_rng) race_events)
    as [st'|] eqn:E; [|vm_compute in E; discriminate].
  exists st'. split; [reflexivity|].
  destruct (servers_are_never_reconfigured _ _ _ _ _ _ E) as [_ H].
  rewrite H. reflexivity.
Defined.

(** ** Reported edge utilization *)

Lemma process_event_busy policy nd cfg st ev st' log :
  0 < edge_mips cfg ->
  0 <= ev_task_len ev ->
  process_event policy nd cfg st ev = Some (st', log) ->
  Forall (fun s => 0 <= total_busy_time s) (st_servers st) ->
  Forall (fun s => 0 <= total_busy_time s) (st_servers st').
Proof.
  intros Hm Hl H Hb. unfold process_event in H.
  assert (Hu : Forall (fun s => 0 <= total_busy_time s)
                 (map (fun s => update s (ev_t ev)) (st_servers st))).
  { apply Forall_map. exact Hb. }
  destruct (Qltb (ev_t ev) (warm_up_period cfg)).
  - injection H as <- _. exact Hu.
  - apply obind_Some in H. destruct H as ([idx e] & He & H).
    apply obind_Some in H. destruct H as (best & _ & H).
    apply obind_Some in H. destruct H as ([d g1] & _ & H).
    apply obind_Some in H. destruct H as ([st1 p] & Hcm & H).
    injection H as <- _.
    destruct (commit_servers _ _ _ _ _ _ _ _ Hcm)
      as [Hs | (b & Hnb & Hacc & Hs)];
      rewrite Hs; cbn [st_servers] in *; [exact Hu|].
    apply list_set_Forall; [exact Hu|].
    destruct (submit_task_accepted b (ev_t ev) (edge_processing e) Hacc)
      as (total & -> & _).
    cbn [snd total_busy_time].
    destruct (estimate_costs_shape _ _ _ _ _ _ He) as (_ & _ & _ & _ & -> & _).
    assert (0 <= total_busy_time b).
    { apply nth_error_In in Hnb. rewrite Forall_forall in Hu. now apply Hu. }
    assert (0 <= ev_task_len ev / edge_mips cfg)
      by (apply Qle_shift_div_l; lra).
    lra.
Qed.

Lemma run_events_busy policy nd cfg events : forall st st',
  0 < edge_mips cfg ->
  Forall (fun ev => 0 <= ev_task_len ev) events ->
  run_events policy nd cfg st events = Some st' ->
  Forall (fun s => 0 <= total_busy_time s) (st_servers st) ->
  Forall (fun s => 0 <= total_busy_time s) (st_servers st').
Proof.
  induction events as [|ev r IH]; intros st st' Hm Hl H Hb; simpl in H.
  - now injection H as <-.
  - apply obind_Some in H. destruct H as ([st1 log] & Hp & H).
    inversion Hl as [|? ? Hev Hrest]; subst.
    eapply IH; [exact Hm | exact Hrest | exact H |].
    eapply process_event_busy; eassumption.
Qed.

(** X13. The mean edge utilization a run reports is a percentage: with
    at least one server, a positive edge capacity and tasks of
    non-negative length it lies between 0 and 100. *)
Theorem reported_utilization_is_a_percentage (policy : Policy) (nd : nat)
  (cfg : SimConfig) (events : list Event) (g : Rng) (r : RunResult) :
  (0 < num_edge_servers cfg)%nat ->
  0 < edge_mips cfg ->
  Forall (fun ev => 0 <= ev_task_len ev) events ->
  run_simulation policy nd cfg events g = Some r ->
  0 <= avg_edge_util r /\ avg_edge_util r <= 100.
Proof.
  intros Hn Hm Hl H. unfold run_simulation in H.
  apply obind_Some in H. destruct H as (st & Hrun & H).
  injection H as <-. unfold summarize; cbn [avg_edge_util].
  assert (Hb : Forall (fun s => 0 <= total_busy_time s) (st_servers st)).
  { eapply run_events_busy; [exact Hm | exact Hl | exact Hrun |].
    unfold fresh_state, init_servers; cbn [st_servers].
    apply Forall_map, Forall_forall. intros i _. cbn. lra. }
  assert (Hlen : length (st_servers st) = num_edge_servers cfg).
  { pose proof (run_events_static _ _ _ _ _ _ Hrun) as Hs.
    apply (f_equal (@length _)) in Hs. rewrite !length_map in Hs.
    rewrite Hs. unfold fresh_state, init_servers; cbn [st_servers].
    now rewrite length_map, length_seq. }
  apply np_mean_bounds.
  - destruct (st_servers st); [cbn in Hlen; lia | discriminate].
  - apply Forall_map. eapply Forall_impl; [|exact Hb].
    intros s Hs. cbn beta in *.
    split; [now apply get_utilization_nonneg | apply get_utilization_le_100].
Qed.

Lemma reported_utilization_is_a_percentage_witness :
  (0 < num_edge_servers single_server_config)%nat
  /\ 0 < edge_mips single_server_config
  /\ Forall (fun ev => 0 <= ev_task_len ev) race_events
  /\ exists r,
       run_simulation GREEDY_DEADLINE 2 single_server_config race_events
         greedy_rng = Some r
       /\ 0 <= avg_edge_util r /\ avg_edge_util r <= 100.
Proof.
  assert (H1 : (0 < num_edge_servers single_server_config)%nat)
    by (cbn; lia).
  assert (H2 : 0 < edge_mips single_server_config) by reflexivity.
  assert (H3 : Forall (fun ev => 0 <= ev_task_len ev) race_events).
  { repeat constructor; discriminate. }
  split; [exact H1|]. split; [exact H2|]. split; [exact H3|].
  destruct (run_simulation GREEDY_DEADLINE 2 single_server_config race_events
              greedy_rng) as [r|] eqn:E; [|vm_compute in E; discriminate].
  exists r. split; [reflexivity|].
  exact (reported_utilization_is_a_percentage _ _ _ _ _ _ H1 H2 H3 E).
Defined.

(** ** Assignment of applications to devices *)

Lemma share_upto_cons {A} (share : A -> Q) a rest n :
  share_upto share (a :: rest) (S n) == share a + share_upto share rest n.
Proof. unfold share_upto. cbn [firstn map]. apply py_sum_cons. Qed.

Lemma pick_by_share_spec {A} (share : A -> Q) (table : list A) :
  forall cum r,
    match pick_by_share share table cum r with
    | Some a =>
        exists n,
          nth_error table n = Some a
          /\ r <= cum + share_upto share table (S n)
          /\ forall m, (m < n)%nat -> cum + share_upto share table (S m) < r
    | None =>
        forall m, (m < length table)%nat ->
                  cum + share_upto share table (S m) < r
    end.
Proof.
  induction table as [|a rest IH]; intros cum r; cbn [pick_by_share].
  - intros m Hm. cbn in Hm. lia.
  - destruct (Qle_bool r (cum + share a)) eqn:E.
    + apply Qle_bool_iff in E. exists 0%nat. split; [reflexivity|].
      split.
      * rewrite share_upto_cons. unfold share_upto; cbn.
        unfold py_sum; cbn. lra.
      * intros m Hm. lia.
    + apply Qle_bool_gt in E. specialize (IH (cum + share a) r).
      assert (H0 : cum + share_upto share (a :: rest) 1 < r).
      { rewrite share_upto_cons. unfold share_upto; cbn.
        unfold py_sum; cbn. lra. }
      destruct (pick_by_share share rest (cum + share a) r) as [b|].
      * destruct IH as (n & Hn & Hr & Hlt). exists (S n).
        split; [exact Hn|]. split.
        -- rewrite share_upto_cons. lra.
        -- intros m Hm. destruct m as [|m]; [exact H0|].
           rewrite share_upto_cons. specialize (Hlt m). 
           assert (m < n)%nat by lia. specialize (Hlt H). lra.
      * intros m Hm. destruct m as [|m]; [exact H0|].
        rewrite share_upto_cons. cbn [length] in Hm.
        assert (Hm' : (m < length rest)%nat) by lia.
        specialize (IH m Hm'). lra.
Qed.

(** X14. The walk that assigns an application to a device, in both
    scripts, returns the first entry of the table whose cumulative share
    reaches the sample: the sample is at most the cumulative share up to
    that entry and above the cumulative share up to every earlier one.
    It returns nothing exactly when the sample is above every cumulative
    share, in which case the device gets no application. *)
Theorem pick_by_share_first_reaching {A : Type} (share : A -> Q)
  (table : list A) (r : Q) :
  (forall a,
      pick_by_share share table 0 r = Some a ->
      exists n,
        nth_error table n = Some a
        /\ r <= share_upto share table (S n)
        /\ forall m, (m < n)%nat -> share_upto share table (S m) < r)
  /\ (pick_by_share share table 0 r = None <->
      forall m, (m < length table)%nat -> share_upto share table (S m) < r).
Proof.
  pose proof (pick_by_share_spec share table 0 r) as H.
  split.
  - intros a Ha. rewrite Ha in H. destruct H as (n & Hn & Hr & Hlt).
    exists n. split; [exact Hn|]. split; [lra|].
    intros m Hm. specialize (Hlt m Hm). lra.
  - split.
    + intros Hn. rewrite Hn in H. intros m Hm. specialize (H m Hm). lra.
    + intro Hall.
      destruct (pick_by_share share table 0 r) as [a|]; [|reflexivity].
      destruct H as (n & Hn & Hr & _).
      assert (Hlen : (n < length table)%nat)
        by (apply nth_error_Some; congruence).
      specialize (Hall n Hlen). lra.
Qed.

Lemma pick_by_share_first_reaching_witness :
  pick_by_share usage_pct APPS 0 50 = Some
    (mkAppType "INTERACTIVE_GAMING" 25 0.75 0.25 2.5 40 100 1000)
  /\ exists n,
       nth_error APPS n
       = Some (mkAppType "INTERACTIVE_GAMING" 25 0.75 0.25 2.5 40 100 1000)
       /\ 50 <= share_upto usage_pct APPS (S n).
Proof.
  assert (H : pick_by_share usage_pct APPS 0 50 = Some
                (mkAppType "INTERACTIVE_GAMING" 25 0.75 0.25 2.5 40 100 1000))
    by reflexivity.
  split; [exact H|].
  destruct (proj1 (pick_by_share_first_reaching usage_pct APPS 50) _ H)
    as (n & Hn & Hr & _).
  exists n. split; assumption.
Defined.

Lemma pick_by_share_covers {A} (share : A -> Q) (table : list A) r n :
  (n < length table)%nat ->
  r <= share_upto share table (S n) ->
  exists a, pick_by_share share table 0 r = Some a /\ In a table.
Proof.
  intros Hn Hr.
  pose proof (pick_by_share_spec share table 0 r) as H.
  destruct (pick_by_share share table 0 r) as [a|].
  - exists a. split; [reflexivity|].
    destruct H as (k & Hk & _). eapply nth_error_In; exact Hk.
  - specialize (H n Hn). lra.
Qed.

Lemma assign_devices_total apps devices : forall g,
  unit_draws g ->
  (exists n, (n < length apps)%nat /\ 100 <= share_upto usage_pct apps (S n)) ->
  map fst (fst (assign_devices apps devices g)) = devices
  /\ Forall (fun da => In (snd da) apps) (fst (assign_devices apps devices g))
  /\ snd (assign_devices apps devices g)
     = mkRng (draws g) (length devices + cursor g).
Proof.
  induction devices as [|d rest IH]; intros g Hu Hcov.
  - cbn. destruct g. repeat split; constructor.
  - cbn [assign_devices random].
    assert (Hu1 : unit_draws (mkRng (draws g) (S (cursor g)))) by exact Hu.
    destruct (IH _ Hu1 Hcov) as (H1 & H2 & H3). cbn [draws cursor] in H3.
    destruct (assign_devices apps rest (mkRng (draws g) (S (cursor g))))
      as [m g2].
    cbn [fst snd] in *.
    destruct Hcov as (n & Hn & Hc).
    destruct (pick_by_share_covers usage_pct apps
                (draws g (cursor g) * 100) n Hn) as (a & -> & Ha).
    { destruct (Hu (cursor g)). lra. }
    cbn [fst snd map]. split; [now rewrite H1|]. split.
    + constructor; assumption.
    + rewrite H3. f_equal. cbn [length]. lia.
Qed.




(** ** The arrival loop *)

Lemma Qceiling_step x y : y <= x - 1 -> (Qceiling y <= Qceiling x - 1)%Z.
Proof.
  intro H.
  pose proof (Qceiling_lt y) as Hy. pose proof (Qle_ceiling x) as Hx.
  assert (Hlt : inject_Z (Qceiling y - 1) < inject_Z (Qceiling x - 1)).
  { unfold Z.sub in *. rewrite !inject_Z_plus in *.
    change (inject_Z (-(1))) with (-1 # 1) in *. lra. }
  rewrite <- Zlt_Qlt in Hlt. lia.
Qed.

Lemma arrival_steps_pos cfg t :
  t < simulation_time cfg -> (1 <= arrival_steps cfg t)%nat.
Proof.
  intro H. unfold arrival_steps.
  pose proof (Qle_ceiling ((simulation_time cfg - t) * 20)) as Hc.
  assert (Hpos : inject_Z 0
                 < inject_Z (Qceiling ((simulation_time cfg - t) * 20))).
  { change (inject_Z 0) with 0. lra. }
  rewrite <- Zlt_Qlt in Hpos. lia.
Qed.

Lemma arrival_steps_dec cfg t t' :
  t + 0.05 <= t' -> (arrival_steps cfg t' <= arrival_steps cfg t - 1)%nat.
Proof.
  intro H. unfold arrival_steps.
  assert (Hs : (Qceiling ((simulation_time cfg - t') * 20)
                <= Qceiling ((simulation_time cfg - t) * 20) - 1)%Z).
  { apply Qceiling_step. lra. }
  lia.
Qed.

Lemma arrival_gap (x t : Q) : t + 0.05 <= t + py_max 0.05 x.
Proof. pose proof (py_max_ge_l 0.05 x). lra. Qed.

Lemma device_events_mono np_log cfg d app fuel : forall t g r fuel',
  device_events np_log fuel cfg d app t g = Some r ->
  (fuel <= fuel')%nat ->
  device_events np_log fuel' cfg d app t g = Some r.
Proof.
  induction fuel as [|fuel IH]; intros t g r fuel' H Hle.
  - cbn [device_events] in H.
    destruct fuel'; cbn [device_events];
      destruct (Qltb t (simulation_time cfg)); congruence.
  - destruct fuel' as [|fuel']; [lia|].
    cbn [device_events random] in *.
    destruct (Qltb t (simulation_time cfg)); [|exact H].
    apply obind_Some in H. destruct H as ([rest g'] & Hr & H).
    rewrite (IH _ _ _ fuel' Hr) by lia. exact H.
Qed.

Lemma device_events_runs np_log cfg d app fuel : forall t g,
  (arrival_steps cfg t <= fuel)%nat ->
  exists evs g',
    device_events np_log fuel cfg d app t g = Some (evs, g')
    /\ Forall (fun ev => t <= ev_t ev /\ ev_t ev < simulation_time cfg
                         /\ ev_device ev = d /\ ev_app ev = app) evs
    /\ ForallOrdPairs (fun a b => ev_t a < ev_t b) evs
    /\ (length evs <= arrival_steps cfg t)%nat
    /\ g' = mkRng (draws g) (4 * length evs + cursor g).
Proof.
  induction fuel as [|fuel IH]; intros t g Hf.
  - cbn [device_events].
    destruct (Qltb t (simulation_time cfg)) eqn:E.
    + apply Qltb_lt in E. pose proof (arrival_steps_pos cfg t E). lia.
    + exists [], g. cbn. destruct g.
      repeat split; try constructor; lia.
  - cbn [device_events random].
    destruct (Qltb t (simulation_time cfg)) eqn:E.
    + apply Qltb_lt in E.
      pose proof (arrival_steps_pos cfg t E) as Hpos.
      match goal with
      | |- context [device_events np_log fuel cfg d app ?tt ?gg] =>
          set (t' := tt); set (g4 := gg)
      end.
      assert (Hgap : t + 0.05 <= t') by apply arrival_gap.
      pose proof (arrival_steps_dec cfg t t' Hgap) as Hdec.
      destruct (IH t' g4)
        as (rest & g' & Hr & Hall & Hord & Hlen & Hg'); [lia|].
      unfold g4 in Hg'. cbn [draws cursor] in Hg'.
      rewrite Hr. cbn [obind].
      eexists; eexists. split; [reflexivity|].
      assert (Hrest : Forall (fun ev => t < ev_t ev) rest).
      { eapply Forall_impl; [|exact Hall]. cbn beta. intros ev (H1 & _). lra. }
      split; [|split; [|split]].
      * constructor.
        -- cbn. repeat split; auto; lra.
        -- eapply Forall_impl; [|exact Hall]. cbn beta.
           intros ev (H1 & H2 & H3 & H4). repeat split; auto; lra.
      * constructor; [|exact Hord].
        eapply Forall_impl; [|exact Hrest]. cbn. auto.
      * cbn [length]. lia.
      * rewrite Hg'. f_equal. cbn [length]. lia.
    + exists [], g. cbn. destruct g.
      repeat split; try constructor; lia.
Qed.

Lemma ForallOrdPairs_weaken {A} (R S : A -> A -> Prop) (l : list A) :
  (forall a b, R a b -> S a b) -> ForallOrdPairs R l -> ForallOrdPairs S l.
Proof.
  intro H. induction 1 as [|a l Ha Hl IH]; constructor; [|exact IH].
  eapply Forall_impl; [|exact Ha]. apply H.
Qed.

Lemma device_events_first np_log fuel cfg d app t g evs g' :
  device_events np_log fuel cfg d app t g = Some (evs, g') ->
  (t < simulation_time cfg ->
   exists ev rest, evs = ev :: rest /\ ev_t ev = t)
  /\ (simulation_time cfg <= t -> evs = []).
Proof.
  intro H. destruct fuel as [|fuel]; cbn [device_events random] in H;
    destruct (Qltb t (simulation_time cfg)) eqn:E.
  - discriminate.
  - apply Qltb_ge in E. injection H as <- _.
    split; [intro; lra | reflexivity].
  - apply Qltb_lt in E.
    apply obind_Some in H. destruct H as ([rest g1] & _ & H).
    injection H as <- _.
    split; [|intro; lra]. intros _. eexists; eexists.
    split; reflexivity.
  - apply Qltb_ge in E. injection H as <- _.
    split; [intro; lra | reflexivity].
Qed.

(** X16. The arrivals of one device.  Whenever the arrival loop of a
    device returns, the events it pushed all carry the device and its
    application; their times lie in [t, simulation_time) and never
    decrease along the push order; there is a first event, at the start
    time [t] itself, exactly when [t] is below the horizon; and the loop
    consumed exactly four draws per event.  This holds for every
    application and whatever [np.log] returns. *)
Theorem device_arrivals_in_time_order (np_log : Q -> Q) (fuel : nat)
  (cfg : SimConfig) (d : nat) (app : AppType) (t : Q) (g : Rng)
  (evs : list Event) (g' : Rng) :
  device_events np_log fuel cfg d app t g = Some (evs, g') ->
  Forall (fun ev => t <= ev_t ev /\ ev_t ev < simulation_time cfg
                    /\ ev_device ev = d /\ ev_app ev = app) evs
  /\ ForallOrdPairs (fun a b => ev_t a <= ev_t b) evs
  /\ (t < simulation_time cfg ->
      exists ev rest, evs = ev :: rest /\ ev_t ev = t)
  /\ (simulation_time cfg <= t -> evs = [])
  /\ g' = mkRng (draws g) (4 * length evs + cursor g).
Proof.
  intro H.
  destruct (device_events_runs np_log cfg d app
              (Nat.max fuel (arrival_steps cfg t)) t g (Nat.le_max_r _ _))
    as (evs0 & g0 & Hr & Hall & Hord & _ & Hg0).
  pose proof (device_events_mono np_log cfg d app fuel t g (evs, g')
                (Nat.max fuel (arrival_steps cfg t)) H (Nat.le_max_l _ _))
    as Hm.
  rewrite Hm in Hr. injection Hr as <- <-.
  destruct (device_events_first _ _ _ _ _ _ _ _ _ H) as (Hfirst & Hnone).
  split; [exact Hall|]. split.
  - eapply ForallOrdPairs_weaken; [|exact Hord].
    intros a b Hab. cbn beta in Hab. lra.
  - split; [exact Hfirst|]. split; [exact Hnone | exact Hg0].
Qed.

Lemma device_arrivals_in_time_order_witness :
  exists evs g',
    device_events (fun _ => 0) 5 single_server_config 0 app_realtime_ar
      299.9 scenario_rng = Some (evs, g')
    /\ Forall (fun ev => ev_device ev = 0%nat) evs
    /\ g' = mkRng (draws scenario_rng) (4 * length evs + cursor scenario_rng).
Proof.
  destruct (device_events (fun _ => 0) 5 single_server_config 0
              app_realtime_ar 299.9 scenario_rng)
    as [[evs g']|] eqn:E; [|vm_compute in E; discriminate].
  exists evs, g'. split; [reflexivity|].
  destruct (device_arrivals_in_time_order _ _ _ _ _ _ _ _ _ E)
    as (Hall & _ & _ & _ & Hg).
  split; [|exact Hg].
  eapply Forall_impl; [|exact Hall]. intros ev (_ & _ & Hd & _). exact Hd.
Defined.

(** ** The generated workload *)

Lemma ForallOrdPairs_app {A} (R : A -> A -> Prop) (l1 l2 : list A) :
  ForallOrdPairs R l1 -> ForallOrdPairs R l2 ->
  (forall a b, In a l1 -> In b l2 -> R a b) ->
  ForallOrdPairs R (l1 ++ l2).
Proof.
  induction 1 as [|a l Ha Hl IH]; intros H2 Hx; cbn; [exact H2|].
  constructor.
  - apply Forall_app. split; [exact Ha|].
    apply Forall_forall. intros b Hb. apply Hx; [now left | exact Hb].
  - apply IH; [exact H2|]. intros x y Hx' Hy. apply Hx; [now right | exact Hy].
Qed.

Lemma arrival_steps_anti cfg t :
  0 <= t -> (arrival_steps cfg t <= arrival_steps cfg 0)%nat.
Proof.
  intro H. unfold arrival_steps.
  assert ((Qceiling ((simulation_time cfg - t) * 20)
           <= Qceiling ((simulation_time cfg - 0) * 20))%Z)
    by (apply Qceiling_resp_le; lra).
  lia.
Qed.

Lemma device_events_bands np_log cfg d app fuel : forall t g evs g',
  device_events np_log fuel cfg d app t g = Some (evs, g') ->
  unit_draws g -> nominal_nonneg app ->
  Forall (fun ev => ev_app ev = app -> within_bands ev) evs.
Proof.
  induction fuel as [|fuel IH]; intros t g evs g' H Hu Hn;
    cbn [device_events random] in H;
    destruct (Qltb t (simulation_time cfg)); try discriminate;
    try (injection H as <- _; constructor).
  apply obind_Some in H. destruct H as ([rest g1] & Hr & H).
  injection H as <- _.
  constructor.
  - intros _. unfold within_bands. cbn [ev_app ev_task_len ev_data_size
                                         ev_deadline].
    destruct Hn as (N1 & N2 & N3 & _).
    destruct (Hu (cursor g)) as [A0 A1].
    destruct (Hu (S (cursor g))) as [B0 B1].
    destruct (Hu (S (S (cursor g)))) as [C0 C1].
    cbn [draws cursor]. repeat split; nra.
  - eapply IH; [exact Hr | | exact Hn]. intro i. apply Hu.
Qed.

Lemma generate_events_runs np_log cfg fuel apps_of : forall g,
  unit_draws g ->
  Forall (fun da => nominal_nonneg (snd da)) apps_of ->
  (arrival_steps cfg 0 <= fuel)%nat ->
  exists evs g',
    generate_events np_log fuel cfg apps_of g = Some (evs, g')
    /\ draws g' = draws g
    /\ Forall (fun ev => 0 <= ev_t ev /\ ev_t ev < simulation_time cfg
                         /\ In (ev_device ev, ev_app ev) apps_of
                         /\ within_bands ev) evs
    /\ (NoDup (map fst apps_of) ->
        ForallOrdPairs
          (fun a b => ev_device a <> ev_device b \/ ev_t a < ev_t b) evs).
Proof.
  induction apps_of as [|[d app] rest IH]; intros g Hu Hn Hf.
  - exists [], g. cbn. repeat split; constructor.
  - inversion Hn as [|? ? Happ Hrest]; subst. cbn [snd] in Happ.
    cbn [generate_events random].
    set (t0 := draws g (cursor g) * interarrival app).
    set (g0 := mkRng (draws g) (S (cursor g))).
    assert (Ht0 : 0 <= t0).
    { unfold t0. destruct (Hu (cursor g)) as [U0 _].
      destruct Happ as (_ & _ & _ & Hia). nra. }
    pose proof (arrival_steps_anti cfg t0 Ht0) as Hs.
    destruct (device_events_runs np_log cfg d app fuel t0 g0)
      as (evs & g1 & Hr & Hall & Hord & _ & Hg1); [lia|].
    rewrite Hr. cbn [obind].
    assert (Hu1 : unit_draws g1).
    { rewrite Hg1. intro i. apply Hu. }
    destruct (IH g1 Hu1 Hrest Hf) as (more & g2 & Hm & Hd2 & Hall2 & Hord2).
    rewrite Hm. cbn [obind].
    exists (evs ++ more), g2. split; [reflexivity|].
    split; [rewrite Hd2, Hg1; reflexivity|].
    pose proof (device_events_bands np_log cfg d app fuel t0 g0 evs g1 Hr)
      as Hb.
    assert (Hb' : Forall (fun ev => ev_app ev = app -> within_bands ev) evs)
      by (apply Hb; [intro i; apply Hu | exact Happ]).
    split.
    + apply Forall_app. split.
      * rewrite Forall_forall in Hall, Hb'. apply Forall_forall.
        intros ev Hev. destruct (Hall ev Hev) as (H1 & H2 & H3 & H4).
        split; [lra|]. split; [exact H2|]. split.
        -- left. now rewrite H3, H4.
        -- apply Hb'; assumption.
      * eapply Forall_impl; [|exact Hall2]. cbn beta.
        intros ev (H1 & H2 & H3 & H4).
        split; [exact H1|]. split; [exact H2|]. split; [now right | exact H4].
    + intro Hnd. cbn [map fst] in Hnd.
      inversion Hnd as [|? ? Hnotin Hnd']; subst.
      apply ForallOrdPairs_app.
      * eapply ForallOrdPairs_weaken; [|exact Hord]. intros a b Hab. now right.
      * now apply Hord2.
      * intros a b Ha Hb2. left.
        rewrite Forall_forall in Hall, Hall2.
        destruct (Hall a Ha) as (_ & _ & Hda & _).
        destruct (Hall2 b Hb2) as (_ & _ & Hin & _).
        rewrite Hda. intro Heq. apply Hnotin.
        apply (in_map fst) in Hin. cbn [fst] in Hin. now rewrite Heq.
Qed.

Lemma APPS_nominal_nonneg : Forall nominal_nonneg APPS.
Proof.
  unfold APPS, nominal_nonneg.
  repeat constructor; cbn; discriminate.
Qed.

Lemma device_events_origin np_log cfg d app fuel : forall t g evs g',
  device_events np_log fuel cfg d app t g = Some (evs, g') ->
  Forall (fun ev => ev_app ev = app) evs /\ draws g' = draws g.
Proof.
  induction fuel as [|fuel IH]; intros t g evs g' H;
    cbn [device_events random] in H;
    destruct (Qltb t (simulation_time cfg)); try discriminate;
    try (injection H as <- <-; split; [constructor | reflexivity]).
  apply obind_Some in H. destruct H as ([rest g1] & Hr & H).
  injection H as <- <-.
  destruct (IH _ _ _ _ Hr) as [Ha Hd]. split; [|exact Hd].
  constructor; [reflexivity | exact Ha].
Qed.

Lemma generate_events_bands np_log cfg fuel apps_of : forall g evs g',
  generate_events np_log fuel cfg apps_of g = Some (evs, g') ->
  unit_draws g ->
  Forall (fun da => nominal_nonneg (snd da)) apps_of ->
  Forall within_bands evs.
Proof.
  induction apps_of as [|[d app] rest IH]; intros g evs g' H Hu Hn.
  - injection H as <- _. constructor.
  - inversion Hn as [|? ? Happ Hrest]; subst. cbn [snd] in Happ.
    cbn [generate_events random] in H.
    apply obind_Some in H. destruct H as ([e1 g1] & H1 & H).
    apply obind_Some in H. destruct H as ([e2 g2] & H2 & H).
    injection H as <- _.
    destruct (device_events_origin _ _ _ _ _ _ _ _ _ H1) as [Ho Hd].
    apply Forall_app. split.
    + pose proof (device_events_bands _ _ _ _ _ _ _ _ _ H1) as Hb.
      assert (Hb' : Forall (fun ev => ev_app ev = app -> within_bands ev) e1)
        by (apply Hb; [intro i; apply Hu | exact Happ]).
      rewrite Forall_forall in Ho, Hb'. apply Forall_forall.
      intros ev Hev. apply Hb'; auto.
    + eapply IH; [exact H2 | | exact Hrest].
      intro i. rewrite Hd. apply Hu.
Qed.

(** X17. The workload of a run is well formed.  For draws in [0, 1) and
    enough iterations allowed, the generation of [run_simulation]
    returns; every event lies in [0, simulation_time), belongs to one of
    the [num_devices] devices and carries an application of the table;
    and no two events share both device and time, so the heap orders
    them by time and device alone and never has to compare the
    application records. *)
Theorem workload_is_well_formed (np_log : Q -> Q) (fuel : nat)
  (cfg : SimConfig) (num_devices : nat) (g : Rng) :
  unit_draws g ->
  (arrival_steps cfg 0 <= fuel)%nat ->
  exists evs g',
    generate_workload np_log fuel cfg num_devices g = Some (evs, g')
    /\ Forall (fun ev => 0 <= ev_t ev /\ ev_t ev < simulation_time cfg
                         /\ (ev_device ev < num_devices)%nat
                         /\ In (ev_app ev) APPS) evs
    /\ ForallOrdPairs
         (fun a b => ev_device a <> ev_device b \/ ev_t a < ev_t b) evs.
Proof.
  intros Hu Hf. unfold generate_workload, device_apps.
  destruct (assign_devices_total APPS (seq 0 num_devices) g Hu)
    as (Hk & Hin & Hg1).
  { exists 3%nat. split; [cbn; lia | vm_compute; discriminate]. }
  destruct (assign_devices APPS (seq 0 num_devices) g) as [apps_of g1].
  cbn [fst snd] in *.
  assert (Hu1 : unit_draws g1) by (rewrite Hg1; intro i; apply Hu).
  assert (Hn : Forall (fun da => nominal_nonneg (snd da)) apps_of).
  { eapply Forall_impl; [|exact Hin]. cbn beta. intros da Hda.
    pose proof APPS_nominal_nonneg as HA. rewrite Forall_forall in HA.
    now apply HA. }
  destruct (generate_events_runs np_log cfg fuel apps_of g1 Hu1 Hn Hf)
    as (evs & g' & Hr & _ & Hall & Hord).
  exists evs, g'. split; [exact Hr|]. split.
  - eapply Forall_impl; [|exact Hall]. cbn beta.
    intros ev (H1 & H2 & H3 & _). split; [exact H1|]. split; [exact H2|].
    split.
    + apply (in_map fst) in H3. cbn [fst] in H3. rewrite Hk in H3.
      apply in_seq in H3. lia.
    + rewrite Forall_forall in Hin. apply (Hin _ H3).
  - apply Hord. rewrite Hk. apply seq_NoDup.
Qed.

Lemma workload_is_well_formed_witness :
  unit_draws scenario_rng
  /\ (arrival_steps short_run_config 0 <= 20)%nat
  /\ exists evs g',
       generate_workload (fun _ => 0) 20 short_run_config 2 scenario_rng
       = Some (evs, g').
Proof.
  assert (H1 : unit_draws scenario_rng).
  { intro i. cbn. split; [discriminate | reflexivity]. }
  assert (H2 : (arrival_steps short_run_config 0 <= 20)%nat)
    by (vm_compute; lia).
  split; [exact H1|]. split; [exact H2|].
  destruct (workload_is_well_formed (fun _ => 0) 20 short_run_config 2
              scenario_rng H1 H2) as (evs & g' & Hr & _).
  exists evs, g'. exact Hr.
Defined.

(** X18. Every generated task stays within the jitter bands of its
    application: length and data size within 70% to 130% of the nominal
    values, deadline within 80% to 120% of the nominal delay, for draws
    in [0, 1). *)
Theorem generated_tasks_within_bands (np_log : Q -> Q) (fuel : nat)
  (cfg : SimConfig) (num_devices : nat) (g : Rng) (evs : list Event)
  (g' : Rng) :
  unit_draws g ->
  generate_workload np_log fuel cfg num_devices g = Some (evs, g') ->
  Forall within_bands evs.
Proof.
  intros Hu H. unfold generate_workload, device_apps in H.
  destruct (assign_devices_total APPS (seq 0 num_devices) g Hu)
    as (_ & Hin & Hg1).
  { exists 3%nat. split; [cbn; lia | vm_compute; discriminate]. }
  destruct (assign_devices APPS (seq 0 num_devices) g) as [apps_of g1].
  cbn [fst snd] in *.
  eapply generate_events_bands; [exact H | |].
  - rewrite Hg1. intro i. apply Hu.
  - eapply Forall_impl; [|exact Hin]. cbn beta. intros da Hda.
    pose proof APPS_nominal_nonneg as HA. rewrite Forall_forall in HA.
    now apply HA.
Qed.

Lemma generated_tasks_within_bands_witness :
  unit_draws scenario_rng
  /\ exists evs g',
       generate_workload (fun _ => 0) 20 short_run_config 2 scenario_rng
       = Some (evs, g')
       /\ Forall within_bands evs.
Proof.
  assert (H1 : unit_draws scenario_rng).
  { intro i. cbn. split; [discriminate | reflexivity]. }
  split; [exact H1|].
  destruct (generate_workload (fun _ => 0) 20 short_run_config 2
              scenario_rng) as [[evs g']|] eqn:E;
    [|vm_compute in E; discriminate].
  exists evs, g'. split; [reflexivity|].
  exact (generated_tasks_within_bands _ _ _ _ _ _ _ H1 E).
Defined.

(** ** The class-based simulator *)

Lemma algorithm_decide_draws policy config task servers g d g1 :
  EnergyAware.algorithm_decide policy config task servers g = Some (d, g1) ->
  draws g1 = draws g.
Proof.
  destruct policy; cbn [EnergyAware.algorithm_decide]; intro H;
    try (apply obind_Some in H; destruct H as (d' & _ & H));
    try (injection H as _ <-; reflexivity).
Qed.

Lemma py_min_le_l a b : py_min a b <= a.
Proof. unfold py_min. qcases; lra. Qed.

Lemma py_min_glb a b c : c <= a -> c <= b -> c <= py_min a b.
Proof. unfold py_min. qcases; lra. Qed.

Lemma execute_task_effect config task d servers g task' servers' g' :
  EnergyAware.execute_task config task d servers g
    = Some (task', servers', g') ->
  draws g' = draws g
  /\ same_task task task'
  /\ annotated task task'
  /\ map (fun s => (EnergyAware.server_id s, EnergyAware.tasks_in_queue s))
       servers'
     = map (fun s => (EnergyAware.server_id s, EnergyAware.tasks_in_queue s))
         servers
  /\ (unit_draws g -> Forall util_in_range servers ->
      Forall util_in_range servers').
Proof.
  unfold EnergyAware.execute_task. intro H.
  apply obind_Some in H. destruct H as ([[[st en] srv] g0] & Hm & H).
  cbn [jitter random] in H.
  apply obind_Some in H. destruct H as (u & _ & H).
  injection H as <- <- <-.
  assert (Hsrv : draws g0 = draws g
                 /\ map (fun s => (EnergyAware.server_id s,
                                   EnergyAware.tasks_in_queue s)) srv
                    = map (fun s => (EnergyAware.server_id s,
                                     EnergyAware.tasks_in_queue s)) servers
                 /\ (unit_draws g -> Forall util_in_range servers ->
                     Forall util_in_range srv)).
  { destruct d.
    - apply obind_Some in Hm. destruct Hm as (a & _ & Hm).
      apply obind_Some in Hm. destruct Hm as (b & _ & Hm).
      injection Hm as _ _ <- <-. auto.
    - apply obind_Some in Hm. destruct Hm as (a & _ & Hm).
      apply obind_Some in Hm. destruct Hm as (b & _ & Hm).
      apply obind_Some in Hm. destruct Hm as ([i g1] & Hi & Hm).
      apply obind_Some in Hm. destruct Hm as (s & Hs & Hm).
      cbn [random] in Hm. injection Hm as _ _ <- <-.
      unfold EnergyAware.randint in Hi.
      destruct (_ <? _)%Z; [discriminate|]. cbn [random] in Hi.
      injection Hi as <- <-. cbn [draws cursor].
      split; [reflexivity|]. split.
      + eapply map_list_set; [exact Hs | reflexivity].
      + intros Hu Hr. apply list_set_Forall; [exact Hr|].
        assert (Hsr : util_in_range s).
        { apply nth_error_In in Hs. rewrite Forall_forall in Hr. auto. }
        destruct Hsr as [S0 S1]. destruct (Hu (S (cursor g))) as [R0 _].
        unfold util_in_range, EnergyAware.set_utilization;
          cbn [EnergyAware.current_utilization].
        split; [apply py_min_glb; lra | apply py_min_le_l].
    - apply obind_Some in Hm. destruct Hm as (a & _ & Hm).
      apply obind_Some in Hm. destruct Hm as (b & _ & Hm).
      injection Hm as _ _ <- <-. auto. }
  destruct Hsrv as (Hd & Hmap & Hrange).
  split; [cbn [draws]; exact Hd|].
  split; [unfold same_task; cbn; repeat split|].
  split; [|split; assumption].
  unfold annotated. do 3 eexists. cbn. repeat split.
Qed.

Lemma decay_utilization_effect servers : forall g servers' g',
  EnergyAware.decay_utilization servers g = (servers', g') ->
  draws g' = draws g
  /\ map (fun s => (EnergyAware.server_id s, EnergyAware.tasks_in_queue s))
       servers'
     = map (fun s => (EnergyAware.server_id s, EnergyAware.tasks_in_queue s))
         servers
  /\ (unit_draws g -> Forall util_in_range servers ->
      Forall util_in_range servers').
Proof.
  induction servers as [|s rest IH]; intros g servers' g' H;
    cbn [EnergyAware.decay_utilization random] in H.
  - injection H as <- <-. auto.
  - destruct (EnergyAware.decay_utilization rest _) as [rest' g2] eqn:E.
    injection H as <- <-.
    destruct (IH _ _ _ E) as (Hd & Hm & Hr). cbn [draws] in Hd.
    split; [exact Hd|]. split.
    + cbn [map]. now rewrite Hm.
    + intros Hu Hall. inversion Hall as [|? ? [S0 S1] Hrest]; subst.
      destruct (Hu (cursor g)) as [R0 _].
      constructor.
      * unfold util_in_range, EnergyAware.set_utilization;
          cbn [EnergyAware.current_utilization].
        split; [apply py_max_ge_l | apply py_max_lub; lra].
      * apply Hr; [intro i; apply Hu | exact Hrest].
Qed.

Lemma process_task_effect policy config task servers g task' servers' g' :
  EnergyAware.process_task policy config task servers g
    = Some (task', servers', g') ->
  draws g' = draws g
  /\ same_task task task'
  /\ (if Qltb (EnergyAware.creation_time task)
              (EnergyAware.warm_up_period config)
      then task' = task /\ servers' = servers /\ g' = g
      else annotated task task')
  /\ map (fun s => (EnergyAware.server_id s, EnergyAware.tasks_in_queue s))
       servers'
     = map (fun s => (EnergyAware.server_id s, EnergyAware.tasks_in_queue s))
         servers
  /\ (unit_draws g -> Forall util_in_range servers ->
      Forall util_in_range servers').
Proof.
  unfold EnergyAware.process_task. intro H.
  destruct (Qltb (EnergyAware.creation_time task)
                 (EnergyAware.warm_up_period config)).
  - injection H as <- <- <-. unfold same_task. repeat split; auto.
  - apply obind_Some in H. destruct H as ([d g1] & Hd & H).
    apply obind_Some in H. destruct H as ([[t1 s1] g2] & He & H).
    destruct (EnergyAware.decay_utilization s1 g2) as [s2 g3] eqn:Ed.
    injection H as <- <- <-.
    pose proof (algorithm_decide_draws _ _ _ _ _ _ _ Hd) as D1.
    destruct (execute_task_effect _ _ _ _ _ _ _ _ He)
      as (D2 & Hsame & Hann & Hm1 & Hr1).
    destruct (decay_utilization_effect _ _ _ _ Ed) as (D3 & Hm2 & Hr2).
    split; [congruence|]. split; [exact Hsame|]. split; [exact Hann|].
    split; [congruence|].
    intros Hu Hall. apply Hr2.
    + intro i. rewrite D2, D1. apply Hu.
    + apply Hr1; [intro i; rewrite D1; apply Hu | exact Hall].
Qed.

Lemma process_tasks_effect policy config tasks :
  forall servers g tasks' servers' g',
    EnergyAware.process_tasks policy config tasks servers g
      = Some (tasks', servers', g') ->
    draws g' = draws g
    /\ Forall2 (fun t t' =>
                  same_task t t'
                  /\ (if Qltb (EnergyAware.creation_time t)
                              (EnergyAware.warm_up_period config)
                      then t' = t else annotated t t')) tasks tasks'
    /\ map (fun s => (EnergyAware.server_id s, EnergyAware.tasks_in_queue s))
         servers'
       = map (fun s => (EnergyAware.server_id s,
                        EnergyAware.tasks_in_queue s)) servers
    /\ (unit_draws g -> Forall util_in_range servers ->
        Forall util_in_range servers').
Proof.
  induction tasks as [|task rest IH]; intros servers g tasks' servers' g' H;
    cbn [EnergyAware.process_tasks] in H.
  - injection H as <- <- <-. repeat split; auto.
  - apply obind_Some in H. destruct H as ([[t1 s1] g1] & Hp & H).
    apply obind_Some in H. destruct H as ([[r1 s2] g2] & Hr & H).
    injection H as <- <- <-.
    destruct (process_task_effect _ _ _ _ _ _ _ _ Hp)
      as (D1 & Hsame & Hcase & Hm1 & Hr1).
    destruct (IH _ _ _ _ _ Hr) as (D2 & Hall & Hm2 & Hr2).
    split; [congruence|]. split.
    + constructor; [|exact Hall]. split; [exact Hsame|].
      destruct (Qltb _ _); [now destruct Hcase | exact Hcase].
    + split; [congruence|].
      intros Hu Hrange. apply Hr2.
      * intro i. rewrite D1. apply Hu.
      * now apply Hr1.
Qed.

(** X19. In the class-based simulator every server's utilization stays
    a percentage: starting from utilizations in [0, 100] and with draws
    in [0, 1), processing any list of tasks leaves every utilization in
    [0, 100]; the servers keep their number, order, identity and
    [tasks_in_queue]. *)
Theorem utilization_stays_in_range (policy : Policy)
  (config : EnergyAware.SimulationConfig) (tasks : list EnergyAware.Task)
  (servers : list EnergyAware.EdgeServer) (g : Rng)
  (tasks' : list EnergyAware.Task) (servers' : list EnergyAware.EdgeServer)
  (g' : Rng) :
  EnergyAware.process_tasks policy config tasks servers g
    = Some (tasks', servers', g') ->
  unit_draws g ->
  Forall util_in_range servers ->
  Forall util_in_range servers'
  /\ map (fun s => (EnergyAware.server_id s, EnergyAware.tasks_in_queue s))
       servers'
     = map (fun s => (EnergyAware.server_id s, EnergyAware.tasks_in_queue s))
         servers.
Proof.
  intros H Hu Hr.
  destruct (process_tasks_effect _ _ _ _ _ _ _ _ H) as (_ & _ & Hm & Hrange).
  split; [now apply Hrange | exact Hm].
Qed.

Lemma utilization_stays_in_range_witness :
  unit_draws scenario_rng
  /\ Forall util_in_range scenario_variant_servers
  /\ exists tasks' servers' g',
       EnergyAware.process_tasks EDGE_ONLY
         EnergyAware.SimulationConfig_default [scenario_task; scenario_task]
         scenario_variant_servers scenario_rng = Some (tasks', servers', g')
       /\ Forall util_in_range servers'.
Proof.
  assert (H1 : unit_draws scenario_rng).
  { intro i. cbn. split; [discriminate | reflexivity]. }
  assert (H2 : Forall util_in_range scenario_variant_servers).
  { repeat constructor; cbn; discriminate. }
  split; [exact H1|]. split; [exact H2|].
  destruct (EnergyAware.process_tasks EDGE_ONLY
              EnergyAware.SimulationConfig_default
              [scenario_task; scenario_task] scenario_variant_servers
              scenario_rng) as [[[tasks' servers'] g']|] eqn:E;
    [|vm_compute in E; discriminate].
  exists tasks', servers', g'. split; [reflexivity|].
  exact (proj1 (utilization_stays_in_range _ _ _ _ _ _ _ _ E H1 H2)).
Defined.

(** X20. What the class-based loop does to the tasks: it returns as many
    tasks as it was given, in the same order and with every generated
    field unchanged; a task that arrives before the warm-up period comes
    back as it was; every other task comes back with a decision, a
    start time equal to its creation time, a service time, a finish
    time equal to start plus service time, an energy, and a deadline
    flag that says whether the service time is within the deadline. *)
Theorem tasks_are_annotated (policy : Policy)
  (config : EnergyAware.SimulationConfig) (tasks : list EnergyAware.Task)
  (servers : list EnergyAware.EdgeServer) (g : Rng)
  (tasks' : list EnergyAware.Task) (servers' : list EnergyAware.EdgeServer)
  (g' : Rng) :
  EnergyAware.process_tasks policy config tasks servers g
    = Some (tasks', servers', g') ->
  length tasks' = length tasks
  /\ Forall2 (fun t t' =>
                same_task t t'
                /\ (if Qltb (EnergyAware.creation_time t)
                            (EnergyAware.warm_up_period config)
                    then t' = t else annotated t t')) tasks tasks'.
Proof.
  intro H.
  destruct (process_tasks_effect _ _ _ _ _ _ _ _ H) as (_ & Hall & _).
  split; [|exact Hall].
  symmetry. eapply Forall2_length. exact Hall.
Qed.

Lemma tasks_are_annotated_witness :
  exists tasks' servers' g',
    EnergyAware.process_tasks GREEDY_DEADLINE
      EnergyAware.SimulationConfig_default [scenario_task]
      scenario_variant_servers scenario_rng = Some (tasks', servers', g')
    /\ length tasks' = 1%nat.
Proof.
  destruct (EnergyAware.process_tasks GREEDY_DEADLINE
              EnergyAware.SimulationConfig_default [scenario_task]
              scenario_variant_servers scenario_rng)
    as [[[tasks' servers'] g']|] eqn:E; [|vm_compute in E; discriminate].
  exists tasks', servers', g'. split; [reflexivity|].
  exact (proj1 (tasks_are_annotated _ _ _ _ _ _ _ _ E)).
Defined.

(** ** Results of the class-based simulator *)

Lemma execute_task_needs_servers config task d servers g r :
  EnergyAware.execute_task config task d servers g = Some r ->
  servers <> [].
Proof.
  unfold EnergyAware.execute_task. intro H.
  apply obind_Some in H. destruct H as ([[[st en] srv] g0] & Hm & H).
  cbn [jitter random] in H.
  apply obind_Some in H. destruct H as (u & Hu & _).
  destruct d.
  - apply obind_Some in Hm. destruct Hm as (a & _ & Hm).
    apply obind_Some in Hm. destruct Hm as (b & _ & Hm).
    injection Hm as _ _ <- _. intros ->. discriminate.
  - apply obind_Some in Hm. destruct Hm as (a & Ha & _).
    unfold EnergyAware.estimate_edge_time in Ha.
    apply obind_Some in Ha. destruct Ha as (x & _ & Ha).
    apply obind_Some in Ha. destruct Ha as (y & _ & Ha).
    apply obind_Some in Ha. destruct Ha as (z & Hz & _).
    intros ->. discriminate.
  - apply obind_Some in Hm. destruct Hm as (a & _ & Hm).
    apply obind_Some in Hm. destruct Hm as (b & _ & Hm).
    injection Hm as _ _ <- _. intros ->. discriminate.
Qed.

Lemma process_tasks_needs_servers policy config tasks :
  forall servers g r,
    EnergyAware.process_tasks policy config tasks servers g = Some r ->
    (exists t, In t tasks /\ post_warm_up_task config t = true) ->
    servers <> [].
Proof.
  induction tasks as [|task rest IH]; intros servers g r H (t & Hin & Hpost).
  - destruct Hin.
  - cbn [EnergyAware.process_tasks] in H.
    apply obind_Some in H. destruct H as ([[t1 s1] g1] & Hp & H).
    apply obind_Some in H. destruct H as ([[r1 s2] g2] & Hr & _).
    unfold EnergyAware.process_task in Hp.
    destruct (Qltb (EnergyAware.creation_time task)
                   (EnergyAware.warm_up_period config)) eqn:E.
    + injection Hp as _ <- _.
      destruct Hin as [<- | Hin].
      * unfold post_warm_up_task in Hpost. rewrite E in Hpost. discriminate.
      * eapply IH; [exact Hr|]. exists t. auto.
    + apply obind_Some in Hp. destruct Hp as ([d g3] & _ & Hp).
      apply obind_Some in Hp. destruct Hp as (x & He & _).
      eapply execute_task_needs_servers. exact He.
Qed.

Lemma annotated_has_outcome t t' : annotated t t' -> has_outcome t'.
Proof.
  intros (d & x & en & H1 & _ & H3 & _ & H5 & _).
  unfold has_outcome. rewrite H1, H3, H5. repeat split; discriminate.
Qed.

Lemma valid_tasks_after config tasks tasks' :
  Forall2 (fun t t' =>
             same_task t t'
             /\ (if Qltb (EnergyAware.creation_time t)
                         (EnergyAware.warm_up_period config)
                 then t' = t else annotated t t')) tasks tasks' ->
  length (EnergyAware.valid_tasks config tasks')
  = length (filter (post_warm_up_task config) tasks)
  /\ Forall has_outcome (EnergyAware.valid_tasks config tasks').
Proof.
  induction 1 as [|t t' l l' [Hs Hc] _ [IHl IHf]].
  - split; [reflexivity | constructor].
  - unfold EnergyAware.valid_tasks in *. cbn [filter].
    unfold post_warm_up_task at 1.
    destruct Hs as (_ & _ & _ & Hct & _). rewrite Hct.
    destruct (Qltb (EnergyAware.creation_time t)
                   (EnergyAware.warm_up_period config)); cbn [negb andb].
    + split; assumption.
    + pose proof (annotated_has_outcome _ _ Hc) as Ho.
      destruct Hc as (d & x & en & -> & _).
      cbn [length]. split; [now rewrite IHl | now constructor].
Qed.

Lemma filter_partition_length {A} (f : A -> bool) (l : list A) :
  (length (filter (fun x => negb (f x)) l) + length (filter f l)
   = length l)%nat.
Proof.
  induction l as [|x r IH]; cbn [filter]; [reflexivity|].
  destruct (f x); cbn [negb length]; lia.
Qed.

Lemma decided_counts (l : list EnergyAware.Task) :
  Forall has_outcome l ->
  (length (filter (EnergyAwareRun.decided_at MOBILE) l)
   + length (filter (EnergyAwareRun.decided_at EDGE) l)
   + length (filter (EnergyAwareRun.decided_at CLOUD) l) = length l)%nat.
Proof.
  induction 1 as [|t r [Hd _] _ IH]; [reflexivity|].
  cbn [filter].
  assert (Hk : forall k, EnergyAwareRun.decided_at k t
                         = match EnergyAware.offload_decision t with
                           | Some d => DeviceType_eqb d k
                           | None => false
                           end) by reflexivity.
  rewrite !Hk.
  destruct (EnergyAware.offload_decision t) as [[| |]|]; [| | |congruence];
    cbn [DeviceType_eqb length]; lia.
Qed.

Lemma all_some_total {A} (l : list (option A)) :
  Forall (fun o => o <> None) l ->
  exists r, EnergyAwareRun.all_some l = Some r /\ length r = length l.
Proof.
  induction 1 as [|o rest Ho _ (r & Hr & Hl)].
  - exists []. split; reflexivity.
  - destruct o as [x|]; [|congruence].
    exists (x :: r). cbn [EnergyAwareRun.all_some]. rewrite Hr.
    split; [reflexivity | cbn; now rewrite Hl].
Qed.

Lemma outcome_lists (l : list EnergyAware.Task) :
  Forall has_outcome l ->
  (exists ts, EnergyAwareRun.all_some (map EnergyAware.service_time l)
              = Some ts)
  /\ (exists es, EnergyAwareRun.all_some (map EnergyAware.energy_consumed l)
                 = Some es).
Proof.
  intro H. split.
  - destruct (all_some_total (map EnergyAware.service_time l))
      as (r & Hr & _); [|eauto].
    apply Forall_map. eapply Forall_impl; [|exact H].
    intros t (_ & Hs & _). exact Hs.
  - destruct (all_some_total (map EnergyAware.energy_consumed l))
      as (r & Hr & _); [|eauto].
    apply Forall_map. eapply Forall_impl; [|exact H].
    intros t (_ & _ & He). exact He.
Qed.

Lemma Forall_filter {A} (P : A -> Prop) (f : A -> bool) (l : list A) :
  Forall P l -> Forall P (filter f l).
Proof.
  intro H. apply Forall_forall. intros x Hx.
  apply filter_In in Hx. rewrite Forall_forall in H. now apply H.
Qed.

Lemma app_metrics_total apps completed :
  Forall has_outcome completed ->
  exists m, EnergyAwareRun.app_metrics apps completed = Some m.
Proof.
  intro H. induction apps as [|app rest (m & Hm)].
  - exists []. reflexivity.
  - cbn [EnergyAwareRun.app_metrics]. rewrite Hm. cbn [obind].
    destruct (filter _ completed) as [|t l] eqn:E; [eauto|].
    rewrite <- E.
    destruct (outcome_lists (filter
                (fun t0 => String.eqb
                             (EnergyAware.name (EnergyAware.app_type t0))
                             (EnergyAware.name app)) completed))
      as ((ts & ->) & (es & ->)); [now apply Forall_filter|].
    cbn [obind]. eauto.
Qed.

Lemma met_flag_unit t :
  0 <= EnergyAwareRun.met_flag t /\ EnergyAwareRun.met_flag t <= 1.
Proof.
  unfold EnergyAwareRun.met_flag.
  destruct (EnergyAware.deadline_met t) as [[|]|]; split; lra.
Qed.

Lemma compute_results_spec config p nd iter tasks servers :
  Forall has_outcome (EnergyAware.valid_tasks config tasks) ->
  (EnergyAware.valid_tasks config tasks <> [] -> servers <> []) ->
  exists r,
    EnergyAwareRun.compute_results config p nd iter tasks servers = Some r
    /\ EnergyAwareRun.total_tasks r
       = length (EnergyAware.valid_tasks config tasks)
    /\ (EnergyAwareRun.total_tasks r
        = EnergyAwareRun.completed_tasks r + EnergyAwareRun.failed_tasks r)%nat
    /\ (EnergyAwareRun.total_tasks r
        = EnergyAwareRun.local_executions r
          + EnergyAwareRun.edge_executions r
          + EnergyAwareRun.cloud_executions r)%nat
    /\ 0 <= EnergyAwareRun.deadline_satisfaction_rate r
    /\ EnergyAwareRun.deadline_satisfaction_rate r <= 1.
Proof.
  intros Ho Hsrv. unfold EnergyAwareRun.compute_results.
  destruct (EnergyAware.valid_tasks config tasks) as [|v0 vr] eqn:Ev.
  - eexists. split; [reflexivity|]. cbn. repeat split; lra.
  - rewrite <- Ev in *.
    set (valid := EnergyAware.valid_tasks config tasks) in *.
    set (completed := filter (fun t => negb (EnergyAware.failed t)) valid).
    assert (Hoc : Forall has_outcome completed)
      by (now apply Forall_filter).
    assert (Hrates : exists st en rate,
               match completed with
               | [] => Some (0.0, 0.0, 0.0)
               | _ :: _ =>
                   times <- EnergyAwareRun.all_some
                              (map EnergyAware.service_time completed) ;;
                   energies <- EnergyAwareRun.all_some
                                 (map EnergyAware.energy_consumed completed) ;;
                   Some (np_mean times, np_mean energies,
                         np_mean (map EnergyAwareRun.met_flag completed))
               end = Some (st, en, rate)
               /\ 0 <= rate /\ rate <= 1).
    { destruct completed as [|c0 cr] eqn:Ec.
      - do 3 eexists. split; [reflexivity|]. split; lra.
      - rewrite <- Ec in *.
        destruct (outcome_lists completed Hoc) as ((ts & ->) & (es & ->)).
        cbn [obind]. do 3 eexists. split; [reflexivity|].
        apply np_mean_bounds.
        + rewrite Ec. discriminate.
        + apply Forall_map, Forall_forall. intros t _. apply met_flag_unit. }
    destruct Hrates as (st & en & rate & -> & R0 & R1). cbn [obind].
    assert (Hne : servers <> []) by (apply Hsrv; rewrite Ev; discriminate).
    destruct servers as [|s0 sr]; [congruence|].
    cbn [EnergyAware.mean_utilization obind].
    destruct (app_metrics_total APPLICATION_TYPES completed Hoc) as (m & ->).
    cbn [obind]. eexists. split; [reflexivity|].
    cbn [EnergyAwareRun.total_tasks EnergyAwareRun.completed_tasks
         EnergyAwareRun.failed_tasks EnergyAwareRun.local_executions
         EnergyAwareRun.edge_executions EnergyAwareRun.cloud_executions
         EnergyAwareRun.deadline_satisfaction_rate].
    split; [reflexivity|]. split.
    + unfold completed.
      pose proof (filter_partition_length
                    (fun t => EnergyAware.failed t) valid) as Hp.
      cbv beta in Hp. rewrite <- Hp. reflexivity.
    + split; [|split; assumption].
      pose proof (decided_counts valid Ho). lia.
Qed.

Lemma class_results_after_loop
  (config : EnergyAware.SimulationConfig) (p : Policy) (nd iter : nat)
  (tasks : list EnergyAware.Task) (servers : list EnergyAware.EdgeServer)
  (g : Rng) (tasks' : list EnergyAware.Task)
  (servers' : list EnergyAware.EdgeServer) (g' : Rng) :
  EnergyAware.process_tasks p config tasks servers g
    = Some (tasks', servers', g') ->
  exists r,
    EnergyAwareRun.compute_results config p nd iter tasks' servers' = Some r
    /\ EnergyAwareRun.total_tasks r
       = length (filter (post_warm_up_task config) tasks)
    /\ (EnergyAwareRun.total_tasks r
        = EnergyAwareRun.completed_tasks r + EnergyAwareRun.failed_tasks r)%nat
    /\ (EnergyAwareRun.total_tasks r
        = EnergyAwareRun.local_executions r
          + EnergyAwareRun.edge_executions r
          + EnergyAwareRun.cloud_executions r)%nat
    /\ 0 <= EnergyAwareRun.deadline_satisfaction_rate r
    /\ EnergyAwareRun.deadline_satisfaction_rate r <= 1.
Proof.
  intro H.
  destruct (process_tasks_effect _ _ _ _ _ _ _ _ H) as (_ & Hall & Hm & _).
  destruct (valid_tasks_after config tasks tasks' Hall) as (Hlen & Ho).
  destruct (compute_results_spec config p nd iter tasks' servers' Ho)
    as (r & Hr & Ht & Hrest).
  - intro Hv. 
    assert (Hs : servers <> []).
    { eapply process_tasks_needs_servers; [exact H|].
      destruct (filter (post_warm_up_task config) tasks) as [|t l] eqn:E.
      - cbn [length] in Hlen.
        destruct (EnergyAware.valid_tasks config tasks');
          [congruence | discriminate].
      - exists t. apply filter_In. rewrite E. now left. }
    apply (f_equal (@length _)) in Hm. rewrite !length_map in Hm.
    destruct servers'; [|discriminate].
    destruct servers; [congruence | discriminate].
  - exists r. split; [exact Hr|]. split; [congruence | exact Hrest].
Qed.

(** X21. Task accounting of the class-based simulator.  Whenever the
    task loop of [run_simulation] completes, the results are computed
    without error, and in them [total_tasks] is the number of tasks that
    arrived at or after the warm-up period; it equals completed plus
    failed tasks and also local plus edge plus cloud executions; and the
    deadline-satisfaction rate lies between 0 and 1. *)
Theorem class_based_run_accounts_for_every_task
  (config : EnergyAware.SimulationConfig) (p : Policy) (nd iter : nat)
  (tasks : list EnergyAware.Task) (g : Rng)
  (out : list EnergyAware.Task * list EnergyAware.EdgeServer * Rng) :
  EnergyAware.process_tasks p config tasks
    (map EnergyAware.EdgeServer_init
         (seq 0 (EnergyAware.num_edge_servers config))) g = Some out ->
  exists r,
    EnergyAwareRun.run_simulation config p nd iter tasks g = Some r
    /\ EnergyAwareRun.total_tasks r
       = length (filter (post_warm_up_task config) tasks)
    /\ (EnergyAwareRun.total_tasks r
        = EnergyAwareRun.completed_tasks r + EnergyAwareRun.failed_tasks r)%nat
    /\ (EnergyAwareRun.total_tasks r
        = EnergyAwareRun.local_executions r
          + EnergyAwareRun.edge_executions r
          + EnergyAwareRun.cloud_executions r)%nat
    /\ 0 <= EnergyAwareRun.deadline_satisfaction_rate r
    /\ EnergyAwareRun.deadline_satisfaction_rate r <= 1.
Proof.
  intro H. destruct out as [[tasks' servers'] g'].
  unfold EnergyAwareRun.run_simulation. rewrite H. cbn [obind].
  exact (class_results_after_loop config p nd iter _ _ _ _ _ _ H).
Qed.

Lemma class_based_run_accounts_for_every_task_witness :
  exists r,
    EnergyAwareRun.run_simulation EnergyAware.SimulationConfig_default
      GREEDY_DEADLINE 1 1 [scenario_task] scenario_rng = Some r
    /\ EnergyAwareRun.total_tasks r = 1%nat.
Proof.
  destruct (EnergyAware.process_tasks GREEDY_DEADLINE
              EnergyAware.SimulationConfig_default [scenario_task]
              (map EnergyAware.EdgeServer_init
                 (seq 0 (EnergyAware.num_edge_servers
                           EnergyAware.SimulationConfig_default)))
              scenario_rng)
    as [out|] eqn:E; [|vm_compute in E; discriminate].
  destruct (class_based_run_accounts_for_every_task
              EnergyAware.SimulationConfig_default GREEDY_DEADLINE 1 1
              _ _ _ E) as (r & Hr & Ht & _).
  exists r. split; [exact Hr|]. rewrite Ht. reflexivity.
Defined.

(** ** Averages over iterations *)

Lemma py_int_bounds (x : Q) :
  0 <= x ->
  (0 <= py_int x)%Z
  /\ inject_Z (py_int x) <= x
  /\ x < inject_Z (py_int x) + 1.
Proof.
  intro Hx. destruct x as [n d].
  assert (Hn : (0 <= n)%Z).
  { unfold Qle in Hx. cbn [Qnum Qden] in Hx. lia. }
  unfold py_int. cbn [Qnum Qden].
  rewrite Z.quot_div_nonneg by lia.
  change (n / Z.pos d)%Z with (Qfloor (n # d)).
  split; [|split].
  - apply Z.div_pos; lia.
  - apply Qfloor_le.
  - pose proof (Qlt_floor (n # d)) as H.
    rewrite inject_Z_plus in H. exact H.
Qed.

Lemma length_pos_Q {A} (l : list A) :
  l <> [] -> 0 < inject_Z (Z.of_nat (length l)).
Proof.
  intro H. destruct l as [|x r]; [congruence|].
  rewrite <- (Zlt_Qlt 0). cbn [length]. lia.
Qed.

Lemma count_mean_nonneg {A} (f : A -> nat) (l : list A) :
  l <> [] -> 0 <= count_mean f l.
Proof.
  intro H. unfold count_mean.
  apply (np_mean_bounds 0 (inject_Z (Z.of_nat (list_max (map f l))))).
  - destruct l; [congruence | discriminate].
  - apply Forall_map, Forall_forall. intros x Hx. split.
    + rewrite <- (Zle_Qle 0). lia.
    + rewrite <- Zle_Qle. apply Nat2Z.inj_le.
      pose proof (list_max_le (map f l) (list_max (map f l))) as [Hm _].
      specialize (Hm (Nat.le_refl _)). rewrite Forall_forall in Hm.
      apply Hm. now apply in_map.
Qed.

Lemma count_sum_add {A} (f g h : A -> nat) (l : list A) :
  Forall (fun x => f x = (g x + h x)%nat) l ->
  py_sum (map (fun r => inject_Z (Z.of_nat (f r))) l)
  == py_sum (map (fun r => inject_Z (Z.of_nat (g r))) l)
     + py_sum (map (fun r => inject_Z (Z.of_nat (h r))) l).
Proof.
  induction 1 as [|x r Hx _ IH].
  - unfold py_sum; cbn [map fold_left]. lra.
  - cbn [map]. rewrite !py_sum_cons, IH, Hx, Nat2Z.inj_add, inject_Z_plus.
    lra.
Qed.

Lemma count_mean_add {A} (f g h : A -> nat) (l : list A) :
  l <> [] ->
  Forall (fun x => f x = (g x + h x)%nat) l ->
  count_mean f l == count_mean g l + count_mean h l.
Proof.
  intros Hne H. unfold count_mean, np_mean. rewrite !length_map.
  pose proof (length_pos_Q l Hne) as Hn.
  rewrite (count_sum_add f g h l H). field. lra.
Qed.

(** Truncating two non-negative numbers separately loses less than one
    unit against truncating their sum. *)
Lemma py_int_split (t a b : Q) :
  0 <= a -> 0 <= b -> t == a + b ->
  (py_int a + py_int b <= py_int t <= py_int a + py_int b + 1)%Z.
Proof.
  intros Ha Hb Ht.
  assert (H0 : 0 <= t) by lra.
  destruct (py_int_bounds a Ha) as (_ & A1 & A2).
  destruct (py_int_bounds b Hb) as (_ & B1 & B2).
  destruct (py_int_bounds t H0) as (_ & T1 & T2).
  split.
  - apply Z.lt_succ_r. unfold Z.succ. rewrite Zlt_Qlt.
    rewrite !inject_Z_plus. change (inject_Z 1) with 1. lra.
  - apply Z.lt_succ_r. unfold Z.succ. rewrite Zlt_Qlt.
    rewrite !inject_Z_plus. change (inject_Z 1) with 1. lra.
Qed.

Lemma run_simulation_summary policy nd cfg events g r :
  run_simulation policy nd cfg events g = Some r ->
  total_tasks r = (rr_local r + rr_edge r + rr_cloud r)%nat
  /\ (failed_tasks r <= total_tasks r)%nat
  /\ 0 <= deadline_rate r /\ deadline_rate r <= 1.
Proof.
  unfold run_simulation. intro H.
  apply obind_Some in H. destruct H as (st & Hrun & H).
  injection H as <-.
  destruct (run_events_consistent _ _ _ _ _ _ Hrun Results_init_consistent)
    as ((_ & _ & C3 & _ & C5) & _).
  unfold summarize;
    cbn [total_tasks failed_tasks rr_local rr_edge rr_cloud deadline_rate].
  split; [exact C3|]. split; [lia|].
  destruct (map (fun b => inject_Z (Z.of_nat b))
                (deadline_met (st_results st))) as [|x l] eqn:E;
    unfold mean_or_zero; [split; lra|].
  rewrite <- E. apply np_mean_bounds.
  - rewrite E. discriminate.
  - apply Forall_map. eapply Forall_impl; [|exact C5].
    intros b Hb. cbn beta in *.
    split; unfold Qle, inject_Z; cbn [Qnum Qden]; lia.
Qed.

Lemma failure_share_unit (failed total : nat) :
  (failed <= total)%nat ->
  0 <= inject_Z (Z.of_nat failed) / inject_Z (Z.of_nat (Nat.max 1 total))
  /\ inject_Z (Z.of_nat failed) / inject_Z (Z.of_nat (Nat.max 1 total)) <= 1.
Proof.
  intro H.
  assert (Hpos : 0 < inject_Z (Z.of_nat (Nat.max 1 total)))
    by (rewrite <- (Zlt_Qlt 0); lia).
  assert (Hf : 0 <= inject_Z (Z.of_nat failed))
    by (rewrite <- (Zle_Qle 0); lia).
  assert (Hle : inject_Z (Z.of_nat failed)
                <= inject_Z (Z.of_nat (Nat.max 1 total)))
    by (rewrite <- Zle_Qle; lia).
  split.
  - apply Qle_shift_div_l; [exact Hpos | lra].
  - apply Qle_shift_div_r; [exact Hpos | lra].
Qed.

(** X22. The averages of [run_all].  For any positive number of runs of
    one policy, the averaged failure ratio and deadline rate lie between
    0 and 1; the averaged local, edge and cloud counts are not negative,
    and, being truncated separately, they add up to at most the mean
    number of tasks and to more than that mean minus 3. *)
Theorem run_all_averages_are_consistent (pol : Policy) (nd : nat)
  (cfg : SimConfig) (pol_results : list RunResult) :
  pol_results <> [] ->
  Forall (fun r => exists events g,
            run_simulation pol nd cfg events g = Some r) pol_results ->
  let avg := run_all_average pol nd pol_results in
  (0 <= RunAll.failed_ratio avg /\ RunAll.failed_ratio avg <= 1)
  /\ (0 <= RunAll.deadline_rate avg /\ RunAll.deadline_rate avg <= 1)
  /\ (0 <= RunAll.local avg /\ 0 <= RunAll.edge avg
      /\ 0 <= RunAll.cloud avg)%Z
  /\ inject_Z (RunAll.local avg + RunAll.edge avg + RunAll.cloud avg)
     <= count_mean total_tasks pol_results
  /\ count_mean total_tasks pol_results
     < inject_Z (RunAll.local avg + RunAll.edge avg + RunAll.cloud avg) + 3.
Proof.
  intros Hne Hall avg.
  assert (Hs : Forall (fun r =>
                 total_tasks r = (rr_local r + rr_edge r + rr_cloud r)%nat
                 /\ (failed_tasks r <= total_tasks r)%nat
                 /\ 0 <= deadline_rate r /\ deadline_rate r <= 1)
                pol_results).
  { eapply Forall_impl; [|exact Hall].
    intros r (events & g & H). exact (run_simulation_summary _ _ _ _ _ _ H). }
  assert (Hmap : forall (f : RunResult -> Q), map f pol_results <> []).
  { intro f. destruct pol_results; [congruence | discriminate]. }
  unfold avg, run_all_average;
    cbn [RunAll.failed_ratio RunAll.deadline_rate RunAll.local RunAll.edge
         RunAll.cloud].
  split; [|split].
  - apply np_mean_bounds; [apply Hmap|].
    apply Forall_map. eapply Forall_impl; [|exact Hs].
    intros r (_ & Hf & _). cbn beta. now apply failure_share_unit.
  - apply np_mean_bounds; [apply Hmap|].
    apply Forall_map. eapply Forall_impl; [|exact Hs].
    intros r (_ & _ & Hd). exact Hd.
  - pose proof (count_mean_nonneg rr_local pol_results Hne) as Hl.
    pose proof (count_mean_nonneg rr_edge pol_results Hne) as He.
    pose proof (count_mean_nonneg rr_cloud pol_results Hne) as Hc.
    destruct (py_int_bounds _ Hl) as (L0 & L1 & L2).
    destruct (py_int_bounds _ He) as (E0 & E1 & E2).
    destruct (py_int_bounds _ Hc) as (C0 & C1 & C2).
    assert (Hle : count_mean (fun r => (rr_local r + rr_edge r)%nat) pol_results
                  == count_mean rr_local pol_results
                     + count_mean rr_edge pol_results).
    { apply count_mean_add; [exact Hne|].
      apply Forall_forall. reflexivity. }
    assert (Ht : count_mean total_tasks pol_results
                 == count_mean (fun r => (rr_local r + rr_edge r)%nat)
                      pol_results
                    + count_mean rr_cloud pol_results).
    { apply count_mean_add; [exact Hne|].
      eapply Forall_impl; [|exact Hs]. intros r (H & _). exact H. }
    split; [repeat split; assumption|].
    rewrite !inject_Z_plus. split; lra.
Qed.

Lemma run_all_averages_are_consistent_witness :
  exists r,
    run_simulation GREEDY_DEADLINE 2 single_server_config race_events
      greedy_rng = Some r
    /\ 0 <= RunAll.failed_ratio (run_all_average GREEDY_DEADLINE 2 [r; r])
    /\ RunAll.failed_ratio (run_all_average GREEDY_DEADLINE 2 [r; r]) <= 1.
Proof.
  destruct (run_simulation GREEDY_DEADLINE 2 single_server_config race_events
              greedy_rng) as [r|] eqn:E; [|vm_compute in E; discriminate].
  exists r. split; [reflexivity|].
  assert (Hne : [r; r] <> []) by discriminate.
  assert (Hall : Forall (fun x => exists events g,
                           run_simulation GREEDY_DEADLINE 2
                             single_server_config events g = Some x) [r; r]).
  { repeat constructor; exists race_events, greedy_rng; exact E. }
  exact (proj1 (run_all_averages_are_consistent GREEDY_DEADLINE 2
                  single_server_config [r; r] Hne Hall)).
Defined.

(** X23. The averages of [run_full_simulation].  For any positive
    number of completed runs of one policy, the averaged counts are
    truncated separately: completed plus failed is the averaged total or
    one less, local plus edge plus cloud is the averaged total or up to
    two less, and the averaged deadline-satisfaction rate lies between 0
    and 1. *)
Theorem run_full_simulation_averages_are_consistent
  (config : EnergyAware.SimulationConfig) (pol : Policy) (nd : nat)
  (policy_results : list EnergyAwareRun.SimulationResults) :
  policy_results <> [] ->
  Forall (fun r => exists iter tasks g,
            EnergyAwareRun.run_simulation config pol nd iter tasks g = Some r)
         policy_results ->
  let avg := run_full_simulation_average pol nd policy_results in
  (EnergyAwareRun.completed_tasks avg + EnergyAwareRun.failed_tasks avg
   <= EnergyAwareRun.total_tasks avg
   <= EnergyAwareRun.completed_tasks avg + EnergyAwareRun.failed_tasks avg
      + 1)%nat
  /\ (EnergyAwareRun.local_executions avg + EnergyAwareRun.edge_executions avg
      + EnergyAwareRun.cloud_executions avg
      <= EnergyAwareRun.total_tasks avg
      <= EnergyAwareRun.local_executions avg
         + EnergyAwareRun.edge_executions avg
         + EnergyAwareRun.cloud_executions avg + 2)%nat
  /\ 0 <= EnergyAwareRun.deadline_satisfaction_rate avg
  /\ EnergyAwareRun.deadline_satisfaction_rate avg <= 1.
Proof.
  intros Hne Hall avg.
  assert (Hs : Forall (fun r =>
      (EnergyAwareRun.total_tasks r
       = EnergyAwareRun.completed_tasks r + EnergyAwareRun.failed_tasks r)%nat
      /\ (EnergyAwareRun.total_tasks r
          = EnergyAwareRun.local_executions r
            + EnergyAwareRun.edge_executions r
            + EnergyAwareRun.cloud_executions r)%nat
      /\ 0 <= EnergyAwareRun.deadline_satisfaction_rate r
      /\ EnergyAwareRun.deadline_satisfaction_rate r <= 1) policy_results).
  { eapply Forall_impl; [|exact Hall].
    intros r (iter & tasks & g & H).
    unfold EnergyAwareRun.run_simulation in H.
    apply obind_Some in H. destruct H as ([[tasks' servers'] g'] & Hp & Hc).
    destruct (class_results_after_loop config pol nd iter _ _ _ _ _ _ Hp)
      as (r' & Hr' & _ & H1 & H2 & H3).
    rewrite Hc in Hr'. injection Hr' as <-. repeat split; tauto. }
  pose proof (fun f => count_mean_nonneg
                (A := EnergyAwareRun.SimulationResults) f policy_results Hne)
    as Hpos.
  assert (Hcf : count_mean EnergyAwareRun.total_tasks policy_results
                == count_mean EnergyAwareRun.completed_tasks policy_results
                   + count_mean EnergyAwareRun.failed_tasks policy_results).
  { apply count_mean_add; [exact Hne|].
    eapply Forall_impl; [|exact Hs]. intros r (H & _). exact H. }
  assert (Hle : count_mean (fun r => (EnergyAwareRun.local_executions r
                                      + EnergyAwareRun.edge_executions r)%nat)
                  policy_results
                == count_mean EnergyAwareRun.local_executions policy_results
                   + count_mean EnergyAwareRun.edge_executions policy_results).
  { apply count_mean_add; [exact Hne|]. apply Forall_forall. reflexivity. }
  assert (Hlec : count_mean EnergyAwareRun.total_tasks policy_results
                 == count_mean (fun r => (EnergyAwareRun.local_executions r
                                          + EnergyAwareRun.edge_executions r)%nat)
                      policy_results
                    + count_mean EnergyAwareRun.cloud_executions policy_results).
  { apply count_mean_add; [exact Hne|].
    eapply Forall_impl; [|exact Hs]. intros r (_ & H & _). exact H. }
  pose proof (py_int_split _ _ _ (Hpos _) (Hpos _) Hcf) as S1.
  pose proof (py_int_split _ _ _ (Hpos _) (Hpos _) Hle) as S2.
  pose proof (py_int_split _ _ _ (Hpos _) (Hpos _) Hlec) as S3.
  destruct (py_int_bounds _ (Hpos EnergyAwareRun.total_tasks)) as (P0 & _).
  destruct (py_int_bounds _ (Hpos EnergyAwareRun.completed_tasks)) as (P1 & _).
  destruct (py_int_bounds _ (Hpos EnergyAwareRun.failed_tasks)) as (P2 & _).
  destruct (py_int_bounds _ (Hpos EnergyAwareRun.local_executions)) as (P3 & _).
  destruct (py_int_bounds _ (Hpos EnergyAwareRun.edge_executions)) as (P4 & _).
  destruct (py_int_bounds _ (Hpos EnergyAwareRun.cloud_executions)) as (P5 & _).
  unfold avg, run_full_simulation_average;
    cbn [EnergyAwareRun.total_tasks EnergyAwareRun.completed_tasks
         EnergyAwareRun.failed_tasks EnergyAwareRun.local_executions
         EnergyAwareRun.edge_executions EnergyAwareRun.cloud_executions
         EnergyAwareRun.deadline_satisfaction_rate].
  split; [lia|]. split; [lia|].
  apply np_mean_bounds.
  - destruct policy_results; [congruence | discriminate].
  - apply Forall_map. eapply Forall_impl; [|exact Hs].
    intros r (_ & _ & H). exact H.
Qed.

Lemma run_full_simulation_averages_are_consistent_witness :
  exists r,
    EnergyAwareRun.run_simulation EnergyAware.SimulationConfig_default
      GREEDY_DEADLINE 1 1 [scenario_task] scenario_rng = Some r
    /\ (EnergyAwareRun.completed_tasks
          (run_full_simulation_average GREEDY_DEADLINE 1 [r; r])
        + EnergyAwareRun.failed_tasks
            (run_full_simulation_average GREEDY_DEADLINE 1 [r; r])
        <= EnergyAwareRun.total_tasks
             (run_full_simulation_average GREEDY_DEADLINE 1 [r; r]))%nat.
Proof.
  destruct (EnergyAwareRun.run_simulation EnergyAware.SimulationConfig_default
              GREEDY_DEADLINE 1 1 [scenario_task] scenario_rng)
    as [r|] eqn:E; [|vm_compute in E; discriminate].
  exists r. split; [reflexivity|].
  assert (Hne : [r; r] <> []) by discriminate.
  assert (Hall : Forall (fun x => exists iter tasks g,
                           EnergyAwareRun.run_simulation
                             EnergyAware.SimulationConfig_default
                             GREEDY_DEADLINE 1 iter tasks g = Some x) [r; r]).
  { repeat constructor; exists 1%nat, [scenario_task], scenario_rng; exact E. }
  exact (proj1 (proj1 (run_full_simulation_averages_are_consistent
                         EnergyAware.SimulationConfig_default
                         GREEDY_DEADLINE 1 [r; r] Hne Hall))).
Defined.
